(** * Stock_Market: technical-indicator engine and data cleaning

    A shallow embedding of [backend/data_processing.py] and
    [backend/data_cleaning.py] together with the part of pandas they call.

    Conventions of the embedding.
    - A float64 cell is an [f64]: an exact rational, one of the two
      infinities, or not-a-number.  Rounding and overflow of finite values are
      not modelled, and zero carries no sign; division by zero and arithmetic
      on infinities follow IEEE 754.  pandas marks a missing value in a float
      column by the same not-a-number, so [NaN] is also "undefined".  Module
      [Float64] evaluates %K once more over binary64, where rounding decides a
      bound.
    - A pandas Series of floats is the list of its values in index order.
    - A price column is float64 or, when the file holds whole numbers only,
      int64.  The one operation of the engine that then behaves otherwise is
      [Series.diff], which subtracts in int64 and wraps around; the column
      carries its dtype to that place.
    - The panel handed to [preprocess_data] is the cleaned one: its price and
      volume cells are finite numbers, none missing, so a price column is a
      list of rationals.  The frames that [load_data] and [clean_data] handle
      are raw: any cell may be missing.
    - A raised Python exception is the left summand of ExtLib's error monad;
      logging has no effect on any result and is left out. *)

From Stdlib Require Import String Ascii Bool Arith PeanoNat ZArith QArith
  Qminmax Qround Lia Lqa Permutation Sorted List.
From Stdlib Require OrderedTypeEx ListDec PrimFloat.
From ExtLib Require Import Structures.Monad Structures.MonadExc
  Data.Monads.EitherMonad.
Import ListNotations.
Import MonadNotation.
Local Open Scope monad_scope.
Local Open Scope string_scope.
Local Open Scope list_scope.
Local Open Scope nat_scope.

(* ===================================================================== *)
(** * The pandas operations used by the two scripts                      *)
(* ===================================================================== *)

Module Pandas.

(** Python exceptions that the scripts can see. *)
Inductive exn : Type :=
| ValueError
| KeyError
| TypeError
| InvalidIndexError
| ReadError.

Definition result : Type -> Type := sum exn.

#[global] Instance Monad_result : Monad result := Monad_either exn.
#[global] Instance Exception_result : MonadExc exn result := Exception_either exn.

Definition Qlt_bool (a b : Q) : bool := negb (Qle_bool b a).

(** ** float64 *)

Inductive f64 : Type :=
| Fin (q : Q)
| PInf
| NInf
| NaN.

Definition Series := list f64.

(** No observation for a rolling window: not-a-number, and the infinities,
    which pandas turns into not-a-number before it aggregates a window. *)
Definition no_obs (x : f64) : bool :=
  match x with Fin _ => false | _ => true end.

Definition sign (x : f64) : comparison :=
  match x with
  | Fin q => (q ?= 0)%Q
  | PInf => Gt
  | NInf => Lt
  | NaN => Eq
  end.

Definition mul_sign (a b : comparison) : comparison :=
  match a, b with
  | Eq, _ | _, Eq => Eq
  | Gt, c | c, Gt => c
  | Lt, Lt => Gt
  end.

(** An infinity of the given sign; sign [Eq] is the invalid operation. *)
Definition inf_of_sign (c : comparison) : f64 :=
  match c with Gt => PInf | Lt => NInf | Eq => NaN end.

Definition fneg (x : f64) : f64 :=
  match x with
  | Fin q => Fin (- q)
  | PInf => NInf
  | NInf => PInf
  | NaN => NaN
  end.

Definition fadd (x y : f64) : f64 :=
  match x, y with
  | NaN, _ | _, NaN => NaN
  | Fin a, Fin b => Fin (a + b)
  | PInf, NInf | NInf, PInf => NaN
  | PInf, _ | _, PInf => PInf
  | NInf, _ | _, NInf => NInf
  end.

Definition fsub (x y : f64) : f64 := fadd x (fneg y).

Definition fmul (x y : f64) : f64 :=
  match x, y with
  | NaN, _ | _, NaN => NaN
  | Fin a, Fin b => Fin (a * b)
  | _, _ => inf_of_sign (mul_sign (sign x) (sign y))
  end.

Definition fdiv (x y : f64) : f64 :=
  match x, y with
  | NaN, _ | _, NaN => NaN
  | Fin a, Fin b =>
      if Qeq_bool b 0 then inf_of_sign (sign x) else Fin (a / b)
  | Fin _, _ => Fin 0
  | _, Fin b => inf_of_sign (mul_sign (sign x) (if Qlt_bool b 0 then Lt else Gt))
  | _, _ => NaN
  end.

(** [x > 0] and [x < 0] as pandas evaluates them: false on not-a-number. *)
Definition fgt0 (x : f64) : bool :=
  match x with Fin q => Qlt_bool 0 q | PInf => true | _ => false end.

Definition flt0 (x : f64) : bool :=
  match x with Fin q => Qlt_bool q 0 | NInf => true | _ => false end.

Definition fle (x y : f64) : bool :=
  match x, y with
  | NaN, _ | _, NaN => false
  | NInf, _ | _, PInf => true
  | Fin a, Fin b => Qle_bool a b
  | _, _ => false
  end.

Definition fmin (x y : f64) : f64 := if fle x y then x else y.
Definition fmax (x y : f64) : f64 := if fle y x then x else y.

Definition of_nat (n : nat) : Q := inject_Z (Z.of_nat n).

(** ** Series construction and element-wise operators *)

Definition of_values (xs : list Q) : Series := map Fin xs.

(** [a op b] on two Series that carry the same index. *)
Definition map2 {A B C} (f : A -> B -> C) (xs : list A) (ys : list B) : list C :=
  map (fun p => f (fst p) (snd p)) (combine xs ys).

(** The dtype of a column of numbers. *)
Inductive dtype : Type :=
| int64
| float64.

(** The int64 that the bits of [z] stand for: two's complement, 64 bits. *)
Definition wrap_int64 (z : Z) : Z :=
  let u := (z mod 2 ^ 64)%Z in
  if (u <? 2 ^ 63)%Z then u else (u - 2 ^ 64)%Z.

(** [cur - prev] between two values of a column of dtype [dt].  The values
    of an int64 column are whole numbers, and their difference is taken in
    int64. *)
Definition sub_as (dt : dtype) (cur prev : Q) : Q :=
  match dt with
  | float64 => (cur - prev)%Q
  | int64 => inject_Z (wrap_int64 (Qfloor cur - Qfloor prev))
  end.

(** [Series.diff()]: undefined at the first position; the result is a
    float64 Series, the subtraction is done in the dtype of the column. *)
Definition diff (dt : dtype) (xs : list Q) : Series :=
  match xs with
  | [] => []
  | _ :: tl => NaN :: map2 (fun prev cur => Fin (sub_as dt cur prev)) xs tl
  end.

(** [Series.pct_change()]: [x[i] / x[i-1] - 1], undefined at the first position. *)
Definition pct_change (xs : list Q) : Series :=
  match xs with
  | [] => []
  | _ :: tl =>
      NaN :: map2 (fun prev cur => fsub (fdiv (Fin cur) (Fin prev)) (Fin 1)) xs tl
  end.

(** [Series.where(cond, other)]: keep the value where [cond] holds. *)
Definition where_ (cond : f64 -> bool) (other : f64) (s : Series) : Series :=
  map (fun v => if cond v then v else other) s.

(** ** Rolling windows

    [s.rolling(window=w)] with the default [min_periods = w]: the window that
    ends at position [i] holds positions [i-w+1 .. i]; the aggregate is
    undefined while the window holds fewer than [w] observations. *)

Definition window {A} (w i : nat) (xs : list A) : list A :=
  firstn w (skipn (S i - w) xs).

Definition rolling (w : nat) (agg : list f64 -> f64) (s : Series) : Series :=
  map (fun i =>
         if S i <? w then NaN
         else let win := window w i s in
              if existsb no_obs win then NaN else agg win)
      (seq 0 (length s)).

Definition fsum (win : list f64) : f64 := fold_left fadd win (Fin 0).

Definition agg_mean (win : list f64) : f64 :=
  fdiv (fsum win) (Fin (of_nat (length win))).

Definition agg_min (win : list f64) : f64 :=
  match win with [] => NaN | x :: tl => fold_left fmin tl x end.

Definition agg_max (win : list f64) : f64 :=
  match win with [] => NaN | x :: tl => fold_left fmax tl x end.

Definition rolling_mean (w : nat) : Series -> Series := rolling w agg_mean.
Definition rolling_min (w : nat) : Series -> Series := rolling w agg_min.
Definition rolling_max (w : nat) : Series -> Series := rolling w agg_max.

Section Std.
(** The square root of float64, kept abstract: it is the one operation of
    the engine that leaves the rationals. *)
Variable sqrt : Q -> Q.

Definition fsq (x : f64) : f64 := fmul x x.

(** [std()] with the default [ddof = 1]: the sample standard deviation. *)
Definition agg_std (win : list f64) : f64 :=
  let n := length win in
  let m := agg_mean win in
  let ss := fsum (map (fun x => fsq (fsub x m)) win) in
  match fdiv ss (Fin (of_nat (n - 1))) with
  | Fin v => Fin (sqrt v)
  | _ => NaN
  end.

Definition rolling_std (w : nat) : Series -> Series := rolling w agg_std.
End Std.

(** ** Exponentially weighted mean

    [x.ewm(span=span, adjust=False).mean()] on a series without missing
    values: [y[0] = x[0]] and [y[t] = (1 - alpha) * y[t-1] + alpha * x[t]]
    with [alpha = 2 / (span + 1)]. *)

Definition alpha (span : nat) : Q := 2 / (of_nat span + 1).

Fixpoint ewm_from (a prev : Q) (xs : list Q) : list Q :=
  match xs with
  | [] => []
  | x :: tl => let y := ((1 - a) * prev + a * x)%Q in y :: ewm_from a y tl
  end.

Definition ewm_mean (span : nat) (xs : list Q) : list Q :=
  match xs with
  | [] => []
  | x :: tl => x :: ewm_from (alpha span) x tl
  end.

(** ** Tables read from CSV files

    A cell is missing, a number or a string; a frame is its column labels and
    its rows, every row holding one cell per column.  [read_csv] gives a frame
    pairwise distinct labels; after [clean_column_names] two columns can carry
    the same label. *)

Inductive cell : Type :=
| Null
| Num (q : Q)
| Str (s : string).

Record DataFrame : Type := mkDataFrame {
  columns : list string;
  rows : list (list cell)
}.

Definition isnull (c : cell) : bool :=
  match c with Null => true | _ => false end.

Definition mem (c : string) (cols : list string) : bool :=
  existsb (String.eqb c) cols.

Definition issubset (cs cols : list string) : bool :=
  forallb (fun c => mem c cols) cs.

Fixpoint index_of (c : string) (cols : list string) : option nat :=
  match cols with
  | [] => None
  | c' :: tl => if String.eqb c c' then Some 0
                else option_map S (index_of c tl)
  end.

(** The cell of [row] under the column labelled [c], for a label that
    occurs once; missing when the frame has no such column, which is how
    [concat] fills the columns a frame lacks. *)
Definition get_cell (cols : list string) (row : list cell) (c : string) : cell :=
  match index_of c cols with
  | Some k => nth k row Null
  | None => Null
  end.

(** The cells of [row] under all the columns labelled [c]. *)
Fixpoint cells_under (cols : list string) (row : list cell) (c : string) : list cell :=
  match cols with
  | [] => []
  | c' :: tl =>
      if String.eqb c c' then hd Null row :: cells_under tl (List.tl row) c
      else cells_under tl (List.tl row) c
  end.

(** The number of columns labelled [c]. *)
Definition occurrences (c : string) (cols : list string) : nat :=
  length (filter (String.eqb c) cols).

(** [cols.is_unique] *)
Fixpoint is_unique (cols : list string) : bool :=
  match cols with
  | [] => true
  | c :: tl => negb (mem c tl) && is_unique tl
  end.

(** [a.equals(b)] on two column indexes. *)
Fixpoint labels_eqb (a b : list string) : bool :=
  match a, b with
  | [], [] => true
  | x :: a', y :: b' => String.eqb x y && labels_eqb a' b'
  | _, _ => false
  end.

(** A row as it stands under [n] columns. *)
Definition fit (n : nat) (row : list cell) : list cell :=
  map (fun k => nth k row Null) (seq 0 n).

(** [df.empty]: some axis has length zero. *)
Definition empty (df : DataFrame) : bool :=
  (length (rows df) =? 0) || (length (columns df) =? 0).

Definition union_columns (frames : list DataFrame) : list string :=
  fold_left (fun acc f => acc ++ filter (fun c => negb (mem c acc)) (columns f))
            frames [].

(** [pd.concat(frames, ignore_index=True)]: the rows of all frames, in
    order, over the union of their columns.  A frame whose columns are not
    the columns of the result is reindexed, which pandas refuses for a frame
    with a repeated label; frames that all carry the same labels are stacked
    as they are. *)
Definition concat (frames : list DataFrame) : result DataFrame :=
  match frames with
  | [] => raise ValueError
  | f :: _ =>
      if forallb (fun g => is_unique (columns g)) frames then
        let cols := union_columns frames in
        ret {| columns := cols;
               rows := flat_map (fun f => map (fun row => map (get_cell (columns f) row) cols)
                                              (rows f)) frames |}
      else if forallb (fun g => labels_eqb (columns g) (columns f)) frames then
        ret {| columns := columns f;
               rows := flat_map (fun g => map (fit (length (columns f))) (rows g)) frames |}
      else raise InvalidIndexError
  end.

(** [df.dropna(subset=cs)]: keep the rows with no missing cell in any column
    whose label is in [cs]. *)
Definition dropna (subset : list string) (df : DataFrame) : DataFrame :=
  {| columns := columns df;
     rows := filter (fun row =>
                       forallb (fun c => forallb (fun x => negb (isnull x))
                                                 (cells_under (columns df) row c))
                               subset) (rows df) |}.

Definition column (c : string) (df : DataFrame) : list cell :=
  map (fun row => get_cell (columns df) row c) (rows df).

(** [df[c].isnull().sum()] *)
Definition count_null (cs : list cell) : nat :=
  length (filter isnull cs).

(** [df[c].mean()]: the mean of the cells that are present; missing when
    there is none; a [TypeError] on a column of strings. *)
Definition mean (cs : list cell) : result cell :=
  if existsb (fun c => match c with Str _ => true | _ => false end) cs
  then raise TypeError
  else
    let xs := flat_map (fun c => match c with Num q => [q] | _ => [] end) cs in
    match xs with
    | [] => ret Null
    | _ => ret (Num (fold_left Qplus xs 0%Q / of_nat (length xs)))
    end.

Fixpoint set_nth {A} (k : nat) (v : A) (l : list A) : list A :=
  match k, l with
  | _, [] => []
  | 0, _ :: tl => v :: tl
  | S k', x :: tl => x :: set_nth k' v tl
  end.

(** [df[c].fillna(v, inplace=True)], taken to write through to [df]. *)
Definition fillna (c : string) (v : cell) (df : DataFrame) : DataFrame :=
  match v, index_of c (columns df) with
  | Null, _ | _, None => df
  | _, Some k =>
      {| columns := columns df;
         rows := map (fun row => if isnull (nth k row Null) then set_nth k v row else row)
                     (rows df) |}
  end.

Definition cell_eqb (a b : cell) : bool :=
  match a, b with
  | Null, Null => true
  | Num x, Num y => Qeq_bool x y
  | Str x, Str y => String.eqb x y
  | _, _ => false
  end.

Fixpoint row_eqb (r1 r2 : list cell) : bool :=
  match r1, r2 with
  | [], [] => true
  | a :: t1, b :: t2 => cell_eqb a b && row_eqb t1 t2
  | _, _ => false
  end.

Fixpoint drop_duplicates_from (seen rest : list (list cell)) : list (list cell) :=
  match rest with
  | [] => []
  | r :: tl =>
      if existsb (row_eqb r) seen then drop_duplicates_from seen tl
      else r :: drop_duplicates_from (r :: seen) tl
  end.

(** [df.drop_duplicates()]: of equal rows the first one stays. *)
Definition drop_duplicates (df : DataFrame) : DataFrame :=
  {| columns := columns df; rows := drop_duplicates_from [] (rows df) |}.

(** A directory of files, as [os.listdir] and [pd.read_csv] see it. *)
Inductive file : Type :=
| Unreadable
| Csv (df : DataFrame).

Definition directory := list (string * file).

Definition read_csv (f : file) : result DataFrame :=
  match f with
  | Unreadable => raise ReadError
  | Csv df => ret df
  end.

(** [s.endswith(suffix)] *)
Definition endswith (s suffix : string) : bool :=
  let n := String.length s in
  let m := String.length suffix in
  (m <=? n) && String.eqb (substring (n - m) m s) suffix.

Definition listdir_csv (data_dir : directory) : list (string * file) :=
  filter (fun p => endswith (fst p) ".csv") data_dir.

End Pandas.

Import Pandas.

(* ===================================================================== *)
(** * backend/data_processing.py                                         *)
(* ===================================================================== *)

Module DataProcessing.

Definition required_columns : list string :=
  ["Ticker"; "DTYYYYMMDD"; "Open"; "High"; "Low"; "Close"; "Volume"].

(** The loop of [load_data]: a file that cannot be read, lacks a required
    column or is empty is logged and left out. *)
Fixpoint load_files (all_files : list (string * file)) (data_frames : list DataFrame)
  : list DataFrame :=
  match all_files with
  | [] => data_frames
  | (_, f) :: rest =>
      match read_csv f with
      | inl _ => load_files rest data_frames
      | inr df =>
          if negb (issubset required_columns (columns df))
          then load_files rest data_frames
          else if empty df then load_files rest data_frames
          else load_files rest (data_frames ++ [df])
      end
  end.

(** [load_data], lines 12-44. *)
Definition load_data (data_dir : directory) : result DataFrame :=
  let all_files := listdir_csv data_dir in
  let data_frames := load_files all_files [] in
  match data_frames with
  | [] => raise ValueError
  | _ => concat data_frames
  end.

(** [calculate_rsi], lines 46-60, on a series of dtype [dt].  [where] keeps
    a change that passes the test and puts 0 in every other place, the missing
    first change included. *)
Definition calculate_rsi (dt : dtype) (series : list Q) (window : nat) : Series :=
  let delta := diff dt series in
  let gain := rolling_mean window (where_ fgt0 (Fin 0) delta) in
  let loss := rolling_mean window (map fneg (where_ flt0 (Fin 0) delta)) in
  let rs := map2 fdiv gain loss in
  map (fun r => fsub (Fin 100) (fdiv (Fin 100) (fadd (Fin 1) r))) rs.

(** [calculate_macd], lines 62-77. *)
Definition calculate_macd (series : list Q) (span_short span_long signal : nat)
  : Series * Series :=
  let ema_short := ewm_mean span_short series in
  let ema_long := ewm_mean span_long series in
  let macd := map2 Qminus ema_short ema_long in
  let signal_line := ewm_mean signal macd in
  (of_values macd, of_values signal_line).

(** A row of the panel handed to [preprocess_data], and the same row once
    [DTYYYYMMDD] has been replaced by [Date] (a datetime64, that is, an
    integer count on the time line). *)
Record RawRow : Type := mkRawRow {
  raw_Ticker : string;
  DTYYYYMMDD : Z;
  raw_Open : Q;
  raw_High : Q;
  raw_Low : Q;
  raw_Close : Q;
  raw_Volume : Q
}.

Record Row : Type := mkRow {
  Ticker : string;
  Date : Z;
  Open : Q;
  High : Q;
  Low : Q;
  Close : Q;
  Volume : Q
}.

(** [calculate_stochastic_oscillator], lines 79-93. *)
Definition calculate_stochastic_oscillator (df : list Row) (k_period d_period : nat)
  : Series * Series :=
  let low_min := rolling_min k_period (of_values (map Low df)) in
  let high_max := rolling_max k_period (of_values (map High df)) in
  let k_percent :=
    map2 fdiv
         (map (fmul (Fin 100)) (map2 fsub (of_values (map Close df)) low_min))
         (map2 fsub high_max low_min) in
  let d_percent := rolling_mean d_period k_percent in
  (k_percent, d_percent).

(** ** Sorting and grouping *)

(** The order of [sort_values(by=['Ticker', 'Date'])]. *)
Definition row_leb (r1 r2 : Row) : bool :=
  match String.compare (Ticker r1) (Ticker r2) with
  | Lt => true
  | Eq => (Date r1 <=? Date r2)%Z
  | Gt => false
  end.

Section Sort.
Context {A : Type} (leb : A -> A -> bool).

Fixpoint insert (x : A) (l : list A) : list A :=
  match l with
  | [] => [x]
  | y :: tl => if leb x y then x :: l else y :: insert x tl
  end.

Definition sort (l : list A) : list A := fold_right insert [] l.
End Sort.

(** [df.sort_values(by=['Ticker', 'Date'])]; rows with equal keys keep the
    order they had. *)
Definition sort_values (df : list Row) : list Row := sort row_leb df.

(** The keys of [df.groupby('Ticker')]: the distinct tickers in ascending
    order. *)
Definition group_keys (df : list Row) : list string :=
  sort String.leb (nodup string_dec (map Ticker df)).

Definition in_group (t : string) (r : Row) : bool := String.eqb (Ticker r) t.

(** The rows of one group, in the order they have in the frame. *)
Definition get_group (t : string) (df : list Row) : list Row :=
  filter (in_group t) df.

(** The frame with the position of every row written next to it. *)
Definition indexed (df : list Row) : list (nat * Row) :=
  combine (seq 0 (length df)) df.

(** [df.groupby('Ticker')['Close'].transform(f)]: [f] runs on the Close
    series of every group and each value goes back to the position its row
    has in the frame.  [f] returns one value per row of the group, as every
    function passed below does. *)
Definition transform (f : list Q -> Series) (df : list Row) : Series :=
  let parts :=
    flat_map (fun t =>
                let g := filter (fun p => in_group t (snd p)) (indexed df) in
                combine (map fst g) (f (map (fun p => Close (snd p)) g)))
             (group_keys df) in
  map (fun j => match find (fun p => fst p =? j) parts with
                | Some p => snd p
                | None => NaN
                end)
      (seq 0 (length df)).

(** [df.groupby('Ticker').apply(f)] for an [f] that returns a tuple: a
    Series of tuples, one per group, indexed by the group keys. *)
Definition apply {B} (f : list Row -> B) (df : list Row) : list (string * B) :=
  map (fun t => (t, f (get_group t df))) (group_keys df).

(** [zip( *s )] over a Series [s] of pairs: nothing for no pair, else the
    tuple of all first components and the tuple of all second ones. *)
Definition zip_star {B} (s : list (string * (B * B))) : list (list B) :=
  match s with
  | [] => []
  | _ => [map (fun p => fst (snd p)) s; map (fun p => snd (snd p)) s]
  end.

(** [a, b = it]: the iterable must yield exactly two values. *)
Definition unpack2 {B} (it : list B) : result (B * B) :=
  match it with
  | [a; b] => ret (a, b)
  | _ => raise ValueError
  end.

(** [df[col] = value] for a tuple [value]: its length must be that of the
    index; the column then holds the members of the tuple as they are. *)
Definition set_column {B} (df : list Row) (value : list B) : result (list B) :=
  if length value =? length df then ret value else raise ValueError.

(** A row of the returned frame.  The last four columns hold what the tuple
    assignment puts there: one Series object per cell (the cells of an object
    column, as pandas 2 builds it from a tuple of Series). *)
Record FeatureRow : Type := mkFeatureRow {
  row : Row;
  SMA_10 : f64;
  EMA_10 : f64;
  BB_Middle : f64;
  BB_Upper : f64;
  BB_Lower : f64;
  Daily_Return : f64;
  RSI_14 : f64;
  MACD : Series;
  Signal_Line : Series;
  pct_K : Series;
  pct_D : Series
}.

Section Preprocess.
(** The square root of float64, the parser of
    [pd.to_datetime(_, format='%Y%m%d')], [None] when it raises, and the dtype
    of the Close column of the frame. *)
Variable sqrt : Q -> Q.
Variable to_datetime : Z -> option Z.
Variable Close_dtype : dtype.

Definition convert_date (r : RawRow) : result Row :=
  match to_datetime (DTYYYYMMDD r) with
  | Some d => ret (mkRow (raw_Ticker r) d (raw_Open r) (raw_High r)
                         (raw_Low r) (raw_Close r) (raw_Volume r))
  | None => raise ValueError
  end.

Fixpoint convert_dates (df : list RawRow) : result (list Row) :=
  match df with
  | [] => ret []
  | r :: tl =>
      r' <- convert_date r ;;
      tl' <- convert_dates tl ;;
      ret (r' :: tl')
  end.

(** The columns of lines 117-129, as functions of the sorted frame. *)
Definition col_SMA_10 (df : list Row) : Series :=
  transform (fun x => rolling_mean 10 (of_values x)) df.

Definition col_EMA_10 (df : list Row) : Series :=
  transform (fun x => of_values (ewm_mean 10 x)) df.

Definition col_BB_Middle (df : list Row) : Series := col_SMA_10 df.

Definition col_BB_Upper (df : list Row) : Series :=
  map2 fadd (col_BB_Middle df)
       (map (fmul (Fin 2))
            (transform (fun x => rolling_std sqrt 10 (of_values x)) df)).

Definition col_BB_Lower (df : list Row) : Series :=
  map2 fsub (col_BB_Middle df)
       (map (fmul (Fin 2))
            (transform (fun x => rolling_std sqrt 10 (of_values x)) df)).

Definition col_Daily_Return (df : list Row) : Series :=
  transform pct_change df.

Definition col_RSI_14 (df : list Row) : Series :=
  transform (fun x => calculate_rsi Close_dtype x 14) df.

Definition assemble (df : list Row)
           (sma_10 ema_10 bb_middle bb_upper bb_lower daily_return rsi_14 : Series)
           (macd signal_line k d : list Series) : list FeatureRow :=
  map (fun j =>
         mkFeatureRow
           (nth j df (mkRow EmptyString 0 0 0 0 0 0))
           (nth j sma_10 NaN) (nth j ema_10 NaN)
           (nth j bb_middle NaN) (nth j bb_upper NaN) (nth j bb_lower NaN)
           (nth j daily_return NaN) (nth j rsi_14 NaN)
           (nth j macd []) (nth j signal_line [])
           (nth j k []) (nth j d []))
      (seq 0 (length df)).

(** [preprocess_data], lines 95-143.  The [except] clause logs and raises
    again, so an exception leaves the function as it arose. *)
Definition preprocess_data (raw : list RawRow) : result (list FeatureRow) :=
  df <- convert_dates raw ;;
  let df := sort_values df in
  let sma_10 := col_SMA_10 df in
  let ema_10 := col_EMA_10 df in
  let bb_middle := col_BB_Middle df in
  let bb_upper := col_BB_Upper df in
  let bb_lower := col_BB_Lower df in
  let daily_return := col_Daily_Return df in
  let rsi_14 := col_RSI_14 df in
  ms <- unpack2 (zip_star (apply (fun x => calculate_macd (map Close x) 12 26 9) df)) ;;
  macd <- set_column df (fst ms) ;;
  signal_line <- set_column df (snd ms) ;;
  kd <- unpack2 (zip_star (apply (fun group => calculate_stochastic_oscillator group 14 3) df)) ;;
  k <- set_column df (fst kd) ;;
  d <- set_column df (snd kd) ;;
  ret (assemble df sma_10 ema_10 bb_middle bb_upper bb_lower daily_return rsi_14
                macd signal_line k d).
End Preprocess.

End DataProcessing.

(* ===================================================================== *)
(** * backend/data_cleaning.py                                           *)
(* ===================================================================== *)

Module DataCleaning.

(** [s.replace(ch, '')] *)
Fixpoint remove_char (ch : ascii) (s : string) : string :=
  match s with
  | EmptyString => EmptyString
  | String a tl => if Ascii.eqb a ch then remove_char ch tl
                   else String a (remove_char ch tl)
  end.

(** [clean_column_names], lines 13-23. *)
Definition clean_column_names (df : DataFrame) : DataFrame :=
  {| columns := map (fun c => remove_char ">" (remove_char "<" c)) (columns df);
     rows := rows df |}.

Definition critical_columns : list string :=
  ["Ticker"; "DTYYYYMMDD"; "Open"; "High"; "Low"; "Close"; "Volume"].

Definition numerical_cols : list string :=
  ["Open"; "High"; "Low"; "Close"; "Volume"].

(** The loop of [load_data]: the first file that cannot be read or lacks a
    critical column ends the whole load with its exception. *)
Fixpoint load_files (all_files : list (string * file)) (data_frames : list DataFrame)
  : result (list DataFrame) :=
  match all_files with
  | [] => ret data_frames
  | (_, f) :: rest =>
      df <- read_csv f ;;
      let df := clean_column_names df in
      let missing_columns :=
        filter (fun col => negb (mem col (columns df))) critical_columns in
      match missing_columns with
      | [] => load_files rest (data_frames ++ [df])
      | _ => raise ValueError
      end
  end.

(** [load_data], lines 25-68. *)
Definition load_data (data_dir : directory) : result DataFrame :=
  let all_files := listdir_csv data_dir in
  match all_files with
  | [] => raise ValueError
  | _ =>
      data_frames <- load_files all_files [] ;;
      concat data_frames
  end.

(** [df[cols]]: a [KeyError] when a label is not a column of [df]. *)
Definition select (cols : list string) (df : DataFrame) : result unit :=
  if issubset cols (columns df) then ret tt else raise KeyError.

(** One round of the mean-fill loop.  Under a label that two columns carry,
    [df[col]] is a frame and [missing_values] a Series, whose test by [if]
    raises [ValueError]. *)
Definition fill_column (col : string) (df : DataFrame) : result DataFrame :=
  if mem col (columns df) then
    if 1 <? occurrences col (columns df) then raise ValueError
    else
      let missing_values := count_null (column col df) in
      if 0 <? missing_values then
        mean_value <- mean (column col df) ;;
        ret (fillna col mean_value df)
      else ret df
  else ret df.

Fixpoint fill_columns (cols : list string) (df : DataFrame) : result DataFrame :=
  match cols with
  | [] => ret df
  | col :: tl =>
      df' <- fill_column col df ;;
      fill_columns tl df'
  end.

(** [clean_data], lines 71-112. *)
Definition clean_data (df : DataFrame) : result DataFrame :=
  _ <- select critical_columns df ;;
  let df := dropna critical_columns df in
  df <- fill_columns numerical_cols df ;;
  ret (drop_duplicates df).

End DataCleaning.

(* ===================================================================== *)
(** * %K over binary64                                                   *)
(* ===================================================================== *)

(** The lines 89-91 of [calculate_stochastic_oscillator] once more, over
    the binary64 numbers of the kernel instead of the rationals: the min and
    max of a window pick one of its values, and the three arithmetic
    operations round as float64 does.  This is the place where rounding shows
    in a value that a claim speaks of. *)
Module Float64.
Import PrimFloat.

Definition missing (x : PrimFloat.float) : bool :=
  PrimFloat.is_nan x || PrimFloat.is_infinity x.

Definition rolling (w : nat) (agg : list PrimFloat.float -> PrimFloat.float)
           (s : list PrimFloat.float) : list PrimFloat.float :=
  map (fun i =>
         if S i <? w then PrimFloat.nan
         else let win := window w i s in
              if existsb missing win then PrimFloat.nan else agg win)
      (seq 0 (length s)).

Definition agg_min (win : list PrimFloat.float) : PrimFloat.float :=
  match win with
  | [] => PrimFloat.nan
  | x :: tl => fold_left (fun a b => if PrimFloat.leb a b then a else b) tl x
  end.

Definition agg_max (win : list PrimFloat.float) : PrimFloat.float :=
  match win with
  | [] => PrimFloat.nan
  | x :: tl => fold_left (fun a b => if PrimFloat.leb b a then a else b) tl x
  end.

Definition k_percent (Low High Close : list PrimFloat.float) (k_period : nat)
  : list PrimFloat.float :=
  let low_min := rolling k_period agg_min Low in
  let high_max := rolling k_period agg_max High in
  map2 PrimFloat.div
       (map (PrimFloat.mul 100%float) (map2 PrimFloat.sub Close low_min))
       (map2 PrimFloat.sub high_max low_min).

(** Fourteen bars with low 93.73 and high and close 108.33, each the
    nearest binary64 number. *)
Definition lows : list PrimFloat.float := repeat 0x1.76eb851eb851fp+6%float 14.
Definition highs : list PrimFloat.float := repeat 0x1.b151eb851eb85p+6%float 14.

(** 100, and the binary64 number next above it, 100.00000000000001. *)
Definition hundred : PrimFloat.float := 100%float.
Definition next_above_hundred : PrimFloat.float := 0x1.9000000000001p+6%float.

End Float64.

Import DataProcessing.

(* ===================================================================== *)
(** * Vocabulary of the statements                                       *)
(* ===================================================================== *)

(** The position that row [j] of the frame has inside its ticker group. *)
Definition group_index (j : nat) (df : list Row) : nat :=
  match nth_error df j with
  | Some r => length (get_group (Ticker r) (firstn j df))
  | None => 0
  end.

(** The Close series of the group of ticker [t]. *)
Definition group_close (t : string) (df : list Row) : list Q :=
  map Close (get_group t df).

Definition Qsum (xs : list Q) : Q := fold_right Qplus 0%Q xs.

Definition arith_mean (xs : list Q) : Q := (Qsum xs / of_nat (length xs))%Q.

(** The sample variance (divisor [n - 1]). *)
Definition sample_variance (xs : list Q) : Q :=
  (Qsum (map (fun x => (x - arith_mean xs) * (x - arith_mean xs)) xs)
   / of_nat (length xs - 1))%Q.

(** The [n] values of [xs] at the positions i-n+1 .. i. *)
Definition last_n (n i : nat) (xs : list Q) : list Q :=
  map (fun k => nth k xs 0%Q) (seq (S i - n) n).

(** The whole number in [-2^63, 2^63) that differs from [z] by a multiple of
    2^64. *)
Definition into_int64 (z : Z) : Z := ((z + 2 ^ 63) mod 2 ^ 64 - 2 ^ 63)%Z.

(** The difference [cur - prev] as a column of dtype [dt] computes it: exact
    in float64, brought into the int64 range in int64. *)
Definition difference (dt : dtype) (cur prev : Q) : Q :=
  match dt with
  | float64 => (cur - prev)%Q
  | int64 => inject_Z (into_int64 (Qfloor cur - Qfloor prev))
  end.

(** The day-to-day change at position [k] of a Close series; there is none
    at position 0. *)
Definition change (dt : dtype) (c : list Q) (k : nat) : option Q :=
  match k with
  | 0 => None
  | S k' => Some (difference dt (nth k c 0%Q) (nth k' c 0%Q))
  end.

(** The changes of a series, position by position. *)
Definition deltas (dt : dtype) (c : list Q) : list (option Q) :=
  map (change dt c) (seq 0 (length c)).

(** Gain and loss of a change; where there is no change to look at, both
    count as 0. *)
Definition gain (d : option Q) : Q :=
  match d with Some x => Qmax x 0 | None => 0%Q end.

Definition loss (d : option Q) : Q :=
  match d with Some x => Qmax (- x) 0 | None => 0%Q end.

(** The 14-period averages that end at position [i]: the means of the
    gains and of the losses of the changes at the positions i-13 .. i. *)
Definition avg_gain (dt : dtype) (c : list Q) (i : nat) : Q :=
  arith_mean (map (fun k => gain (change dt c k)) (seq (i - 13) 14)).

Definition avg_loss (dt : dtype) (c : list Q) (i : nat) : Q :=
  arith_mean (map (fun k => loss (change dt c k)) (seq (i - 13) 14)).

(** Gain and loss in the form [calculate_rsi] computes them. *)
Definition where_gain (d : option Q) : Q :=
  match d with Some x => if Qlt_bool 0 x then x else 0%Q | None => 0%Q end.

Definition where_loss (d : option Q) : Q :=
  match d with Some x => if Qlt_bool x 0 then (- x)%Q else (- 0)%Q | None => (- 0)%Q end.

Definition rsi_of (g l : f64) : f64 :=
  fsub (Fin 100) (fdiv (Fin 100) (fadd (Fin 1) (fdiv g l))).

(** [r1] does not come after [r2] in (Ticker, Date) order. *)
Definition row_le (r1 r2 : Row) : Prop := row_leb r1 r2 = true.

(** A file that [DataProcessing.load_data] keeps: it can be read, has all
    required columns and is not empty. *)
Definition usable (f : file) : bool :=
  match f with
  | Unreadable => false
  | Csv df => issubset DataProcessing.required_columns (columns df) && negb (empty df)
  end.

(** The frames of the usable files, in order. *)
Definition kept (files : list (string * file)) : list DataFrame :=
  flat_map (fun p => match snd p with
                     | Csv df => if usable (Csv df) then [df] else []
                     | Unreadable => []
                     end) files.

(** A required column is absent from the labels as [read_csv] gives them. *)
Definition absent_as_read (df : DataFrame) : Prop :=
  exists c, In c DataProcessing.required_columns /\ ~ In c (columns df).

(** A critical column is absent also once "<" and ">" are taken out of the
    column labels. *)
Definition column_absent (df : DataFrame) : Prop :=
  exists c, In c DataCleaning.critical_columns /\
            ~ In c (columns (DataCleaning.clean_column_names df)).

(** Two columns carry the label [c]. *)
Definition repeated (c : string) (cols : list string) : Prop :=
  exists k1 k2, k1 < k2 /\ nth_error cols k1 = Some c /\ nth_error cols k2 = Some c.

(** The least and the greatest value of a window. *)
Definition lowest (xs : list Q) : Q :=
  match xs with [] => 0%Q | x :: tl => fold_left Qmin tl x end.

Definition highest (xs : list Q) : Q :=
  match xs with [] => 0%Q | x :: tl => fold_left Qmax tl x end.

(** [ys] is the exponential moving average of [xs] with smoothing factor
    [a], seeded with the first observation. *)
Definition is_ema (a : Q) (xs ys : list Q) : Prop :=
  length ys = length xs /\
  nth 0 ys 0%Q = nth 0 xs 0%Q /\
  forall k, S k < length xs ->
            (nth (S k) ys 0 == a * nth (S k) xs 0 + (1 - a) * nth k ys 0)%Q.

(* ===================================================================== *)
(** * Sample inputs                                                      *)
(* ===================================================================== *)

Module Samples.

(** A bar with the given high, low and close; it opens at the low. *)
Definition bar (t : string) (d : Z) (hi lo cl : Q) : Row :=
  mkRow t d lo hi lo cl 1000.

(** Consecutive days of one ticker, every bar without range at its close. *)
Fixpoint days (t : string) (d : Z) (closes : list Q) : list Row :=
  match closes with
  | [] => []
  | c :: tl => bar t d c c c :: days t (d + 1) tl
  end.

(** Twelve trading days of AAA. *)
Definition aaa_closes : list Q :=
  [10; 11; 9; 12; 13; 11; 14; 15; 13; 16; 17; 15]%Q.

(** The AAA days with one BBB row in between: AAA's tenth day is row 10. *)
Definition panel : list Row :=
  match days "AAA" 1 aaa_closes with
  | first :: rest => first :: bar "BBB" 1 5 5 5 :: rest
  | [] => []
  end.

(** A square root that is exact on the squares of rationals. *)
Definition sqrt_q (q : Q) : Q :=
  let r := Qred q in Z.sqrt (Qnum r) # Pos.sqrt (Qden r).


(** Fourteen days of DDD, the close one higher every day. *)
Definition rising : list Row :=
  days "DDD" 1 [1; 2; 3; 4; 5; 6; 7; 8; 9; 10; 11; 12; 13; 14]%Q.

(** [n] equal bars on consecutive days. *)
Fixpoint bars (t : string) (d : Z) (n : nat) (hi lo cl : Q) : list Row :=
  match n with
  | 0 => []
  | S n' => bar t d hi lo cl :: bars t (d + 1) n' hi lo cl
  end.

(** Fourteen bars with the close in the middle of a range of 2. *)
Definition mid_range : list Row := bars "EEE" 1 14 12 10 11.

(** Fourteen bars without range, the close above the high. *)
Definition flat_range : list Row := bars "FFF" 1 14 10 10 11.

(** Fourteen bars with a range of 2, the close above the high. *)
Definition close_above_high : list Row := bars "GGG" 1 14 12 10 13.

(** A parser of eight-digit dates in the range of datetime64[ns], giving
    the nanoseconds since 1970-01-01. *)
Definition is_leap (y : Z) : bool :=
  ((y mod 4 =? 0) && negb (y mod 100 =? 0) || (y mod 400 =? 0))%Z.

Definition days_in_month (y m : Z) : Z :=
  if (m =? 2)%Z then (if is_leap y then 29 else 28)%Z
  else if ((m =? 4) || (m =? 6) || (m =? 9) || (m =? 11))%Z then 30%Z
  else 31%Z.

Definition days_from_civil (y m d : Z) : Z :=
  (let y' := if m <=? 2 then y - 1 else y in
   let era := y' / 400 in
   let yoe := y' - era * 400 in
   let mp := (m + 9) mod 12 in
   let doy := (153 * mp + 2) / 5 + d - 1 in
   let doe := yoe * 365 + yoe / 4 - yoe / 100 + doy in
   era * 146097 + doe - 719468)%Z.

Definition parse_yyyymmdd (v : Z) : option Z :=
  (let y := v / 10000 in
   let m := (v / 100) mod 100 in
   let d := v mod 100 in
   if (1678 <=? y) && (y <=? 2261) && (1 <=? m) && (m <=? 12)
      && (1 <=? d) && (d <=? days_in_month y m)
   then Some (days_from_civil y m d * 86400000000000)
   else None)%Z.

(** One ticker on two days. *)
Definition two_days : list RawRow :=
  [mkRawRow "AAA" 20240102 10 11 9 10 1000;
   mkRawRow "AAA" 20240103 10 12 10 11 1200].

(** Two tickers, one of them on two days, out of order. *)
Definition three_rows : list RawRow :=
  [mkRawRow "BBB" 20240102 20 21 19 20 500;
   mkRawRow "AAA" 20240103 10 12 10 11 1200;
   mkRawRow "AAA" 20240102 10 11 9 10 1000].

(** Two tickers on one day each. *)
Definition one_day_each : list RawRow :=
  [mkRawRow "BBB" 20240102 20 21 19 20 500;
   mkRawRow "AAA" 20240102 10 11 9 10 1000].

(** A raw row under the seven columns Ticker, DTYYYYMMDD, Open, High, Low,
    Close, Volume. *)
Definition ohlcv_row (t : string) (d o h l c v : Q) : list cell :=
  [Str t; Num d; Num o; Num h; Num l; Num c; Num v].

(** A file without the Volume column, and a file with all columns. *)
Definition no_volume : DataFrame :=
  {| columns := ["Ticker"; "DTYYYYMMDD"; "Open"; "High"; "Low"; "Close"];
     rows := [[Str "AAA"; Num 20240102; Num 10; Num 11; Num 9; Num 10]] |}.

Definition complete : DataFrame :=
  {| columns := ["Ticker"; "DTYYYYMMDD"; "Open"; "High"; "Low"; "Close"; "Volume"];
     rows := [ohlcv_row "BBB" 20240102 20 21 19 20 500] |}.

(** Raw rows: one complete, one without a close, the complete one again. *)
Definition dirty : DataFrame :=
  {| columns := ["Ticker"; "DTYYYYMMDD"; "Open"; "High"; "Low"; "Close"; "Volume"];
     rows := [ohlcv_row "BBB" 20240102 20 21 19 20 500;
              [Str "AAA"; Num 20240102; Num 10; Num 11; Num 9; Null; Num 1000];
              ohlcv_row "BBB" 20240102 20 21 19 20 500] |}.

(** A directory with a file that lacks a column and a complete one. *)
Definition mixed_dir : directory :=
  [("a.csv", Csv no_volume); ("b.csv", Csv complete)].

End Samples.

(* ===================================================================== *)
(** * The script of backend/data_cleaning.py                             *)
(* ===================================================================== *)

Module CleaningScript.

(** What the script prints at its end. *)
Inductive report : Type :=
| Completed
| Failed (e : exn).

(** Writing a file puts it in the place of the file of that name, or after
    the files that are there. *)
Fixpoint write_file (name : string) (f : file) (d : directory) : directory :=
  match d with
  | [] => [(name, f)]
  | (n, g) :: rest =>
      if String.eqb n name then (name, f) :: rest
      else (n, g) :: write_file name f rest
  end.

(** [df.to_csv(path, index=False)]: the table written is taken to be the
    table that [read_csv] finds there afterwards, cell for cell and label for
    label.  ([read_csv] numbers the later columns of a repeated label, so for a
    table with such a label this is the file as written, not as pandas would
    read it back.) *)
Definition to_csv (df : DataFrame) (data_dir : directory) (name : string) : directory :=
  write_file name (Csv df) data_dir.

(** The [__main__] block, lines 114-131: load, clean, save; any exception
    is caught and reported, and nothing is written then. *)
Definition main (data_dir : directory) : directory * report :=
  match (raw_data <- DataCleaning.load_data data_dir ;;
         DataCleaning.clean_data raw_data) with
  | inr cleaned_data => (to_csv cleaned_data data_dir "cleaned_stock_data.csv", Completed)
  | inl e => (data_dir, Failed e)
  end.

End CleaningScript.

(* ===================================================================== *)
(** * Vocabulary of the further statements                               *)
(* ===================================================================== *)

(** The sort key of a row. *)
Definition key (r : Row) : string * Z := (Ticker r, Date r).

(** No cell of [row] in a column with a critical label is missing. *)
Definition complete_row (cols : list string) (row : list cell) : Prop :=
  forall c k, In c DataCleaning.critical_columns ->
              nth_error cols k = Some c -> nth k row Null <> Null.

(** The characters of a string. *)
Definition chars (s : string) : list ascii := list_ascii_of_string s.

(** The number of rows of all frames together. *)
Definition total_rows (frames : list DataFrame) : nat :=
  list_sum (map (fun f => length (rows f)) frames).

(** A CSV file that [DataCleaning.load_data] accepts: it can be read and has
    the critical columns once its labels are cleaned. *)
Definition accepted (f : file) : Prop :=
  match f with
  | Unreadable => False
  | Csv df => issubset DataCleaning.critical_columns
                       (columns (DataCleaning.clean_column_names df)) = true
  end.

(** The tables of the files that can be read, in order. *)
Definition frames_of (files : list (string * file)) : list DataFrame :=
  flat_map (fun p => match snd p with Csv df => [df] | Unreadable => [] end) files.

(** No row is equal, cell for cell, to a row before it. *)
Definition duplicate_free (rs : list (list cell)) : Prop :=
  ForallOrdPairs (fun earlier later => row_eqb later earlier = false) rs.

(** Frames that [concat] can stack: no frame has a repeated label, or all
    frames carry the same labels in the same order. *)
Definition stackable (frames : list DataFrame) : Prop :=
  (forall f, In f frames -> NoDup (columns f)) \/
  (forall f g, In f frames -> In g frames -> columns f = columns g).

(** The frames that [DataCleaning.load_data] hands to [concat]. *)
Definition cleaned_frames (data_dir : directory) : list DataFrame :=
  map DataCleaning.clean_column_names (frames_of (listdir_csv data_dir)).

Module MoreSamples.

(** A directory with one complete file whose labels carry angle brackets. *)
Definition bracketed : DataFrame :=
  {| columns := ["<Ticker>"; "<DTYYYYMMDD>"; "<Open>"; "<High>"; "<Low>"; "<Close>";
                 "<Volume>"];
     rows := rows Samples.dirty |}.

Definition raw_dir : directory := [("notes.txt", Unreadable); ("x.csv", Csv bracketed)].

(** Five days of HHH with a close of 0 on the second day. *)
Definition with_zero : list Row := Samples.days "HHH" 1 [10; 0; 5; 6; 3]%Q.

(** Sixteen bars of a range of 4 with the close a quarter up. *)
Definition sixteen : list Row := Samples.bars "III" 1 16 14 10 11.

(** Fifteen days of JJJ, the close one lower every day. *)
Definition falling : list Row :=
  Samples.days "JJJ" 1 [15; 14; 13; 12; 11; 10; 9; 8; 7; 6; 5; 4; 3; 2; 1]%Q.

(** The rows of two frames in turn, as long as both last. *)
Fixpoint weave (a b : list Row) : list Row :=
  match a, b with
  | x :: a', y :: b' => x :: y :: weave a' b'
  | _, [] => a
  | [], _ => b
  end.

(** Three days of BBB, the close falling. *)
Definition bbb : list Row := Samples.days "BBB" 1 [30; 20; 10]%Q.

(** Seventeen days of DDD between the rows of BBB: two falls, then the close
    one higher every day. *)
Definition fall_then_rise : list Row :=
  weave (Samples.days "DDD" 1
           [9; 5; 1; 2; 3; 4; 5; 6; 7; 8; 9; 10; 11; 12; 13; 14; 15]%Q) bbb.

(** Seventeen days of JJJ between the rows of BBB: two rises, then the close
    one lower every day. *)
Definition rise_then_fall : list Row :=
  weave (Samples.days "JJJ" 1
           [1; 5; 20; 19; 18; 17; 16; 15; 14; 13; 12; 11; 10; 9; 8; 7; 6]%Q) bbb.

(** Twelve days of CCC between the rows of BBB; the last ten closes have
    mean 10 and sample standard deviation 2. *)
Definition band_rows : list Row :=
  weave (Samples.days "CCC" 1 [50; 60; 13; 7; 13; 7; 10; 10; 10; 10; 10; 10]%Q) bbb.

(** Two wide bars, then fourteen bars with the close in the middle of a
    range of 2. *)
Definition wide_then_mid : list Row :=
  Samples.bar "EEE" 1 100 1 50 :: Samples.bar "EEE" 2 100 1 50
  :: Samples.bars "EEE" 3 14 12 10 11.

(** Fourteen closes of an int64 column: one rise of 10^19, which does not
    fit int64, then no change. *)
Definition huge_rise : list Q :=
  ((-5000000000000000000) :: repeat 5000000000000000000 13)%Q.

(** A file in which "<Close>" and "Close" are two columns. *)
Definition close_twice : DataFrame :=
  {| columns := ["<Ticker>"; "<DTYYYYMMDD>"; "<Open>"; "<High>"; "<Low>"; "<Close>";
                 "<Volume>"; "Close"];
     rows := [[Str "BBB"; Num 20240102; Num 20; Num 21; Num 19; Num 20; Num 500; Num 20]] |}.

(** A file in which "<Ticker>" and "Ticker" are two columns, the second
    one empty in the first row. *)
Definition ticker_twice : DataFrame :=
  {| columns := ["<Ticker>"; "<DTYYYYMMDD>"; "<Open>"; "<High>"; "<Low>"; "<Close>";
                 "<Volume>"; "Ticker"];
     rows := [[Str "BBB"; Num 20240102; Num 20; Num 21; Num 19; Num 20; Num 500; Null];
              [Str "AAA"; Num 20240102; Num 10; Num 11; Num 9; Num 10; Num 900; Str "AAA"]] |}.

End MoreSamples.

(* ===================================================================== *)
(** * Lists, rationals and float64                                       *)
(* ===================================================================== *)

Lemma nth_map_seq {A} (f : nat -> A) (n i : nat) (d : A) :
  i < n -> nth i (map f (seq 0 n)) d = f i.
Proof.
  intros Hi.
  rewrite (nth_indep _ d (f 0)) by (rewrite length_map, length_seq; exact Hi).
  rewrite (map_nth f (seq 0 n) 0 i), seq_nth by exact Hi.
  reflexivity.
Qed.

Lemma Qlt_bool_iff (a b : Q) : Qlt_bool a b = true <-> (a < b)%Q.
Proof.
  unfold Qlt_bool. rewrite negb_true_iff.
  split; intros H.
  - apply Qnot_le_lt. intros Hle. apply Qle_bool_iff in Hle. congruence.
  - destruct (Qle_bool b a) eqn:E; [|reflexivity].
    apply Qle_bool_iff in E. exfalso. apply (Qlt_not_le _ _ H E).
Qed.

Lemma Qlt_bool_false_iff (a b : Q) : Qlt_bool a b = false <-> (b <= a)%Q.
Proof.
  unfold Qlt_bool. rewrite negb_false_iff. apply Qle_bool_iff.
Qed.

Lemma of_nat_S (n : nat) : (of_nat (S n) == of_nat n + 1)%Q.
Proof.
  unfold of_nat. rewrite Nat2Z.inj_succ, <- Z.add_1_r, inject_Z_plus.
  reflexivity.
Qed.

Lemma of_nat_pos (n : nat) : 0 < n -> (0 < of_nat n)%Q.
Proof.
  intros H. unfold of_nat. change 0%Q with (inject_Z 0).
  rewrite <- Zlt_Qlt. lia.
Qed.

Lemma of_nat_nonzero (n : nat) : 0 < n -> Qeq_bool (of_nat n) 0 = false.
Proof.
  intros H. destruct (Qeq_bool (of_nat n) 0) eqn:E; [|reflexivity].
  apply Qeq_bool_iff in E. pose proof (of_nat_pos n H) as Hp.
  rewrite E in Hp. exfalso. apply (Qlt_irrefl _ Hp).
Qed.

(** ** Series of finite values *)

Lemma of_values_length (xs : list Q) : length (of_values xs) = length xs.
Proof. apply length_map. Qed.

Lemma of_values_all_obs (xs : list Q) : existsb no_obs (of_values xs) = false.
Proof. induction xs as [|x xs IH]; simpl; auto. Qed.

Lemma window_of_values (w i : nat) (xs : list Q) :
  window w i (of_values xs) = of_values (window w i xs).
Proof.
  unfold window, of_values. rewrite skipn_map, firstn_map. reflexivity.
Qed.

Lemma window_length {A} (w i : nat) (xs : list A) :
  w <= S i -> i < length xs -> length (window w i xs) = w.
Proof.
  intros Hw Hi. unfold window.
  rewrite length_firstn, length_skipn. lia.
Qed.

Lemma window_nth {A} (w i k : nat) (xs : list A) (d : A) :
  w <= S i -> k < w -> nth k (window w i xs) d = nth (S i - w + k) xs d.
Proof.
  intros Hw Hk. unfold window.
  rewrite nth_firstn.
  destruct (Nat.ltb_spec k w); [|lia].
  apply nth_skipn.
Qed.

Lemma fsum_from (xs : list Q) (a : Q) :
  exists s, fold_left fadd (of_values xs) (Fin a) = Fin s /\ (s == a + Qsum xs)%Q.
Proof.
  revert a. induction xs as [|x xs IH]; intros a; simpl.
  - exists a. split; [reflexivity|]. unfold Qsum; simpl. ring.
  - destruct (IH (a + x)%Q) as [s [Hs Hq]].
    exists s. split; [exact Hs|]. rewrite Hq. unfold Qsum; simpl. ring.
Qed.

Lemma fsum_of_values (xs : list Q) :
  exists s, fsum (of_values xs) = Fin s /\ (s == Qsum xs)%Q.
Proof.
  destruct (fsum_from xs 0) as [s [Hs Hq]].
  exists s. split; [exact Hs|]. rewrite Hq. ring.
Qed.

Lemma agg_mean_of_values (xs : list Q) :
  0 < length xs ->
  exists m, agg_mean (of_values xs) = Fin m /\ (m == arith_mean xs)%Q.
Proof.
  intros Hn. unfold agg_mean.
  destruct (fsum_of_values xs) as [s [Hs Hq]].
  rewrite Hs, of_values_length. simpl.
  rewrite (of_nat_nonzero _ Hn).
  eexists. split; [reflexivity|].
  unfold arith_mean. rewrite Hq. reflexivity.
Qed.

(** ** Rolling windows *)

Lemma rolling_length (w : nat) (agg : list f64 -> f64) (s : Series) :
  length (rolling w agg s) = length s.
Proof. unfold rolling. rewrite length_map, length_seq. reflexivity. Qed.

Lemma rolling_nth (w : nat) (agg : list f64 -> f64) (s : Series) (i : nat) :
  i < length s ->
  nth i (rolling w agg s) NaN =
  if S i <? w then NaN
  else if existsb no_obs (window w i s) then NaN else agg (window w i s).
Proof.
  intros Hi. unfold rolling.
  rewrite (nth_map_seq _ (length s) i NaN Hi). reflexivity.
Qed.

Lemma rolling_prefix (w : nat) (agg : list f64 -> f64) (s : Series) (i : nat) :
  S i < w -> nth i (rolling w agg s) NaN = NaN.
Proof.
  intros Hw. destruct (Nat.lt_ge_cases i (length s)) as [Hi|Hi].
  - rewrite rolling_nth by exact Hi.
    destruct (Nat.ltb_spec (S i) w); [reflexivity|lia].
  - apply nth_overflow. rewrite rolling_length. exact Hi.
Qed.

Lemma rolling_of_values (w : nat) (agg : list f64 -> f64) (xs : list Q) (i : nat) :
  w <= S i -> i < length xs ->
  nth i (rolling w agg (of_values xs)) NaN = agg (of_values (window w i xs)).
Proof.
  intros Hw Hi.
  rewrite rolling_nth by (rewrite of_values_length; exact Hi).
  destruct (Nat.ltb_spec (S i) w); [lia|].
  rewrite window_of_values, of_values_all_obs. reflexivity.
Qed.

(** The window of the rolling engine holds the values at the positions
    i-w+1 .. i. *)
Lemma last_n_length (n i : nat) (xs : list Q) : length (last_n n i xs) = n.
Proof. unfold last_n. rewrite length_map, length_seq. reflexivity. Qed.

Lemma last_n_nth (n i k : nat) (xs : list Q) :
  k < n -> nth k (last_n n i xs) 0%Q = nth (S i - n + k) xs 0%Q.
Proof.
  intros Hk. unfold last_n.
  rewrite (nth_indep _ 0%Q (nth 0 xs 0%Q)) by (rewrite length_map, length_seq; exact Hk).
  rewrite (map_nth (fun k => nth k xs 0%Q)), seq_nth by exact Hk. reflexivity.
Qed.

Lemma window_last_n (w i : nat) (xs : list Q) :
  w <= S i -> i < length xs -> window w i xs = last_n w i xs.
Proof.
  intros Hw Hi. apply (nth_ext _ _ 0%Q 0%Q).
  - rewrite window_length, last_n_length by assumption. reflexivity.
  - intros k Hk. rewrite window_length in Hk by assumption.
    rewrite window_nth, last_n_nth by assumption. reflexivity.
Qed.

(** ** Insertion sort *)

Section SortFacts.
Context {A : Type} (leb : A -> A -> bool).

Lemma insert_perm (x : A) (l : list A) : Permutation (x :: l) (insert leb x l).
Proof.
  induction l as [|y l IH]; simpl.
  - apply Permutation_refl.
  - destruct (leb x y).
    + apply Permutation_refl.
    + eapply perm_trans; [apply perm_swap|].
      apply perm_skip. exact IH.
Qed.

Lemma sort_perm (l : list A) : Permutation l (sort leb l).
Proof.
  induction l as [|x l IH]; simpl.
  - apply perm_nil.
  - eapply perm_trans; [apply perm_skip; exact IH|].
    apply insert_perm.
Qed.

Lemma sort_length (l : list A) : length (sort leb l) = length l.
Proof. symmetry. apply Permutation_length, sort_perm. Qed.

Lemma sort_In (x : A) (l : list A) : In x (sort leb l) <-> In x l.
Proof.
  split; intros H.
  - eapply Permutation_in; [apply Permutation_sym, sort_perm|exact H].
  - eapply Permutation_in; [apply sort_perm|exact H].
Qed.

Hypothesis leb_total : forall x y, leb x y = true \/ leb y x = true.

Lemma insert_sorted (x : A) (l : list A) :
  Sorted (fun a b => leb a b = true) l ->
  Sorted (fun a b => leb a b = true) (insert leb x l).
Proof.
  induction l as [|y l IH]; intros Hs; simpl.
  - repeat constructor.
  - destruct (leb x y) eqn:E.
    + constructor; [exact Hs|]. constructor. exact E.
    + inversion Hs as [|? ? Hs' Hhd]; subst.
      constructor; [apply IH; exact Hs'|].
      assert (Hyx : leb y x = true)
        by (destruct (leb_total x y) as [H|H]; [congruence|exact H]).
      destruct l as [|z l]; simpl.
      * constructor. exact Hyx.
      * destruct (leb x z); constructor; [exact Hyx|].
        inversion Hhd; assumption.
Qed.

Lemma sort_sorted (l : list A) : Sorted (fun a b => leb a b = true) (sort leb l).
Proof.
  induction l as [|x l IH]; simpl.
  - constructor.
  - apply insert_sorted. exact IH.
Qed.
End SortFacts.

(** ** Group-wise transform *)

Lemma find_app {B} (p : B -> bool) (l1 l2 : list B) :
  find p (l1 ++ l2) = match find p l1 with Some x => Some x | None => find p l2 end.
Proof.
  induction l1 as [|x l1 IH]; simpl; [reflexivity|].
  destruct (p x); [reflexivity|exact IH].
Qed.

Lemma find_flat_map_none {B} (p : B -> bool) (g : string -> list B) (keys : list string) :
  (forall t, In t keys -> find p (g t) = None) ->
  find p (flat_map g keys) = None.
Proof.
  induction keys as [|k keys IH]; intros H; simpl; [reflexivity|].
  rewrite find_app, (H k) by (left; reflexivity).
  apply IH. intros t Ht. apply H. right. exact Ht.
Qed.

Lemma find_flat_map {B} (p : B -> bool) (g : string -> list B)
      (keys : list string) (t : string) :
  In t keys ->
  (forall t', In t' keys -> t' <> t -> find p (g t') = None) ->
  find p (flat_map g keys) = find p (g t).
Proof.
  induction keys as [|k keys IH]; intros Hin Hother; simpl; [contradiction|].
  rewrite find_app.
  destruct (string_dec k t) as [->|Hne].
  - destruct (find p (g t)) eqn:E; [reflexivity|].
    apply find_flat_map_none. intros t' Ht'.
    destruct (string_dec t' t) as [->|Hne']; [exact E|].
    apply Hother; [right; exact Ht'|exact Hne'].
  - rewrite (Hother k) by (auto; left; reflexivity).
    destruct Hin as [Heq|Hin]; [congruence|].
    apply IH; [exact Hin|].
    intros t' Ht' Hne'. apply Hother; [right; exact Ht'|exact Hne'].
Qed.

Section Parts.
Variable P : Row -> bool.

Let Pi (p : nat * Row) : bool := P (snd p).

Lemma filter_indexed_rows (l : list Row) (s : nat) :
  map snd (filter Pi (combine (seq s (length l)) l)) = filter P l.
Proof.
  revert s. induction l as [|x l IH]; intros s; simpl; [reflexivity|].
  unfold Pi at 1; simpl. destruct (P x); simpl; rewrite IH; reflexivity.
Qed.

Lemma find_in_part (l : list Row) (s k : nat) (ys : Series) (r : Row) :
  nth_error l k = Some r -> P r = true ->
  length ys = length (filter P l) ->
  find (fun p => fst p =? s + k)
       (combine (map fst (filter Pi (combine (seq s (length l)) l))) ys)
  = Some (s + k, nth (length (filter P (firstn k l))) ys NaN).
Proof.
  revert s k ys. induction l as [|x l IH]; intros s k ys Hk HP Hlen.
  - destruct k; discriminate.
  - simpl. unfold Pi at 1; simpl.
    destruct k as [|k]; simpl in Hk.
    + injection Hk as ->. rewrite HP. simpl in Hlen. rewrite HP in Hlen.
      destruct ys as [|y ys]; [discriminate|]. simpl.
      rewrite Nat.add_0_r, Nat.eqb_refl. reflexivity.
    + destruct (P x) eqn:E; simpl.
      * simpl in Hlen. rewrite E in Hlen.
        destruct ys as [|y ys]; [discriminate|]. simpl.
        destruct (Nat.eqb_spec s (s + S k)); [lia|].
        injection Hlen as Hlen. rewrite E. simpl.
        rewrite <- Nat.add_succ_comm. apply IH; assumption.
      * simpl in Hlen. rewrite E in Hlen. rewrite E.
        rewrite <- Nat.add_succ_comm. apply IH; assumption.
Qed.

Lemma find_not_in_part (l : list Row) (s j : nat) (ys : Series) :
  (forall k r, j = s + k -> nth_error l k = Some r -> P r = false) ->
  find (fun p => fst p =? j)
       (combine (map fst (filter Pi (combine (seq s (length l)) l))) ys) = None.
Proof.
  revert s ys. induction l as [|x l IH]; intros s ys H; simpl; [reflexivity|].
  unfold Pi at 1; simpl.
  assert (Hrest : forall k r, j = S s + k -> nth_error l k = Some r -> P r = false).
  { intros k r Hj Hr. apply (H (S k)); [lia|exact Hr]. }
  destruct (P x) eqn:E; simpl.
  - destruct ys as [|y ys]; [reflexivity|]. simpl.
    destruct (Nat.eqb_spec s j) as [Heq|Hne].
    + rewrite (H 0 x) in E; [discriminate|lia|reflexivity].
    + apply IH. exact Hrest.
  - apply IH. exact Hrest.
Qed.
End Parts.

Lemma transform_nth (f : list Q -> Series) (df : list Row) (j : nat) (r : Row) :
  (forall xs, length (f xs) = length xs) ->
  nth_error df j = Some r ->
  nth j (transform f df) NaN
  = nth (group_index j df) (f (group_close (Ticker r) df)) NaN.
Proof.
  intros Hlen Hj.
  assert (Hlt : j < length df) by (apply nth_error_Some; congruence).
  unfold transform. rewrite (nth_map_seq _ _ j NaN Hlt).
  rewrite (find_flat_map _ _ _ (Ticker r)).
  - unfold indexed.
    assert (Hrows : map (fun p : nat * Row => Close (snd p))
                        (filter (fun p => in_group (Ticker r) (snd p))
                                (combine (seq 0 (length df)) df))
                    = group_close (Ticker r) df).
    { rewrite <- (map_map snd Close), filter_indexed_rows. reflexivity. }
    rewrite Hrows.
    rewrite (find_in_part (in_group (Ticker r)) df 0 j _ r Hj).
    + simpl. unfold group_index. rewrite Hj. reflexivity.
    + unfold in_group. apply String.eqb_refl.
    + rewrite Hlen. unfold group_close, get_group. apply length_map.
  - unfold group_keys. apply sort_In. apply nodup_In.
    apply in_map_iff. exists r. split; [reflexivity|].
    eapply nth_error_In; exact Hj.
  - intros t' _ Hne. unfold indexed.
    apply find_not_in_part. intros k r' Hk Hr'.
    simpl in Hk. subst k. rewrite Hj in Hr'. injection Hr' as <-.
    unfold in_group. apply String.eqb_neq. congruence.
Qed.

Lemma transform_length (f : list Q -> Series) (df : list Row) :
  length (transform f df) = length df.
Proof. unfold transform. rewrite length_map, length_seq. reflexivity. Qed.

(** The row at position [j] sits at position [group_index j df] of its group. *)
Lemma group_index_row (df : list Row) (j : nat) (r : Row) :
  nth_error df j = Some r ->
  nth_error (get_group (Ticker r) df) (group_index j df) = Some r.
Proof.
  intros Hj. unfold group_index. rewrite Hj. unfold get_group.
  revert j Hj. induction df as [|x df IH]; intros j Hj.
  - destruct j; discriminate.
  - destruct j as [|j]; simpl in *.
    + injection Hj as ->. unfold in_group at 1.
      rewrite String.eqb_refl. reflexivity.
    + destruct (in_group (Ticker r) x); simpl; apply IH; exact Hj.
Qed.

Lemma group_index_lt (df : list Row) (j : nat) (r : Row) :
  nth_error df j = Some r ->
  group_index j df < length (group_close (Ticker r) df).
Proof.
  intros Hj. unfold group_close. rewrite length_map.
  apply nth_error_Some. rewrite (group_index_row df j r Hj). discriminate.
Qed.

Lemma group_index_close (df : list Row) (j : nat) (r : Row) :
  nth_error df j = Some r ->
  nth (group_index j df) (group_close (Ticker r) df) 0%Q = Close r.
Proof.
  intros Hj. unfold group_close.
  pose proof (group_index_row df j r Hj) as H.
  apply (map_nth_error Close) in H.
  apply nth_error_nth. exact H.
Qed.

(* ===================================================================== *)
(** * Moving averages                                                    *)
(* ===================================================================== *)

Lemma rolling_mean_length (w : nat) (xs : list Q) :
  length (rolling_mean w (of_values xs)) = length xs.
Proof. unfold rolling_mean. rewrite rolling_length. apply of_values_length. Qed.

(** C3. In every ticker group SMA_10 is undefined at the rows 0..8 of the
    group and, from row 9 on, is the arithmetic mean of the ten Close values
    of the group at the indices i-9 .. i. *)
Theorem SMA_10_trailing_mean (df : list Row) (j : nat) (r : Row) :
  nth_error df j = Some r ->
  let closes := group_close (Ticker r) df in
  let i := group_index j df in
  (i < 9 -> nth j (col_SMA_10 df) NaN = NaN) /\
  (9 <= i ->
   exists m, nth j (col_SMA_10 df) NaN = Fin m /\
             (m == arith_mean (window 10 i closes))%Q /\
             length (window 10 i closes) = 10 /\
             forall k, k < 10 ->
                       nth k (window 10 i closes) 0%Q = nth (i - 9 + k) closes 0%Q).
Proof.
  intros Hj closes i.
  assert (Hi : i < length closes) by (apply group_index_lt; exact Hj).
  unfold col_SMA_10.
  rewrite (transform_nth _ df j r (rolling_mean_length 10) Hj).
  fold closes. fold i. split.
  - intros Hlt. apply rolling_prefix. lia.
  - intros Hge. unfold rolling_mean.
    rewrite rolling_of_values by (try exact Hi; lia).
    assert (Hw : length (window 10 i closes) = 10) by (apply window_length; [lia|exact Hi]).
    destruct (agg_mean_of_values (window 10 i closes)) as [m [Hm Hq]];
      [rewrite Hw; lia|].
    exists m. repeat split; try assumption.
    intros k Hk. rewrite window_nth by lia.
    reflexivity.
Qed.

Lemma SMA_10_trailing_mean_witness :
  nth_error Samples.panel 10 = Some (Samples.bar "AAA" 10 16 16 16) /\
  exists m, nth 10 (col_SMA_10 Samples.panel) NaN = Fin m /\ (m == 12.4)%Q.
Proof.
  split; [reflexivity|].
  destruct (SMA_10_trailing_mean Samples.panel 10 (Samples.bar "AAA" 10 16 16 16) eq_refl)
    as [_ H].
  destruct H as (m & Hm & Hq & _).
  - apply Nat.leb_le. reflexivity.
  - exists m. split; [exact Hm|].
    rewrite Hq. reflexivity.
Defined.

Lemma ewm_from_length (a prev : Q) (xs : list Q) :
  length (ewm_from a prev xs) = length xs.
Proof.
  revert prev. induction xs as [|x xs IH]; intros prev; simpl; [reflexivity|].
  rewrite IH. reflexivity.
Qed.

Lemma ewm_mean_length (span : nat) (xs : list Q) :
  length (ewm_mean span xs) = length xs.
Proof.
  destruct xs as [|x xs]; simpl; [reflexivity|].
  rewrite ewm_from_length. reflexivity.
Qed.

Lemma ewm_from_step (a : Q) (xs : list Q) :
  forall prev k, k < length xs ->
    nth k (ewm_from a prev xs) 0%Q
    = ((1 - a) * nth k (prev :: ewm_from a prev xs) 0 + a * nth k xs 0)%Q.
Proof.
  induction xs as [|x xs IH]; intros prev k Hk; simpl in Hk; [lia|].
  destruct k as [|k]; [reflexivity|].
  simpl ewm_from. cbv zeta.
  change (nth (S k) (?y :: ?l) 0%Q) with (nth k l 0%Q).
  rewrite IH by lia. reflexivity.
Qed.

Lemma ewm_mean_is_ema (span : nat) (a : Q) (xs : list Q) :
  (alpha span == a)%Q -> is_ema a xs (ewm_mean span xs).
Proof.
  intros Ha. split; [apply ewm_mean_length|].
  split; [destruct xs; reflexivity|].
  intros k Hk. destruct xs as [|x xs]; simpl in Hk; [lia|].
  unfold ewm_mean.
  change (nth (S k) (x :: ?l) 0%Q) with (nth k l 0%Q).
  rewrite ewm_from_step by lia.
  change (nth (S k) (x :: xs) 0%Q) with (nth k xs 0%Q).
  generalize (nth k (x :: ewm_from (alpha span) x xs) 0%Q) (nth k xs 0%Q).
  intros e c. rewrite Ha. ring.
Qed.

Lemma of_values_nth (xs : list Q) (i : nat) :
  i < length xs -> nth i (of_values xs) NaN = Fin (nth i xs 0%Q).
Proof.
  intros Hi. unfold of_values.
  rewrite (nth_indep _ NaN (Fin 0)) by (rewrite length_map; exact Hi).
  apply (map_nth Fin).
Qed.

Lemma map2_length {A B C} (f : A -> B -> C) (xs : list A) (ys : list B) :
  length xs = length ys -> length (map2 f xs ys) = length xs.
Proof.
  intros H. unfold map2. rewrite length_map, length_combine. lia.
Qed.

Lemma map2_nth {A B C} (f : A -> B -> C) (xs : list A) (ys : list B)
      (i : nat) (da : A) (db : B) (dc : C) :
  i < length xs -> i < length ys ->
  nth i (map2 f xs ys) dc = f (nth i xs da) (nth i ys db).
Proof.
  unfold map2. revert ys i.
  induction xs as [|x xs IH]; intros ys i Hx Hy; simpl in Hx; [lia|].
  destruct ys as [|y ys]; simpl in Hy; [lia|].
  destruct i as [|i]; simpl; [reflexivity|].
  apply IH; lia.
Qed.

Lemma ema_10_values_length (xs : list Q) :
  length (of_values (ewm_mean 10 xs)) = length xs.
Proof. rewrite of_values_length. apply ewm_mean_length. Qed.

Lemma col_EMA_10_nth (df : list Row) (j : nat) (r : Row) :
  nth_error df j = Some r ->
  nth j (col_EMA_10 df) NaN
  = Fin (nth (group_index j df) (ewm_mean 10 (group_close (Ticker r) df)) 0%Q).
Proof.
  intros Hj. unfold col_EMA_10.
  rewrite (transform_nth _ df j r ema_10_values_length Hj).
  apply of_values_nth. rewrite ewm_mean_length.
  apply group_index_lt. exact Hj.
Qed.

(** C4. EMA_10 is defined at every row of every group.  At the first row
    of a group it is the Close of that row; at any later row of the group it
    is alpha * Close + (1 - alpha) * (EMA_10 at the preceding row of the
    group), with alpha = 2/11.  Put together: along the rows of a group the
    column is the exponential moving average of the Close series of the
    group, whatever the length of the group. *)
Theorem EMA_10_recurrence (df : list Row) (j : nat) (r : Row) :
  nth_error df j = Some r ->
  let closes := group_close (Ticker r) df in
  exists e ema,
    nth j (col_EMA_10 df) NaN = Fin e /\
    (group_index j df = 0 -> e = Close r) /\
    (forall j' r' e',
        nth_error df j' = Some r' ->
        Ticker r' = Ticker r ->
        S (group_index j' df) = group_index j df ->
        nth j' (col_EMA_10 df) NaN = Fin e' ->
        (e == (2 # 11) * Close r + (1 - (2 # 11)) * e')%Q) /\
    is_ema (2 # 11) closes ema /\
    (forall j' r',
        nth_error df j' = Some r' ->
        Ticker r' = Ticker r ->
        group_index j' df < length closes /\
        nth (group_index j' df) closes 0%Q = Close r' /\
        nth j' (col_EMA_10 df) NaN = Fin (nth (group_index j' df) ema 0%Q)).
Proof.
  intros Hj closes.
  pose proof (ewm_mean_is_ema 10 (2 # 11) closes ltac:(reflexivity)) as Hema.
  destruct Hema as [Hlen [H0 Hstep]].
  pose proof (group_index_close df j r Hj) as Hc.
  pose proof (group_index_lt df j r Hj) as Hlt.
  fold closes in Hc, Hlt.
  exists (nth (group_index j df) (ewm_mean 10 closes) 0%Q), (ewm_mean 10 closes).
  split; [apply col_EMA_10_nth; exact Hj|]. split; [|split; [|split]].
  - intros Hz. rewrite Hz in *. rewrite H0. exact Hc.
  - intros j' r' e' Hj' Ht Hi He'.
    rewrite (col_EMA_10_nth df j' r' Hj'), Ht in He'.
    injection He' as <-. fold closes.
    rewrite <- Hi in *. rewrite Hstep by exact Hlt.
    rewrite Hc. reflexivity.
  - repeat split; assumption.
  - intros j' r' Hj' Ht. unfold closes. rewrite <- Ht.
    split; [apply group_index_lt; exact Hj'|].
    split; [apply group_index_close; exact Hj'|].
    apply col_EMA_10_nth. exact Hj'.
Qed.

Lemma EMA_10_recurrence_witness :
  nth_error Samples.panel 2 = Some (Samples.bar "AAA" 2 11 11 11) /\
  exists e, nth 2 (col_EMA_10 Samples.panel) NaN = Fin e /\
            (e == (2 # 11) * 11 + (9 # 11) * 10)%Q.
Proof.
  split; [reflexivity|].
  destruct (EMA_10_recurrence Samples.panel 2 (Samples.bar "AAA" 2 11 11 11) eq_refl)
    as (e & ema & He & _ & Hstep & _).
  exists e. split; [exact He|].
  rewrite (Hstep 0 (Samples.bar "AAA" 1 10 10 10) 10%Q);
    reflexivity.
Defined.

(* ===================================================================== *)
(** * MACD                                                               *)
(* ===================================================================== *)

(** C5. For a Close series, MACD is at every index the span-12 EMA minus
    the span-26 EMA of Close, the signal line is the span-9 EMA of the MACD
    series, and both series hold a finite value at every index. *)
Theorem MACD_is_difference_of_EMAs (closes : list Q) :
  exists ema12 ema26 macd signal : list Q,
    is_ema (2 # 13) closes ema12 /\
    is_ema (2 # 27) closes ema26 /\
    calculate_macd closes 12 26 9 = (of_values macd, of_values signal) /\
    length macd = length closes /\
    (forall i, i < length closes ->
               nth i macd 0%Q = (nth i ema12 0 - nth i ema26 0)%Q) /\
    is_ema (2 # 10) macd signal /\
    (forall i, i < length closes ->
               nth i (fst (calculate_macd closes 12 26 9)) NaN = Fin (nth i macd 0%Q) /\
               nth i (snd (calculate_macd closes 12 26 9)) NaN = Fin (nth i signal 0%Q)).
Proof.
  set (ema12 := ewm_mean 12 closes).
  set (ema26 := ewm_mean 26 closes).
  set (macd := map2 Qminus ema12 ema26).
  assert (Hlen : length macd = length closes).
  { unfold macd. rewrite map2_length; unfold ema12, ema26;
      rewrite !ewm_mean_length; reflexivity. }
  exists ema12, ema26, macd, (ewm_mean 9 macd).
  split; [apply ewm_mean_is_ema; reflexivity|].
  split; [apply ewm_mean_is_ema; reflexivity|].
  split; [reflexivity|].
  split; [exact Hlen|].
  split.
  - intros i Hi. unfold macd.
    apply map2_nth; unfold ema12, ema26; rewrite ewm_mean_length; exact Hi.
  - split; [apply ewm_mean_is_ema; reflexivity|].
    intros i Hi. unfold calculate_macd. simpl fst. simpl snd.
    fold ema12 ema26 macd.
    split; apply of_values_nth; [|rewrite ewm_mean_length]; lia.
Qed.

(* ===================================================================== *)
(** * Bollinger bands                                                    *)
(* ===================================================================== *)

Lemma Qsum_map_ext {A} (g h : A -> Q) (xs : list A) :
  (forall x, g x == h x)%Q -> (Qsum (map g xs) == Qsum (map h xs))%Q.
Proof.
  intros H. induction xs as [|x xs IH]; unfold Qsum in *; simpl; [reflexivity|].
  rewrite IH, (H x). reflexivity.
Qed.

Lemma agg_std_of_values (sqrt : Q -> Q) (xs : list Q) :
  1 < length xs ->
  exists v, agg_std sqrt (of_values xs) = Fin (sqrt v) /\
            (v == sample_variance xs)%Q.
Proof.
  intros Hn. unfold agg_std.
  destruct (agg_mean_of_values xs) as [m [Hm Hq]]; [lia|].
  rewrite Hm, of_values_length.
  assert (Hsq : map (fun x => fsq (fsub x (Fin m))) (of_values xs)
                = of_values (map (fun x => (x + - m) * (x + - m))%Q xs)).
  { unfold of_values. rewrite !map_map. reflexivity. }
  rewrite Hsq.
  destruct (fsum_of_values (map (fun x => (x + - m) * (x + - m))%Q xs)) as [s [Hs Hsum]].
  rewrite Hs. simpl.
  rewrite of_nat_nonzero by lia.
  eexists. split; [reflexivity|].
  unfold sample_variance. rewrite Hsum.
  rewrite (Qsum_map_ext _ (fun x => (x - arith_mean xs) * (x - arith_mean xs))%Q).
  - reflexivity.
  - intros x. rewrite Hq. unfold Qminus. reflexivity.
Qed.

Lemma rolling_std_length (sqrt : Q -> Q) (w : nat) (xs : list Q) :
  length (rolling_std sqrt w (of_values xs)) = length xs.
Proof. unfold rolling_std. rewrite rolling_length. apply of_values_length. Qed.

Lemma map_nth_f64 (f : f64 -> f64) (s : Series) (i : nat) :
  i < length s -> nth i (map f s) NaN = f (nth i s NaN).
Proof.
  intros Hi. rewrite (nth_indep _ NaN (f NaN)) by (rewrite length_map; exact Hi).
  apply map_nth.
Qed.

(** C8. At every row BB_Middle is SMA_10, BB_Upper is BB_Middle plus twice
    and BB_Lower is BB_Middle minus twice one and the same rolling standard
    deviation.  At the rows 0..8 of the group the middle and the deviation are
    undefined; from row 9 on the middle is the mean, and the deviation the
    square root of the sample variance (divisor 9), of the same ten values:
    the Close of the group at the positions i-9 .. i. *)
Theorem Bollinger_bands (sqrt : Q -> Q) (df : list Row) (j : nat) (r : Row) :
  nth_error df j = Some r ->
  let closes := group_close (Ticker r) df in
  let i := group_index j df in
  let last10 := last_n 10 i closes in
  nth j (col_BB_Middle df) NaN = nth j (col_SMA_10 df) NaN /\
  exists sd : f64,
    nth j (col_BB_Upper sqrt df) NaN
    = fadd (nth j (col_BB_Middle df) NaN) (fmul (Fin 2) sd) /\
    nth j (col_BB_Lower sqrt df) NaN
    = fsub (nth j (col_BB_Middle df) NaN) (fmul (Fin 2) sd) /\
    (i < 9 -> sd = NaN /\ nth j (col_BB_Middle df) NaN = NaN) /\
    (9 <= i ->
     exists m v,
       nth j (col_BB_Middle df) NaN = Fin m /\ (m == arith_mean last10)%Q /\
       sd = Fin (sqrt v) /\ (v == sample_variance last10)%Q).
Proof.
  intros Hj closes i last10.
  assert (Hlt : j < length df) by (apply nth_error_Some; congruence).
  assert (Hi : i < length closes) by (apply group_index_lt; exact Hj).
  split; [reflexivity|].
  exists (nth i (rolling_std sqrt 10 (of_values closes)) NaN).
  assert (Hsd : nth j (map (fmul (Fin 2))
                           (transform (fun x => rolling_std sqrt 10 (of_values x)) df)) NaN
                = fmul (Fin 2) (nth i (rolling_std sqrt 10 (of_values closes)) NaN)).
  { rewrite map_nth_f64 by (rewrite transform_length; exact Hlt).
    rewrite (transform_nth _ df j r (rolling_std_length sqrt 10) Hj).
    reflexivity. }
  assert (Hmid : j < length (col_BB_Middle df))
    by (unfold col_BB_Middle, col_SMA_10; rewrite transform_length; exact Hlt).
  assert (Hsdl : j < length (map (fmul (Fin 2))
                     (transform (fun x => rolling_std sqrt 10 (of_values x)) df)))
    by (rewrite length_map, transform_length; exact Hlt).
  assert (Hm : nth j (col_BB_Middle df) NaN
               = nth i (rolling_mean 10 (of_values closes)) NaN).
  { unfold col_BB_Middle, col_SMA_10.
    apply (transform_nth _ df j r (rolling_mean_length 10) Hj). }
  split; [|split; [|split]].
  - unfold col_BB_Upper.
    rewrite (map2_nth fadd _ _ j NaN NaN NaN Hmid Hsdl), Hsd. reflexivity.
  - unfold col_BB_Lower.
    rewrite (map2_nth fsub _ _ j NaN NaN NaN Hmid Hsdl), Hsd. reflexivity.
  - intros H9. rewrite Hm. unfold rolling_std, rolling_mean.
    rewrite !rolling_prefix by lia. split; reflexivity.
  - intros H9. rewrite Hm. unfold rolling_std, rolling_mean.
    rewrite !rolling_of_values by (try exact Hi; lia).
    rewrite (window_last_n 10 i closes) by (try exact Hi; lia). fold last10.
    destruct (agg_mean_of_values last10) as [m [Hmv Hmq]];
      [unfold last10; rewrite last_n_length; lia|].
    destruct (agg_std_of_values sqrt last10) as [v [Hv Hvq]];
      [unfold last10; rewrite last_n_length; lia|].
    exists m, v. repeat split; assumption.
Qed.

Lemma sqrt_q_proper (v w : Q) : (v == w)%Q -> Samples.sqrt_q v = Samples.sqrt_q w.
Proof.
  intros H. unfold Samples.sqrt_q. rewrite (Qred_complete v w H). reflexivity.
Qed.

Lemma Bollinger_bands_witness :
  nth_error MoreSamples.band_rows 14 = Some (Samples.bar "CCC" 12 10 10 10) /\
  group_index 14 MoreSamples.band_rows = 11 /\
  exists up lo,
    nth 14 (col_BB_Upper Samples.sqrt_q MoreSamples.band_rows) NaN = Fin up /\
    nth 14 (col_BB_Lower Samples.sqrt_q MoreSamples.band_rows) NaN = Fin lo /\
    (up == 14)%Q /\ (lo == 6)%Q.
Proof.
  split; [reflexivity|]. split; [reflexivity|].
  destruct (Bollinger_bands Samples.sqrt_q MoreSamples.band_rows 14
                            (Samples.bar "CCC" 12 10 10 10) eq_refl)
    as (_ & sd & Hup & Hlo & _ & Hsd).
  destruct Hsd as (m & v & Hm & Hmq & Hv & Hvq); [apply Nat.leb_le; reflexivity|].
  rewrite Hup, Hlo, Hm, Hv, (sqrt_q_proper _ _ Hvq).
  eexists. eexists.
  split; [reflexivity|]. split; [reflexivity|].
  split; rewrite Hmq; vm_compute; reflexivity.
Defined.

(* ===================================================================== *)
(** * RSI                                                                *)
(* ===================================================================== *)

Lemma deltas_length (dt : dtype) (c : list Q) : length (deltas dt c) = length c.
Proof. unfold deltas. rewrite length_map, length_seq. reflexivity. Qed.

Lemma deltas_nth (dt : dtype) (c : list Q) (k : nat) :
  k < length c -> nth k (deltas dt c) None = change dt c k.
Proof. intros Hk. unfold deltas. apply nth_map_seq. exact Hk. Qed.

(** ** int64 *)

Lemma wrap_int64_into (z : Z) : wrap_int64 z = into_int64 z.
Proof.
  unfold wrap_int64, into_int64. cbv zeta.
  pose proof (Z.mod_pos_bound z (2 ^ 64) ltac:(reflexivity)) as Hu.
  pose proof (Z.div_mod z (2 ^ 64) ltac:(discriminate)) as Hz.
  set (u := (z mod 2 ^ 64)%Z) in *. set (q := (z / 2 ^ 64)%Z) in *.
  change (2 ^ 64)%Z with 18446744073709551616%Z in *.
  change (2 ^ 63)%Z with 9223372036854775808%Z in *.
  destruct (Z.ltb_spec u 9223372036854775808) as [Hlt|Hge].
  - assert (H : ((z + 9223372036854775808) mod 18446744073709551616
                 = u + 9223372036854775808)%Z).
    { symmetry. apply (Z.mod_unique_pos _ _ q); lia. }
    rewrite H. lia.
  - assert (H : ((z + 9223372036854775808) mod 18446744073709551616
                 = u - 9223372036854775808)%Z).
    { symmetry. apply (Z.mod_unique_pos _ _ (q + 1)); lia. }
    rewrite H. lia.
Qed.

Lemma sub_as_difference (dt : dtype) (cur prev : Q) :
  sub_as dt cur prev = difference dt cur prev.
Proof. destruct dt; simpl; [rewrite wrap_int64_into|]; reflexivity. Qed.

(** A difference that fits int64 comes out as it is. *)
Lemma into_int64_fits (z : Z) :
  (- 2 ^ 63 <= z < 2 ^ 63)%Z -> into_int64 z = z.
Proof.
  intros H. unfold into_int64.
  change (2 ^ 64)%Z with 18446744073709551616%Z in *.
  change (2 ^ 63)%Z with 9223372036854775808%Z in *.
  rewrite Z.mod_small by lia. lia.
Qed.

Lemma difference_exact (dt : dtype) (a b : Z) :
  dt = float64 \/ (- 2 ^ 63 <= a - b < 2 ^ 63)%Z ->
  (difference dt (inject_Z a) (inject_Z b) == inject_Z a - inject_Z b)%Q.
Proof.
  intros H. destruct dt; [|reflexivity].
  destruct H as [H|H]; [discriminate H|].
  unfold difference. rewrite !Qfloor_Z, (into_int64_fits _ H).
  unfold Zminus. rewrite inject_Z_plus, inject_Z_opp. reflexivity.
Qed.

(** ** The series of [calculate_rsi] *)

(** Lengths of the series built from a Close series. *)
Ltac series_length :=
  unfold rolling_mean, rolling_min, rolling_max;
  rewrite ?rolling_length, ?of_values_length, ?length_map, ?deltas_length;
  try reflexivity; try lia.

Lemma diff_deltas (dt : dtype) (c : list Q) :
  diff dt c = map (fun d => match d with Some x => Fin x | None => NaN end) (deltas dt c).
Proof.
  apply (nth_ext _ _ NaN NaN).
  - rewrite length_map, deltas_length. destruct c as [|x c]; simpl; [reflexivity|].
    unfold map2. rewrite length_map, length_combine. cbn [length]. lia.
  - intros k Hk.
    assert (Hkc : k < length c).
    { destruct c as [|x c]; simpl in Hk; [lia|].
      unfold map2 in Hk. rewrite length_map, length_combine in Hk. cbn [length] in *. lia. }
    unfold deltas. rewrite map_map, (nth_map_seq _ (length c) k NaN Hkc).
    destruct c as [|x c]; [simpl in Hkc; lia|].
    destruct k as [|k]; [reflexivity|].
    unfold diff. change (nth (S k) (NaN :: ?l) NaN) with (nth k l NaN).
    rewrite (map2_nth _ (x :: c) c k 0%Q 0%Q NaN) by (simpl in *; lia).
    rewrite sub_as_difference. reflexivity.
Qed.

Lemma rsi_gain_series (dt : dtype) (c : list Q) :
  where_ fgt0 (Fin 0) (diff dt c) = of_values (map where_gain (deltas dt c)).
Proof.
  rewrite diff_deltas. unfold where_, of_values. rewrite !map_map.
  apply map_ext. intros [x|]; simpl; [|reflexivity].
  destruct (Qlt_bool 0 x); reflexivity.
Qed.

Lemma rsi_loss_series (dt : dtype) (c : list Q) :
  map fneg (where_ flt0 (Fin 0) (diff dt c)) = of_values (map where_loss (deltas dt c)).
Proof.
  rewrite diff_deltas. unfold where_, of_values. rewrite !map_map.
  apply map_ext. intros [x|]; simpl; [|reflexivity].
  destruct (Qlt_bool x 0); reflexivity.
Qed.

Lemma where_gain_eq (d : option Q) : (where_gain d == gain d)%Q.
Proof.
  destruct d as [x|]; simpl; [|reflexivity].
  destruct (Qlt_bool 0 x) eqn:E.
  - apply Qlt_bool_iff in E. symmetry. apply Q.max_l. apply Qlt_le_weak. exact E.
  - apply Qlt_bool_false_iff in E. symmetry. apply Q.max_r. exact E.
Qed.

Lemma where_loss_eq (d : option Q) : (where_loss d == loss d)%Q.
Proof.
  destruct d as [x|]; simpl; [|reflexivity].
  destruct (Qlt_bool x 0) eqn:E.
  - apply Qlt_bool_iff in E. symmetry. apply Q.max_l. lra.
  - apply Qlt_bool_false_iff in E. rewrite Q.max_r by lra. reflexivity.
Qed.

Lemma window_map {A B} (f : A -> B) (w i : nat) (xs : list A) :
  window w i (map f xs) = map f (window w i xs).
Proof. unfold window. rewrite skipn_map, firstn_map. reflexivity. Qed.

Lemma Qsum_map_ext_in {A} (g h : A -> Q) (xs : list A) :
  (forall x, In x xs -> g x == h x)%Q -> (Qsum (map g xs) == Qsum (map h xs))%Q.
Proof.
  induction xs as [|x xs IH]; intros H; [reflexivity|].
  assert (E1 : (g x == h x)%Q) by (apply H; left; reflexivity).
  assert (E2 : (Qsum (map g xs) == Qsum (map h xs))%Q)
    by (apply IH; intros y Hy; apply H; right; exact Hy).
  unfold Qsum in *. simpl. rewrite E1, E2. reflexivity.
Qed.

Lemma arith_mean_map_ext_in {A} (g h : A -> Q) (xs : list A) :
  (forall x, In x xs -> g x == h x)%Q ->
  (arith_mean (map g xs) == arith_mean (map h xs))%Q.
Proof.
  intros H. unfold arith_mean. rewrite !length_map, (Qsum_map_ext_in g h xs H).
  reflexivity.
Qed.

Lemma Qsum_nonneg (xs : list Q) : Forall (fun x => 0 <= x)%Q xs -> (0 <= Qsum xs)%Q.
Proof.
  induction 1 as [|x xs Hx _ IH]; unfold Qsum in *; simpl; [apply Qle_refl|].
  lra.
Qed.

Lemma arith_mean_nonneg (xs : list Q) :
  Forall (fun x => 0 <= x)%Q xs -> (0 <= arith_mean xs)%Q.
Proof.
  intros H. unfold arith_mean.
  destruct xs as [|x xs].
  - unfold Qsum, of_nat. simpl. unfold Qdiv. rewrite Qmult_0_l. apply Qle_refl.
  - apply Qle_shift_div_l; [apply of_nat_pos; simpl; lia|].
    rewrite Qmult_0_l. apply Qsum_nonneg. exact H.
Qed.

Lemma In_window {A} (w i : nat) (xs : list A) (x : A) :
  In x (window w i xs) -> In x xs.
Proof.
  unfold window. intros H.
  rewrite <- (firstn_skipn (S i - w) xs). apply in_or_app. right.
  rewrite <- (firstn_skipn w (skipn (S i - w) xs)). apply in_or_app. left.
  exact H.
Qed.

Lemma avg_gain_nonneg (dt : dtype) (c : list Q) (i : nat) : (0 <= avg_gain dt c i)%Q.
Proof.
  apply arith_mean_nonneg, Forall_map, Forall_forall.
  intros k _. destruct (change dt c k); simpl; [apply Q.le_max_r|apply Qle_refl].
Qed.

Lemma avg_loss_nonneg (dt : dtype) (c : list Q) (i : nat) : (0 <= avg_loss dt c i)%Q.
Proof.
  apply arith_mean_nonneg, Forall_map, Forall_forall.
  intros k _. destruct (change dt c k); simpl; [apply Q.le_max_r|apply Qle_refl].
Qed.

(** The window of fourteen values of a series made from the changes. *)
Lemma window_of_changes (f : option Q -> Q) (dt : dtype) (c : list Q) (i : nat) :
  13 <= i -> i < length c ->
  window 14 i (map f (deltas dt c)) = map (fun k => f (change dt c k)) (seq (i - 13) 14).
Proof.
  intros H13 Hi.
  rewrite window_last_n by (rewrite ?length_map, ?deltas_length; lia).
  unfold last_n. replace (S i - 14) with (i - 13) by lia.
  apply map_ext_in. intros k Hk. apply in_seq in Hk.
  rewrite (nth_indep _ 0%Q (f None)) by (rewrite length_map, deltas_length; lia).
  rewrite (map_nth f), deltas_nth by lia. reflexivity.
Qed.

(** The two rolling averages of [calculate_rsi] at position [i]. *)
Lemma rsi_averages (dt : dtype) (c : list Q) (i : nat) :
  13 <= i -> i < length c ->
  exists g l,
    nth i (rolling_mean 14 (where_ fgt0 (Fin 0) (diff dt c))) NaN = Fin g /\
    nth i (rolling_mean 14 (map fneg (where_ flt0 (Fin 0) (diff dt c)))) NaN = Fin l /\
    (g == avg_gain dt c i)%Q /\ (l == avg_loss dt c i)%Q.
Proof.
  intros H13 Hi.
  rewrite rsi_gain_series, rsi_loss_series. unfold rolling_mean.
  rewrite !rolling_of_values by series_length.
  rewrite !window_of_changes by assumption.
  destruct (agg_mean_of_values (map (fun k => where_gain (change dt c k)) (seq (i - 13) 14)))
    as [g [Hg Hgq]]; [rewrite length_map, length_seq; lia|].
  destruct (agg_mean_of_values (map (fun k => where_loss (change dt c k)) (seq (i - 13) 14)))
    as [l [Hl Hlq]]; [rewrite length_map, length_seq; lia|].
  exists g, l. repeat split; try assumption.
  - rewrite Hgq. apply arith_mean_map_ext_in. intros k _. apply where_gain_eq.
  - rewrite Hlq. apply arith_mean_map_ext_in. intros k _. apply where_loss_eq.
Qed.

Lemma calculate_rsi_length (dt : dtype) (c : list Q) :
  length (calculate_rsi dt c 14) = length c.
Proof.
  unfold calculate_rsi. rewrite length_map, map2_length;
    rewrite ?rsi_gain_series, ?rsi_loss_series; series_length.
Qed.

Lemma calculate_rsi_nth (dt : dtype) (c : list Q) (i : nat) :
  i < length c ->
  nth i (calculate_rsi dt c 14) NaN
  = rsi_of (nth i (rolling_mean 14 (where_ fgt0 (Fin 0) (diff dt c))) NaN)
           (nth i (rolling_mean 14 (map fneg (where_ flt0 (Fin 0) (diff dt c)))) NaN).
Proof.
  intros Hi. unfold calculate_rsi.
  assert (Hg : length (rolling_mean 14 (where_ fgt0 (Fin 0) (diff dt c))) = length c)
    by (rewrite rsi_gain_series; series_length).
  assert (Hl : length (rolling_mean 14 (map fneg (where_ flt0 (Fin 0) (diff dt c))))
               = length c)
    by (rewrite rsi_loss_series; series_length).
  rewrite map_nth_f64 by (rewrite map2_length; lia).
  rewrite (map2_nth fdiv _ _ i NaN NaN NaN) by lia.
  reflexivity.
Qed.

Lemma rsi_bounds (g l : Q) :
  (0 <= g)%Q -> (0 < l)%Q ->
  (0 < 1 + g / l)%Q /\
  (0 <= 100 - 100 / (1 + g / l))%Q /\ (100 - 100 / (1 + g / l) <= 100)%Q.
Proof.
  intros Hg Hl.
  assert (Ht : (0 <= g / l)%Q).
  { apply Qle_shift_div_l; [exact Hl|]. rewrite Qmult_0_l. exact Hg. }
  set (t := (g / l)%Q) in *.
  assert (Hu : (0 < 1 + t)%Q) by lra.
  assert (H1 : (0 <= 100 / (1 + t))%Q).
  { apply Qle_shift_div_l; [exact Hu|]. lra. }
  assert (H2 : (100 / (1 + t) <= 100)%Q).
  { apply Qle_shift_div_r; [exact Hu|]. lra. }
  set (u := (100 / (1 + t))%Q) in *.
  repeat split; lra.
Qed.

Lemma rsi_of_fin (g l : Q) :
  (0 <= g)%Q -> (0 <= l)%Q ->
  ((l == 0)%Q -> (0 < g)%Q -> rsi_of (Fin g) (Fin l) = Fin 100) /\
  ((l == 0)%Q -> (g == 0)%Q -> rsi_of (Fin g) (Fin l) = NaN) /\
  ((0 < l)%Q ->
   exists q, rsi_of (Fin g) (Fin l) = Fin q /\
             (q == 100 - 100 / (1 + g / l))%Q /\ (0 <= q)%Q /\ (q <= 100)%Q).
Proof.
  intros Hg Hl. unfold rsi_of. split; [|split].
  - intros Hz Hpos. unfold fdiv at 2.
    rewrite (proj2 (Qeq_bool_iff l 0) Hz). simpl sign.
    rewrite (proj1 (Qgt_alt g 0) Hpos). reflexivity.
  - intros Hz Hgz. unfold fdiv at 2.
    rewrite (proj2 (Qeq_bool_iff l 0) Hz). simpl sign.
    rewrite (proj1 (Qeq_alt g 0) Hgz). reflexivity.
  - intros Hpos.
    destruct (rsi_bounds g l Hg Hpos) as (Hu & Hlo & Hhi).
    assert (El : Qeq_bool l 0 = false).
    { destruct (Qeq_bool l 0) eqn:E; [|reflexivity].
      apply Qeq_bool_iff in E. lra. }
    assert (Eu : Qeq_bool (1 + g / l) 0 = false).
    { destruct (Qeq_bool (1 + g / l) 0) eqn:E; [|reflexivity].
      apply Qeq_bool_iff in E. lra. }
    unfold fdiv at 2. rewrite El. unfold fadd at 1. unfold fdiv. rewrite Eu.
    eexists. split; [reflexivity|]. unfold Qminus in *.
    split; [reflexivity|]. split; assumption.
Qed.

(** The value of [calculate_rsi] at a position of the series, from the two
    averages. *)
Lemma calculate_rsi_values (dt : dtype) (c : list Q) (i : nat) :
  i < length c ->
  let G := avg_gain dt c i in
  let L := avg_loss dt c i in
  let v := nth i (calculate_rsi dt c 14) NaN in
  (i < 13 -> v = NaN) /\
  (13 <= i ->
   ((L == 0)%Q -> (0 < G)%Q -> v = Fin 100) /\
   ((L == 0)%Q -> (G == 0)%Q -> v = NaN) /\
   ((0 < L)%Q ->
    exists q, v = Fin q /\ (q == 100 - 100 / (1 + G / L))%Q /\
              (0 <= q)%Q /\ (q <= 100)%Q)) /\
  v <> PInf /\ v <> NInf.
Proof.
  intros Hi G L v.
  assert (HG : (0 <= G)%Q) by apply avg_gain_nonneg.
  assert (HL : (0 <= L)%Q) by apply avg_loss_nonneg.
  unfold v. rewrite calculate_rsi_nth by exact Hi.
  destruct (Nat.lt_ge_cases i 13) as [Hlt|Hge].
  - assert (Hnan : rsi_of (nth i (rolling_mean 14 (where_ fgt0 (Fin 0) (diff dt c))) NaN)
                          (nth i (rolling_mean 14
                                    (map fneg (where_ flt0 (Fin 0) (diff dt c)))) NaN)
                   = NaN).
    { unfold rolling_mean. rewrite !rolling_prefix by lia. reflexivity. }
    rewrite Hnan.
    repeat split; try assumption; try discriminate; try lia.
  - destruct (rsi_averages dt c i Hge Hi) as (g & l & Hg & Hl & Hgq & Hlq).
    rewrite Hg, Hl. fold G in Hgq. fold L in Hlq.
    assert (Hg0 : (0 <= g)%Q) by (rewrite Hgq; exact HG).
    assert (Hl0 : (0 <= l)%Q) by (rewrite Hlq; exact HL).
    destruct (rsi_of_fin g l Hg0 Hl0) as (H100 & Hflat & Hmid).
    split; [lia|]. split; [intros _; split; [|split]|].
    + intros Hz Hpos. apply H100; rewrite ?Hlq, ?Hgq; assumption.
    + intros Hz Hgz. apply Hflat; rewrite ?Hlq, ?Hgq; assumption.
    + intros Hpos. destruct Hmid as (q & Hq & Hqe & Hq0 & Hq1);
        [rewrite Hlq; exact Hpos|].
      exists q. repeat split; try assumption.
      rewrite Hqe, Hgq, Hlq. reflexivity.
    + destruct (Qlt_le_dec 0 l) as [Hpos|Hnp].
      * destruct (Hmid Hpos) as (q & Hq & _). rewrite Hq. split; discriminate.
      * assert (Hz : (l == 0)%Q) by lra.
        destruct (Qlt_le_dec 0 g) as [Hgp|Hgn].
        -- rewrite (H100 Hz Hgp). split; discriminate.
        -- assert (Hgz : (g == 0)%Q) by lra.
           rewrite (Hflat Hz Hgz). split; discriminate.
Qed.

(** C6, as the code has it.  RSI_14 is undefined at the rows 0..12 of a
    group: the missing first change counts as a gain and a loss of 0, so the
    14-period averages exist from row 13 on.  With G and L the means of the
    gains and of the losses of the fourteen changes of Close at the positions
    i-13 .. i of the group (a change being the difference to the Close before,
    taken in int64 when the column is int64), RSI_14 is from row 13 on exactly
    100 when L is 0 and G is positive, undefined when both are 0, and
    otherwise the value 100 - 100 / (1 + G / L), which lies in [0, 100].  No
    infinity ever appears in the column. *)
Theorem RSI_14_values (dt : dtype) (df : list Row) (j : nat) (r : Row) :
  nth_error df j = Some r ->
  let closes := group_close (Ticker r) df in
  let i := group_index j df in
  let G := avg_gain dt closes i in
  let L := avg_loss dt closes i in
  let v := nth j (col_RSI_14 dt df) NaN in
  (i < 13 -> v = NaN) /\
  (13 <= i ->
   ((L == 0)%Q -> (0 < G)%Q -> v = Fin 100) /\
   ((L == 0)%Q -> (G == 0)%Q -> v = NaN) /\
   ((0 < L)%Q ->
    exists q, v = Fin q /\ (q == 100 - 100 / (1 + G / L))%Q /\
              (0 <= q)%Q /\ (q <= 100)%Q)) /\
  (0 <= G)%Q /\ (0 <= L)%Q /\
  v <> PInf /\ v <> NInf.
Proof.
  intros Hj closes i G L v.
  assert (Hi : i < length closes) by (apply group_index_lt; exact Hj).
  assert (Hv : v = nth i (calculate_rsi dt closes 14) NaN).
  { unfold v, col_RSI_14.
    apply (transform_nth _ df j r (calculate_rsi_length dt) Hj). }
  rewrite Hv.
  destruct (calculate_rsi_values dt closes i Hi) as (Hpre & Hval & Hinf).
  split; [exact Hpre|]. split; [exact Hval|].
  split; [apply avg_gain_nonneg|]. split; [apply avg_loss_nonneg|exact Hinf].
Qed.

Lemma RSI_14_values_witness :
  nth_error MoreSamples.fall_then_rise 19 = Some (Samples.bar "DDD" 17 15 15 15) /\
  group_index 19 MoreSamples.fall_then_rise = 16 /\
  nth 19 (col_RSI_14 float64 MoreSamples.fall_then_rise) NaN = Fin 100.
Proof.
  split; [reflexivity|]. split; [reflexivity|].
  destruct (RSI_14_values float64 MoreSamples.fall_then_rise 19
                          (Samples.bar "DDD" 17 15 15 15) eq_refl)
    as (_ & H & _).
  destruct H as (H100 & _); [apply Nat.leb_le; reflexivity|].
  apply H100; vm_compute; reflexivity.
Defined.

(** C6 as stated would leave RSI_14 undefined at the first fourteen rows of
    a group; on fourteen rising closes the fourteenth row (index 13) holds
    100. *)
Lemma RSI_14_fourteenth_row_defined :
  ~ (forall j r, nth_error Samples.rising j = Some r ->
                 group_index j Samples.rising < 14 ->
                 nth j (col_RSI_14 float64 Samples.rising) NaN = NaN) /\
  ~ (forall j r, nth_error Samples.rising j = Some r ->
                 group_index j Samples.rising < 14 ->
                 nth j (col_RSI_14 int64 Samples.rising) NaN = NaN).
Proof.
  assert (Hlt : group_index 13 Samples.rising < 14) by (apply Nat.ltb_lt; reflexivity).
  split; intros H;
    specialize (H 13 (Samples.bar "DDD" 14 14 14 14) eq_refl Hlt);
    vm_compute in H; discriminate H.
Qed.

(** On an int64 column a rise that does not fit int64 comes out of
    [Series.diff] as a fall: after the rise of 10^19 the float64 column has
    RSI 100, the int64 column RSI 0. *)
Example calculate_rsi_int64_wraps :
  change int64 MoreSamples.huge_rise 1 = Some (- 8446744073709551616)%Q /\
  nth 13 (calculate_rsi float64 MoreSamples.huge_rise 14) NaN = Fin 100 /\
  exists q, nth 13 (calculate_rsi int64 MoreSamples.huge_rise 14) NaN = Fin q /\ (q == 0)%Q.
Proof.
  split; [vm_compute; reflexivity|]. split; [vm_compute; reflexivity|].
  eexists. split; vm_compute; reflexivity.
Qed.

(* ===================================================================== *)
(** * Stochastic oscillator                                              *)
(* ===================================================================== *)

Lemma fmin_fin (a b : Q) : fmin (Fin a) (Fin b) = Fin (Qmin a b).
Proof.
  unfold fmin, fle, Qmin, GenericMinMax.gmin.
  destruct (Qle_bool a b) eqn:E; destruct (a ?= b)%Q eqn:C; try reflexivity.
  - apply Qle_bool_iff in E. apply Qgt_alt in C. lra.
  - apply Qeq_alt in C. rewrite <- not_true_iff_false, Qle_bool_iff in E. lra.
  - apply Qlt_alt in C. rewrite <- not_true_iff_false, Qle_bool_iff in E. lra.
Qed.

Lemma fmax_fin (a b : Q) : fmax (Fin a) (Fin b) = Fin (Qmax a b).
Proof.
  unfold fmax, fle, Qmax, GenericMinMax.gmax.
  destruct (Qle_bool b a) eqn:E; destruct (a ?= b)%Q eqn:C; try reflexivity.
  - apply Qle_bool_iff in E. apply Qlt_alt in C. lra.
  - apply Qeq_alt in C. rewrite <- not_true_iff_false, Qle_bool_iff in E. lra.
  - apply Qgt_alt in C. rewrite <- not_true_iff_false, Qle_bool_iff in E. lra.
Qed.

Lemma agg_min_of_values (xs : list Q) :
  0 < length xs -> agg_min (of_values xs) = Fin (lowest xs).
Proof.
  destruct xs as [|x xs]; simpl; [lia|]. intros _.
  revert x. induction xs as [|y xs IH]; intros x; simpl; [reflexivity|].
  rewrite fmin_fin. apply IH.
Qed.

Lemma agg_max_of_values (xs : list Q) :
  0 < length xs -> agg_max (of_values xs) = Fin (highest xs).
Proof.
  destruct xs as [|x xs]; simpl; [lia|]. intros _.
  revert x. induction xs as [|y xs IH]; intros x; simpl; [reflexivity|].
  rewrite fmax_fin. apply IH.
Qed.

Lemma fold_min_le (xs : list Q) (a : Q) :
  (fold_left Qmin xs a <= a)%Q /\
  forall y, In y xs -> (fold_left Qmin xs a <= y)%Q.
Proof.
  revert a. induction xs as [|x xs IH]; intros a; simpl.
  - split; [apply Qle_refl|contradiction].
  - destruct (IH (Qmin a x)) as [H1 H2]. split.
    + eapply Qle_trans; [exact H1|apply Q.le_min_l].
    + intros y [<-|Hy]; [|apply H2; exact Hy].
      eapply Qle_trans; [exact H1|apply Q.le_min_r].
Qed.

Lemma fold_max_ge (xs : list Q) (a : Q) :
  (a <= fold_left Qmax xs a)%Q /\
  forall y, In y xs -> (y <= fold_left Qmax xs a)%Q.
Proof.
  revert a. induction xs as [|x xs IH]; intros a; simpl.
  - split; [apply Qle_refl|contradiction].
  - destruct (IH (Qmax a x)) as [H1 H2]. split.
    + eapply Qle_trans; [apply Q.le_max_l|exact H1].
    + intros y [<-|Hy]; [|apply H2; exact Hy].
      eapply Qle_trans; [apply Q.le_max_r|exact H1].
Qed.

Lemma lowest_le (xs : list Q) (y : Q) : In y xs -> (lowest xs <= y)%Q.
Proof.
  destruct xs as [|x xs]; simpl; [contradiction|].
  intros [<-|Hy];
    [apply (proj1 (fold_min_le xs x))|apply (proj2 (fold_min_le xs x)); exact Hy].
Qed.

Lemma highest_ge (xs : list Q) (y : Q) : In y xs -> (y <= highest xs)%Q.
Proof.
  destruct xs as [|x xs]; simpl; [contradiction|].
  intros [<-|Hy];
    [apply (proj1 (fold_max_ge xs x))|apply (proj2 (fold_max_ge xs x)); exact Hy].
Qed.

(** The row a window ends at belongs to the window. *)
Lemma window_last {A} (w i : nat) (xs : list A) (x : A) :
  0 < w -> w <= S i -> nth_error xs i = Some x -> In x (window w i xs).
Proof.
  intros Hw Hwi Hx.
  assert (Hi : i < length xs) by (apply nth_error_Some; congruence).
  assert (Hn : nth (w - 1) (window w i xs) x = x).
  { rewrite window_nth by lia.
    replace (S i - w + (w - 1)) with i by lia.
    apply nth_error_nth. exact Hx. }
  rewrite <- Hn. apply nth_In. rewrite window_length; lia.
Qed.

Lemma stochastic_K_nth (g : list Row) (i : nat) (r : Row) :
  nth_error g i = Some r ->
  nth i (fst (calculate_stochastic_oscillator g 14 3)) NaN
  = fdiv (fmul (Fin 100)
               (fsub (Fin (Close r))
                     (nth i (rolling_min 14 (of_values (map Low g))) NaN)))
         (fsub (nth i (rolling_max 14 (of_values (map High g))) NaN)
               (nth i (rolling_min 14 (of_values (map Low g))) NaN)).
Proof.
  intros Hr.
  assert (Hi : i < length g) by (apply nth_error_Some; congruence).
  unfold calculate_stochastic_oscillator. simpl fst.
  set (lo := rolling_min 14 (of_values (map Low g))).
  set (hi := rolling_max 14 (of_values (map High g))).
  assert (Hlo : length lo = length g) by (unfold lo; series_length).
  assert (Hhi : length hi = length g) by (unfold hi; series_length).
  assert (Hcl : length (of_values (map Close g)) = length g) by series_length.
  rewrite (map2_nth fdiv _ _ i NaN NaN NaN)
    by (rewrite ?length_map, map2_length; lia).
  rewrite map_nth_f64 by (rewrite map2_length; lia).
  rewrite !(map2_nth fsub _ _ i NaN NaN NaN) by lia.
  rewrite of_values_nth by (rewrite length_map; exact Hi).
  rewrite (nth_error_nth _ _ _ (map_nth_error Close i g Hr)).
  reflexivity.
Qed.

Lemma last_n_last (n i : nat) (xs : list Q) (x : Q) :
  0 < n -> n <= S i -> nth_error xs i = Some x -> In x (last_n n i xs).
Proof.
  intros Hn Hi Hx. unfold last_n. apply in_map_iff. exists i.
  split; [apply nth_error_nth; exact Hx|]. apply in_seq. lia.
Qed.

(** C7, as the code has it.  %K is undefined at the rows 0..12 of a group.
    From row 13 on, with lo the least Low and hi the greatest High of the
    fourteen rows at the positions i-13 .. i: when hi differs from lo, %K is
    the value 100 * (Close - lo) / (hi - lo), which is not negative whenever
    the row has Low <= Close <= High; when hi equals lo, %K is the quotient by
    zero, that is, undefined when Close equals lo (so for every row with
    Low <= Close <= High), plus infinity when Close is above lo and minus
    infinity when it is below. *)
Theorem stochastic_K_values (g : list Row) (i : nat) (r : Row) :
  nth_error g i = Some r ->
  let K := nth i (fst (calculate_stochastic_oscillator g 14 3)) NaN in
  let lo := lowest (last_n 14 i (map Low g)) in
  let hi := highest (last_n 14 i (map High g)) in
  (i < 13 -> K = NaN) /\
  (13 <= i ->
   (~ (hi == lo)%Q ->
    exists v, K = Fin v /\
              (v == 100 * (Close r - lo) / (hi - lo))%Q /\
              ((Low r <= Close r)%Q -> (Close r <= High r)%Q -> (0 <= v)%Q)) /\
   ((hi == lo)%Q ->
    ((Close r == lo)%Q -> K = NaN) /\
    ((lo < Close r)%Q -> K = PInf) /\
    ((Close r < lo)%Q -> K = NInf) /\
    ((Low r <= Close r)%Q -> (Close r <= High r)%Q -> K = NaN))).
Proof.
  intros Hr K lo hi.
  assert (Hi : i < length g) by (apply nth_error_Some; congruence).
  unfold K. rewrite (stochastic_K_nth g i r Hr). split.
  - intros Hlt. unfold rolling_min, rolling_max.
    rewrite !rolling_prefix by lia. reflexivity.
  - intros Hge. unfold rolling_min, rolling_max.
    rewrite !rolling_of_values by (rewrite ?length_map; lia).
    rewrite agg_min_of_values, agg_max_of_values
      by (rewrite window_length; rewrite ?length_map; lia).
    rewrite !window_last_n by (rewrite ?length_map; lia). fold lo. fold hi.
    assert (Hlo : (lo <= Low r)%Q).
    { apply lowest_le, last_n_last; [lia|lia|].
      apply (map_nth_error Low). exact Hr. }
    assert (Hhi : (High r <= hi)%Q).
    { apply highest_ge, last_n_last; [lia|lia|].
      apply (map_nth_error High). exact Hr. }
    unfold fsub, fneg, fadd, fmul, fdiv. split.
    + intros Hne.
      assert (E : Qeq_bool (hi + - lo) 0 = false).
      { destruct (Qeq_bool (hi + - lo) 0) eqn:E; [|reflexivity].
        apply Qeq_bool_iff in E. exfalso. apply Hne. lra. }
      rewrite E. eexists. split; [reflexivity|]. split; [reflexivity|].
      intros H1 H2.
      assert (Hpos : (0 < hi + - lo)%Q).
      { destruct (Qlt_le_dec 0 (hi + - lo)) as [Hp|Hn]; [exact Hp|].
        exfalso. apply Hne. lra. }
      apply Qle_shift_div_l; [exact Hpos|]. lra.
    + intros Heq.
      assert (E : Qeq_bool (hi + - lo) 0 = true) by (apply Qeq_bool_iff; lra).
      rewrite E. simpl sign.
      assert (Hz : (Close r == lo)%Q -> inf_of_sign (100 * (Close r + - lo) ?= 0)%Q = NaN).
      { intros H. rewrite (proj1 (Qeq_alt _ 0)) by lra. reflexivity. }
      split; [exact Hz|]. split; [|split].
      * intros H. rewrite (proj1 (Qgt_alt _ 0)) by lra. reflexivity.
      * intros H. rewrite (proj1 (Qlt_alt _ 0)) by lra. reflexivity.
      * intros H1 H2. apply Hz. lra.
Qed.

Lemma stochastic_K_values_witness :
  nth_error MoreSamples.wide_then_mid 15 = Some (Samples.bar "EEE" 16 12 10 11) /\
  exists v,
    nth 15 (fst (calculate_stochastic_oscillator MoreSamples.wide_then_mid 14 3)) NaN = Fin v /\
    (v == 50)%Q /\ (0 <= v)%Q.
Proof.
  split; [reflexivity|].
  destruct (stochastic_K_values MoreSamples.wide_then_mid 15
                                (Samples.bar "EEE" 16 12 10 11) eq_refl)
    as (_ & H).
  destruct H as (H & _); [apply Nat.leb_le; reflexivity|].
  destruct H as (v & Hv & Hq & Hb); [intros E; vm_compute in E; discriminate E|].
  exists v. split; [exact Hv|]. split; [rewrite Hq; vm_compute; reflexivity|].
  apply Hb; intros E; vm_compute in E; discriminate E.
Defined.

(** C7 as stated would keep %K within [0, 100] wherever the window has a
    range.  On fourteen bars with low 93.73 and high and close 108.33, all of
    them with Low <= Close <= High, line 91 multiplies the rounded difference
    by 100 before it divides, and float64 gives 100.00000000000001. *)
Lemma stochastic_K_above_100 :
  length Float64.lows = 14 /\ length Float64.highs = 14 /\
  (forall k, k < 14 ->
     PrimFloat.ltb (nth k Float64.lows PrimFloat.nan)
                   (nth k Float64.highs PrimFloat.nan) = true) /\
  let K := nth 13 (Float64.k_percent Float64.lows Float64.highs Float64.highs 14)
               PrimFloat.nan in
  PrimFloat.ltb Float64.hundred K = true /\
  PrimFloat.eqb K Float64.next_above_hundred = true.
Proof.
  split; [reflexivity|]. split; [reflexivity|]. split.
  - intros k Hk.
    do 14 (destruct k as [|k]; [vm_compute; reflexivity|]). lia.
  - vm_compute. split; reflexivity.
Qed.

(** The code does not check the bars either.  With the close above the
    high, a window without range gives plus infinity, and a window with a
    range of 2 gives 150. *)
Example stochastic_K_unchecked_bars :
  nth 13 (fst (calculate_stochastic_oscillator Samples.flat_range 14 3)) NaN = PInf /\
  exists v,
    nth 13 (fst (calculate_stochastic_oscillator Samples.close_above_high 14 3)) NaN = Fin v /\
    (v == 150)%Q.
Proof.
  split; [vm_compute; reflexivity|].
  eexists. split; vm_compute; reflexivity.
Qed.

(* ===================================================================== *)
(** * preprocess_data as a whole                                         *)
(* ===================================================================== *)

Lemma row_leb_total (r1 r2 : Row) : row_leb r1 r2 = true \/ row_leb r2 r1 = true.
Proof.
  unfold row_leb. rewrite (String.compare_antisym (Ticker r1) (Ticker r2)).
  destruct (String.compare (Ticker r2) (Ticker r1)); simpl; auto.
  destruct (Z.leb_spec (Date r1) (Date r2)); [left; reflexivity|].
  right. apply Z.leb_le. lia.
Qed.

Lemma sort_values_sorted (df : list Row) : Sorted row_le (sort_values df).
Proof. apply (sort_sorted row_leb row_leb_total). Qed.

Lemma sort_values_perm (df : list Row) : Permutation df (sort_values df).
Proof. apply sort_perm. Qed.

Lemma convert_dates_keys (to_datetime : Z -> option Z) (raw : list RawRow) (df : list Row) :
  convert_dates to_datetime raw = inr df ->
  map Ticker df = map raw_Ticker raw /\
  map (fun r => Some (Date r)) df = map (fun r => to_datetime (DTYYYYMMDD r)) raw.
Proof.
  revert df. induction raw as [|r raw IH]; intros df H; simpl in H.
  - injection H as <-. split; reflexivity.
  - unfold convert_date in H.
    destruct (to_datetime (DTYYYYMMDD r)) as [d|] eqn:E; simpl in H; [|discriminate].
    destruct (convert_dates to_datetime raw) as [e|tl] eqn:Etl; simpl in H; [discriminate|].
    injection H as <-. destruct (IH tl eq_refl) as [H1 H2].
    simpl. rewrite H1, H2, E. split; reflexivity.
Qed.

Lemma assemble_rows (df : list Row) (c1 c2 c3 c4 c5 c6 c7 : Series)
      (m sg k d : list Series) :
  map row (assemble df c1 c2 c3 c4 c5 c6 c7 m sg k d) = df.
Proof.
  unfold assemble. rewrite map_map. simpl.
  apply (nth_ext _ _ (mkRow EmptyString 0 0 0 0 0 0) (mkRow EmptyString 0 0 0 0 0 0)).
  - rewrite length_map, length_seq. reflexivity.
  - intros n Hn. rewrite length_map, length_seq in Hn.
    apply (nth_map_seq (fun j => nth j df (mkRow EmptyString 0 0 0 0 0 0))). exact Hn.
Qed.

Lemma apply_length {B} (f : list Row -> B) (df : list Row) :
  length (apply f df) = length (group_keys df).
Proof. unfold apply. apply length_map. Qed.

Lemma unpack2_zip_star {B} (s : list (string * (B * B))) :
  unpack2 (zip_star s)
  = match s with
    | [] => inl ValueError
    | _ => inr (map (fun p => fst (snd p)) s, map (fun p => snd (snd p)) s)
    end.
Proof. destruct s; reflexivity. Qed.

(** The tuple assignment of the MACD columns succeeds on a frame exactly
    when the frame has as many groups as rows. *)
Lemma preprocess_data_raises (sqrt : Q -> Q) (to_datetime : Z -> option Z)
      (dt : dtype) (raw : list RawRow) (df : list Row) :
  convert_dates to_datetime raw = inr df ->
  length (group_keys (sort_values df)) <> length df ->
  preprocess_data sqrt to_datetime dt raw = inl ValueError.
Proof.
  intros Hc Hne. unfold preprocess_data. rewrite Hc. simpl.
  rewrite unpack2_zip_star.
  destruct (apply _ (sort_values df)) as [|p s] eqn:E; [reflexivity|].
  assert (HS : length (map (fun q : string * (Series * Series) => fst (snd q)) (p :: s))
               <> length (sort_values df)).
  { rewrite length_map, <- E, apply_length.
    unfold sort_values at 2. rewrite sort_length. exact Hne. }
  simpl. unfold set_column at 1.
  match goal with
  | |- context [?a =? ?b] => destruct (Nat.eqb_spec a b) as [Heq|Hneq]
  end; [exfalso; apply HS; exact Heq|reflexivity].
Qed.

(** Whenever a table is returned, its rows are the input rows in
    (Ticker, Date) order. *)
Lemma preprocess_data_rows (sqrt : Q -> Q) (to_datetime : Z -> option Z)
      (dt : dtype) (raw : list RawRow) (out : list FeatureRow) :
  preprocess_data sqrt to_datetime dt raw = inr out ->
  exists df, convert_dates to_datetime raw = inr df /\
             map row out = sort_values df /\
             length out = length raw /\
             Sorted row_le (map row out) /\
             Permutation df (map row out).
Proof.
  unfold preprocess_data. intros H.
  destruct (convert_dates to_datetime raw) as [e|df] eqn:Hc; simpl in H; [discriminate|].
  exists df. split; [reflexivity|].
  repeat match type of H with
         | context [unpack2 ?x] =>
             destruct (unpack2 x) as [?|[? ?]]; simpl in H; [discriminate|]
         | context [set_column ?a ?b] =>
             destruct (set_column a b) as [?|?]; simpl in H; [discriminate|]
         end.
  injection H as <-.
  rewrite assemble_rows.
  split; [reflexivity|]. split; [|split].
  - unfold assemble. rewrite length_map, length_seq.
    unfold sort_values. rewrite sort_length.
    destruct (convert_dates_keys to_datetime raw df Hc) as [Hk _].
    apply (f_equal (@length _)) in Hk.
    rewrite !length_map in Hk. exact Hk.
  - apply sort_values_sorted.
  - apply sort_values_perm.
Qed.

Lemma map_nth_seq_self (c : Series) :
  map (fun j => nth j c NaN) (seq 0 (length c)) = c.
Proof.
  apply (nth_ext _ _ NaN NaN).
  - rewrite length_map, length_seq. reflexivity.
  - intros n Hn. rewrite length_map, length_seq in Hn.
    apply (nth_map_seq (fun j => nth j c NaN)). exact Hn.
Qed.

(** The numeric columns of a returned table are the columns computed on the
    sorted frame. *)
Lemma preprocess_data_columns (sqrt : Q -> Q) (to_datetime : Z -> option Z)
      (dt : dtype) (raw : list RawRow) (out : list FeatureRow) :
  preprocess_data sqrt to_datetime dt raw = inr out ->
  exists df, convert_dates to_datetime raw = inr df /\
             map SMA_10 out = col_SMA_10 (sort_values df) /\
             map EMA_10 out = col_EMA_10 (sort_values df) /\
             map BB_Middle out = col_BB_Middle (sort_values df) /\
             map RSI_14 out = col_RSI_14 dt (sort_values df).
Proof.
  unfold preprocess_data. intros H.
  destruct (convert_dates to_datetime raw) as [e|df] eqn:Hc; simpl in H; [discriminate|].
  exists df. split; [reflexivity|].
  repeat match type of H with
         | context [unpack2 ?x] =>
             destruct (unpack2 x) as [?|[? ?]]; simpl in H; [discriminate|]
         | context [set_column ?a ?b] =>
             destruct (set_column a b) as [?|?]; simpl in H; [discriminate|]
         end.
  injection H as <-. unfold assemble. rewrite !map_map. simpl.
  assert (Hlen : forall f, length (sort_values df) = length (transform f (sort_values df)))
    by (intros f; rewrite transform_length; reflexivity).
  unfold col_BB_Middle, col_SMA_10, col_EMA_10, col_RSI_14.
  repeat split.
  - rewrite (Hlen (fun x => rolling_mean 10 (of_values x))) at 1. apply map_nth_seq_self.
  - rewrite (Hlen (fun x => of_values (ewm_mean 10 x))) at 1. apply map_nth_seq_self.
  - rewrite (Hlen (fun x => rolling_mean 10 (of_values x))) at 1. apply map_nth_seq_self.
  - rewrite (Hlen (fun x => calculate_rsi dt x 14)) at 1. apply map_nth_seq_self.
Qed.

Lemma preprocess_data_returns (sqrt : Q -> Q) (to_datetime : Z -> option Z)
      (dt : dtype) (raw : list RawRow) (df : list Row) :
  convert_dates to_datetime raw = inr df ->
  df <> [] ->
  length (group_keys (sort_values df)) = length df ->
  exists out, preprocess_data sqrt to_datetime dt raw = inr out.
Proof.
  intros Hc Hne Hlen. unfold preprocess_data. rewrite Hc. simpl.
  assert (Hs : length (sort_values df) = length df)
    by (unfold sort_values; apply sort_length).
  remember (sort_values df) as sdf eqn:Esdf.
  assert (Hap : forall B (f : list Row -> B * B),
             exists p s, apply f sdf = p :: s /\ S (length s) = length sdf).
  { intros B f. destruct (apply f sdf) as [|p s] eqn:E.
    - apply (f_equal (@length _)) in E. rewrite apply_length, Hlen in E.
      destruct df; [contradiction|discriminate].
    - exists p, s. split; [reflexivity|].
      apply (f_equal (@length _)) in E. rewrite apply_length, Hlen, <- Hs in E.
      simpl in E. symmetry. exact E. }
  rewrite !unpack2_zip_star.
  destruct (Hap _ (fun x => calculate_macd (map Close x) 12 26 9)) as (p & s & -> & L1).
  destruct (Hap _ (fun group => calculate_stochastic_oscillator group 14 3))
    as (p' & s' & -> & L2).
  unfold set_column. simpl. rewrite !length_map.
  rewrite <- L1 in L2 |- *. injection L2 as L2.
  rewrite L2, !Nat.eqb_refl. simpl. eexists. reflexivity.
Qed.

(** C1 (defect).  The MACD and Signal_Line columns are assigned from
    [zip] over the per-group results, that is, by position: each column
    receives one Series per group.  For a ticker with two rows the tuple has
    one member while the frame has two rows, the assignment raises, and no
    row is given any MACD value. *)
Theorem MACD_tuple_assignment_raises :
  exists df macd signal_line,
    convert_dates Samples.parse_yyyymmdd Samples.two_days = inr df /\
    unpack2 (zip_star (apply (fun x => calculate_macd (map Close x) 12 26 9)
                             (sort_values df)))
    = inr (macd, signal_line) /\
    length macd = 1 /\
    length (sort_values df) = 2 /\
    set_column (sort_values df) macd = inl ValueError /\
    forall sqrt dt,
      preprocess_data sqrt Samples.parse_yyyymmdd dt Samples.two_days = inl ValueError.
Proof.
  eexists. eexists. eexists.
  split; [vm_compute; reflexivity|].
  split; [vm_compute; reflexivity|].
  split; [reflexivity|]. split; [reflexivity|]. split; [reflexivity|].
  intros sqrt dt.
  apply (preprocess_data_raises sqrt Samples.parse_yyyymmdd dt Samples.two_days
                                _ ltac:(vm_compute; reflexivity)).
  vm_compute. discriminate.
Qed.

(** C2 (defect).  On a panel in which a ticker has two rows
    [preprocess_data] raises instead of returning the three rows in
    (Ticker, Date) order. *)
Theorem preprocess_data_returns_no_table :
  forall sqrt dt,
    preprocess_data sqrt Samples.parse_yyyymmdd dt Samples.three_rows = inl ValueError.
Proof.
  intros sqrt dt.
  apply (preprocess_data_raises sqrt Samples.parse_yyyymmdd dt Samples.three_rows
                                _ ltac:(vm_compute; reflexivity)).
  vm_compute. discriminate.
Qed.

(** With one row per ticker the function returns, and the MACD cell of a
    row then holds a whole Series. *)
Example preprocess_data_one_day_each :
  exists out, preprocess_data Samples.sqrt_q Samples.parse_yyyymmdd float64 Samples.one_day_each
              = inr out /\
              map (fun r => Ticker (row r)) out = ["AAA"; "BBB"] /\
              map MACD out = [[Fin 0]; [Fin 0]].
Proof.
  eexists. split; [vm_compute; reflexivity|]. split; reflexivity.
Qed.

(* ===================================================================== *)
(** * Frames                                                             *)
(* ===================================================================== *)

#[local] Arguments issubset : simpl never.
#[local] Arguments empty : simpl never.
#[local] Arguments usable : simpl never.

Lemma filter_all {A} (P : A -> bool) (l : list A) :
  (forall x, In x l -> P x = true) -> filter P l = l.
Proof.
  induction l as [|x l IH]; intros H; simpl; [reflexivity|].
  rewrite (H x (or_introl eq_refl)), IH; [reflexivity|].
  intros y Hy. apply H. right. exact Hy.
Qed.

Lemma filter_none {A} (P : A -> bool) (l : list A) :
  (forall x, In x l -> P x = false) -> filter P l = [].
Proof.
  induction l as [|x l IH]; intros H; simpl; [reflexivity|].
  rewrite (H x (or_introl eq_refl)). apply IH. intros y Hy. apply H. right. exact Hy.
Qed.

Lemma mem_true_iff (c : string) (cols : list string) : mem c cols = true <-> In c cols.
Proof.
  unfold mem. rewrite existsb_exists. split.
  - intros [x [Hx He]]. apply String.eqb_eq in He. subst. exact Hx.
  - intros H. exists c. split; [exact H|apply String.eqb_refl].
Qed.

Lemma mem_false_iff (c : string) (cols : list string) : mem c cols = false <-> ~ In c cols.
Proof.
  rewrite <- mem_true_iff. destruct (mem c cols); split; congruence.
Qed.

Lemma issubset_true_iff (cs cols : list string) :
  issubset cs cols = true <-> forall c, In c cs -> In c cols.
Proof.
  unfold issubset. rewrite forallb_forall.
  split; intros H c Hc; apply mem_true_iff; apply H; exact Hc.
Qed.

Lemma issubset_false_iff (cs cols : list string) :
  issubset cs cols = false <-> exists c, In c cs /\ ~ In c cols.
Proof.
  unfold issubset. split.
  - intros H. induction cs as [|c cs IH]; [discriminate H|].
    simpl in H. destruct (mem c cols) eqn:E.
    + destruct (IH H) as (c' & Hc' & Hn). exists c'. split; [right; exact Hc'|exact Hn].
    + exists c. split; [left; reflexivity|]. apply mem_false_iff. exact E.
  - intros (c & Hc & Hn). apply not_true_is_false. intros H.
    rewrite forallb_forall in H. apply Hn, mem_true_iff, H. exact Hc.
Qed.

Lemma is_unique_iff (cols : list string) : is_unique cols = true <-> NoDup cols.
Proof.
  induction cols as [|c cols IH]; simpl.
  - split; [constructor|reflexivity].
  - rewrite andb_true_iff, negb_true_iff, mem_false_iff, IH. split.
    + intros [H1 H2]. constructor; assumption.
    + intros H. inversion H; subst. split; assumption.
Qed.

Lemma labels_eqb_iff (a b : list string) : labels_eqb a b = true <-> a = b.
Proof.
  revert b. induction a as [|x a IH]; intros [|y b]; simpl;
    try (split; [discriminate|discriminate]); [split; reflexivity|].
  rewrite andb_true_iff, String.eqb_eq, IH. split.
  - intros [-> ->]. reflexivity.
  - intros H. injection H as -> ->. split; reflexivity.
Qed.

Lemma index_of_In (c : string) (cols : list string) :
  In c cols -> exists k, index_of c cols = Some k /\ nth_error cols k = Some c.
Proof.
  induction cols as [|c' cols IH]; intros H; [contradiction|].
  simpl. destruct (String.eqb c c') eqn:E.
  - apply String.eqb_eq in E. subst c'. exists 0. split; reflexivity.
  - destruct H as [H|H]; [subst c'; rewrite String.eqb_refl in E; discriminate E|].
    destruct (IH H) as (k & Hk & Hn). exists (S k). rewrite Hk. split; [reflexivity|exact Hn].
Qed.

(** The cells under a label are the cells at the positions of the label. *)
Lemma cells_under_In (cols : list string) (row : list cell) (c : string) (x : cell) :
  In x (cells_under cols row c) <->
  exists k, nth_error cols k = Some c /\ x = nth k row Null.
Proof.
  revert row. induction cols as [|c' cols IH]; intros row.
  - simpl. split; [contradiction|]. intros (k & Hk & _). destruct k; discriminate Hk.
  - assert (Htl : forall k, nth (S k) row Null = nth k (List.tl row) Null).
    { intros k. destruct row as [|y row]; [destruct k; reflexivity|reflexivity]. }
    assert (Hhd : hd Null row = nth 0 row Null) by (destruct row; reflexivity).
    cbn [cells_under]. destruct (String.eqb c c') eqn:E.
    + apply String.eqb_eq in E. subst c'. cbn [In]. rewrite IH. split.
      * intros [H|(k & Hk & Hx)].
        -- exists 0. split; [reflexivity|]. rewrite <- Hhd. symmetry. exact H.
        -- exists (S k). split; [exact Hk|]. rewrite Htl. exact Hx.
      * intros ([|k] & Hk & Hx).
        -- left. rewrite Hhd. symmetry. exact Hx.
        -- right. exists k. split; [exact Hk|]. rewrite <- Htl. exact Hx.
    + rewrite IH. split.
      * intros (k & Hk & Hx). exists (S k). split; [exact Hk|]. rewrite Htl. exact Hx.
      * intros ([|k] & Hk & Hx).
        -- simpl in Hk. injection Hk as ->. rewrite String.eqb_refl in E. discriminate E.
        -- exists k. split; [exact Hk|]. rewrite <- Htl. exact Hx.
Qed.

Lemma get_cell_cells_under (cols : list string) (row : list cell) (c : string) :
  In c cols -> In (get_cell cols row c) (cells_under cols row c).
Proof.
  intros H. destruct (index_of_In c cols H) as (k & Hk & Hn).
  unfold get_cell. rewrite Hk. apply cells_under_In. exists k. split; [exact Hn|reflexivity].
Qed.

(** ** Repeated labels *)

Lemma occurrences_cons (c c' : string) (cols : list string) :
  occurrences c (c' :: cols)
  = (if String.eqb c c' then 1 else 0) + occurrences c cols.
Proof. unfold occurrences. simpl. destruct (String.eqb c c'); reflexivity. Qed.

Lemma occurrences_pos (c : string) (cols : list string) :
  0 < occurrences c cols <-> In c cols.
Proof.
  induction cols as [|c' cols IH]; [simpl; split; [unfold occurrences; simpl; lia|tauto]|].
  rewrite occurrences_cons. simpl In. destruct (String.eqb_spec c c') as [->|Hne].
  - split; [auto|lia].
  - rewrite <- IH. split; [intros H; right; lia|intros [H|H]; [congruence|lia]].
Qed.

Lemma repeated_cons (c c' : string) (cols : list string) :
  repeated c (c' :: cols) <-> (c' = c /\ In c cols) \/ repeated c cols.
Proof.
  split.
  - intros (k1 & k2 & Hlt & H1 & H2).
    destruct k2 as [|k2]; [lia|]. simpl in H2.
    destruct k1 as [|k1]; simpl in H1.
    + injection H1 as ->. left. split; [reflexivity|]. apply (nth_error_In _ _ H2).
    + right. exists k1, k2. split; [lia|]. split; assumption.
  - intros [[-> Hin]|(k1 & k2 & Hlt & H1 & H2)].
    + destruct (In_nth_error _ _ Hin) as [k Hk].
      exists 0, (S k). split; [lia|]. split; [reflexivity|exact Hk].
    + exists (S k1), (S k2). split; [lia|]. split; assumption.
Qed.

Lemma repeated_iff (c : string) (cols : list string) :
  repeated c cols <-> 1 < occurrences c cols.
Proof.
  induction cols as [|c' cols IH].
  - split; [intros (k1 & k2 & _ & H & _); destruct k1; discriminate H|].
    unfold occurrences. simpl. lia.
  - rewrite repeated_cons, occurrences_cons, IH.
    pose proof (occurrences_pos c cols) as Hp.
    destruct (String.eqb_spec c c') as [->|Hne].
    + split; [intros [[_ H]|H]; [apply Hp in H|]; lia|].
      intros H. left. split; [reflexivity|]. apply Hp. lia.
    + split; [intros [[H _]|H]; [congruence|lia]|]. intros H. right. lia.
Qed.

Lemma repeated_dec (c : string) (cols : list string) :
  (1 <? occurrences c cols) = true <-> repeated c cols.
Proof. rewrite Nat.ltb_lt. symmetry. apply repeated_iff. Qed.

Lemma NoDup_not_repeated (c : string) (cols : list string) :
  NoDup cols -> ~ repeated c cols.
Proof.
  intros Hnd (k1 & k2 & Hlt & H1 & H2).
  assert (Hk2 : k2 < length cols) by (apply nth_error_Some; congruence).
  pose proof (proj1 (NoDup_nth_error cols) Hnd k1 k2 ltac:(lia) ltac:(congruence)).
  lia.
Qed.

(** ** The columns of a concatenation *)

#[local] Abbreviation add_columns :=
  (fun (acc : list string) (f : DataFrame) =>
     acc ++ filter (fun c => negb (mem c acc)) (columns f)).

Lemma union_columns_from (frames : list DataFrame) (acc : list string) (c : string) :
  In c acc \/ (exists f, In f frames /\ In c (columns f)) ->
  In c (fold_left add_columns frames acc).
Proof.
  revert acc. induction frames as [|f0 frames IH]; intros acc H; simpl.
  - destruct H as [H|(f & [] & _)]. exact H.
  - apply IH. destruct H as [H|(f & [<-|Hf] & Hc)].
    + left. apply in_or_app. left. exact H.
    + left. apply in_or_app.
      destruct (mem c acc) eqn:E; [left; apply mem_true_iff; exact E|].
      right. apply filter_In. split; [exact Hc|]. rewrite E. reflexivity.
    + right. exists f. split; assumption.
Qed.

Lemma union_columns_In (frames : list DataFrame) (f : DataFrame) (c : string) :
  In f frames -> In c (columns f) -> In c (union_columns frames).
Proof.
  intros Hf Hc. unfold union_columns. apply union_columns_from.
  right. exists f. split; assumption.
Qed.

Lemma add_columns_split (frames : list DataFrame) (acc : list string) :
  exists new, fold_left add_columns frames acc = acc ++ new /\
              forall c, In c new -> mem c acc = false.
Proof.
  revert acc. induction frames as [|f frames IH]; intros acc; simpl.
  - exists []. split; [symmetry; apply app_nil_r|intros c []].
  - destruct (IH (acc ++ filter (fun c => negb (mem c acc)) (columns f)))
      as (new & Hnew & Hfresh).
    exists (filter (fun c => negb (mem c acc)) (columns f) ++ new).
    split; [rewrite Hnew, app_assoc; reflexivity|].
    intros c Hc. apply in_app_or in Hc. destruct Hc as [Hc|Hc].
    + apply filter_In in Hc. destruct Hc as [_ Hc].
      destruct (mem c acc); [discriminate Hc|reflexivity].
    + specialize (Hfresh c Hc).
      destruct (mem c acc) eqn:E; [|reflexivity].
      apply mem_true_iff in E.
      assert (Hin : mem c (acc ++ filter (fun c => negb (mem c acc)) (columns f)) = true)
        by (apply mem_true_iff, in_or_app; left; exact E).
      rewrite Hin in Hfresh. discriminate Hfresh.
Qed.

Lemma add_columns_fixed (frames : list DataFrame) (acc : list string) :
  (forall f c, In f frames -> In c (columns f) -> In c acc) ->
  fold_left add_columns frames acc = acc.
Proof.
  induction frames as [|f frames IH]; intros H; simpl; [reflexivity|].
  rewrite filter_none, app_nil_r.
  - apply IH. intros f' c Hf Hc. apply (H f' c); [right; exact Hf|exact Hc].
  - intros c Hc. apply (H f c (or_introl eq_refl)) in Hc.
    apply mem_true_iff in Hc. rewrite Hc. reflexivity.
Qed.

Lemma add_columns_inv (frames : list DataFrame) (acc : list string) (c : string) :
  In c (fold_left add_columns frames acc) ->
  In c acc \/ exists f, In f frames /\ In c (columns f).
Proof.
  revert acc. induction frames as [|f frames IH]; intros acc H; simpl in H.
  - left. exact H.
  - destruct (IH _ H) as [Hc|(f' & Hf & Hc)].
    + apply in_app_or in Hc. destruct Hc as [Hc|Hc]; [left; exact Hc|].
      apply filter_In in Hc. right. exists f. split; [left; reflexivity|apply Hc].
    + right. exists f'. split; [right; exact Hf|exact Hc].
Qed.

Lemma add_columns_NoDup (frames : list DataFrame) (acc : list string) :
  NoDup acc -> (forall f, In f frames -> NoDup (columns f)) ->
  NoDup (fold_left add_columns frames acc).
Proof.
  revert acc. induction frames as [|f frames IH]; intros acc Hacc H; simpl; [exact Hacc|].
  apply IH; [|intros g Hg; apply H; right; exact Hg].
  apply NoDup_app; [exact Hacc|apply NoDup_filter, H; left; reflexivity|].
  intros c Hc Hf. apply filter_In in Hf. destruct Hf as [_ Hf].
  apply mem_true_iff in Hc. rewrite Hc in Hf. discriminate Hf.
Qed.

Lemma union_columns_NoDup (frames : list DataFrame) :
  (forall f, In f frames -> NoDup (columns f)) -> NoDup (union_columns frames).
Proof. apply add_columns_NoDup. constructor. Qed.

(** Frames that carry the same labels add nothing to them. *)
Lemma union_columns_same (frames : list DataFrame) (cols : list string) :
  frames <> [] -> (forall g, In g frames -> columns g = cols) ->
  union_columns frames = cols.
Proof.
  intros Hne H. destruct frames as [|f rest]; [contradiction|].
  unfold union_columns. cbn [fold_left app].
  rewrite (H f (or_introl eq_refl)), filter_all by reflexivity.
  apply add_columns_fixed. intros g c Hg Hc.
  rewrite (H g (or_intror Hg)) in Hc. exact Hc.
Qed.

(** A frame that already has every column adds none, wherever it stands. *)
Lemma union_columns_with_output (F1 FM F2 : list DataFrame) (out : DataFrame) :
  columns out = union_columns (F1 ++ FM ++ F2) ->
  union_columns (F1 ++ out :: F2) = columns out.
Proof.
  unfold union_columns. rewrite !fold_left_app. cbn [fold_left].
  set (U1 := fold_left add_columns F1 []).
  rewrite <- fold_left_app.
  destruct (add_columns_split (FM ++ F2) U1) as (new & Hnew & Hfresh).
  intros Hout.
  assert (Hstep : U1 ++ filter (fun c => negb (mem c U1)) (columns out) = columns out).
  { rewrite Hout, Hnew, filter_app, filter_none, filter_all; [reflexivity| |].
    - intros c Hc. rewrite (Hfresh c Hc). reflexivity.
    - intros c Hc. apply mem_true_iff in Hc. rewrite Hc. reflexivity. }
  rewrite Hstep. apply add_columns_fixed.
  intros f c Hf Hc. rewrite Hout. apply union_columns_from.
  right. exists f. split; [apply in_or_app; right; exact Hf|exact Hc].
Qed.

(** ** concat *)

Lemma flat_map_rows_length {A} (g : A -> list (list cell)) (l : list A) :
  length (flat_map g l) = list_sum (map (fun x => length (g x)) l).
Proof.
  induction l as [|x l IH]; simpl; [reflexivity|].
  rewrite length_app, IH. reflexivity.
Qed.

Lemma fit_length (n : nat) (row : list cell) : length (fit n row) = n.
Proof. unfold fit. rewrite length_map, length_seq. reflexivity. Qed.

Lemma fit_fit (n : nat) (row : list cell) : fit n (fit n row) = fit n row.
Proof.
  unfold fit at 1. apply map_ext_in. intros k Hk. apply in_seq in Hk.
  unfold fit. apply (nth_map_seq (fun k0 => nth k0 row Null) n k Null). lia.
Qed.

Lemma get_cell_relayout (g : string -> cell) (cols : list string) (c : string) :
  In c cols -> get_cell cols (map g cols) c = g c.
Proof.
  intros H. destruct (index_of_In c cols H) as (k & Hk & Hn).
  unfold get_cell. rewrite Hk. apply nth_error_nth.
  apply map_nth_error. exact Hn.
Qed.

Lemma relayout_fixed (g : string -> cell) (cols : list string) :
  map (get_cell cols (map g cols)) cols = map g cols.
Proof. apply map_ext_in. intros c Hc. apply get_cell_relayout. exact Hc. Qed.

(** Frames without repeated labels: the rows of each laid out under the
    union of the columns. *)
Lemma concat_unique (frames : list DataFrame) :
  frames <> [] ->
  (forall g, In g frames -> NoDup (columns g)) ->
  concat frames
  = inr {| columns := union_columns frames;
           rows := flat_map (fun f => map (fun row => map (get_cell (columns f) row)
                                                         (union_columns frames))
                                          (rows f)) frames |}.
Proof.
  intros Hne H. destruct frames as [|f rest]; [contradiction|].
  assert (E : forallb (fun g => is_unique (columns g)) (f :: rest) = true).
  { apply forallb_forall. intros g Hg. apply is_unique_iff, H. exact Hg. }
  unfold concat. rewrite E. reflexivity.
Qed.

(** Frames that all carry the same labels, some label repeated: the rows as
    they are. *)
Lemma concat_same (frames : list DataFrame) (cols : list string) :
  frames <> [] ->
  (forall g, In g frames -> columns g = cols) ->
  ~ NoDup cols ->
  concat frames
  = inr {| columns := cols;
           rows := flat_map (fun g => map (fit (length cols)) (rows g)) frames |}.
Proof.
  intros Hne H Hdup. destruct frames as [|f rest]; [contradiction|].
  assert (Hf : columns f = cols) by (apply H; left; reflexivity).
  assert (E1 : forallb (fun g => is_unique (columns g)) (f :: rest) = false).
  { apply not_true_is_false. intros E. rewrite forallb_forall in E.
    specialize (E f (or_introl eq_refl)). apply is_unique_iff in E.
    rewrite Hf in E. contradiction. }
  assert (E2 : forallb (fun g => labels_eqb (columns g) (columns f)) (f :: rest) = true).
  { apply forallb_forall. intros g Hg. apply labels_eqb_iff.
    rewrite Hf. apply H. exact Hg. }
  unfold concat. rewrite E1, E2, Hf. reflexivity.
Qed.

(** The frames that [concat] stacks, and the two ways it does so. *)
Lemma concat_inv (frames : list DataFrame) (out : DataFrame) :
  concat frames = inr out ->
  frames <> [] /\
  ((forall g, In g frames -> NoDup (columns g)) \/
   (exists cols, ~ NoDup cols /\ forall g, In g frames -> columns g = cols)).
Proof.
  intros H. destruct frames as [|f rest]; [discriminate H|].
  split; [discriminate|]. unfold concat in H.
  destruct (forallb (fun g => is_unique (columns g)) (f :: rest)) eqn:E1.
  - left. intros g Hg. apply is_unique_iff.
    apply (proj1 (forallb_forall _ _) E1). exact Hg.
  - destruct (forallb (fun g => labels_eqb (columns g) (columns f)) (f :: rest)) eqn:E2;
      [|discriminate H].
    right. exists (columns f). split.
    + intros Hnd. apply not_true_iff_false in E1. apply E1.
      apply forallb_forall. intros g Hg. apply is_unique_iff.
      rewrite (proj1 (labels_eqb_iff _ _) (proj1 (forallb_forall _ _) E2 g Hg)).
      exact Hnd.
    + intros g Hg. apply labels_eqb_iff. apply (proj1 (forallb_forall _ _) E2). exact Hg.
Qed.

Lemma concat_stackable (frames : list DataFrame) :
  frames <> [] ->
  (stackable frames -> exists out, concat frames = inr out) /\
  (~ stackable frames -> concat frames = inl InvalidIndexError).
Proof.
  intros Hne. destruct frames as [|f rest]; [contradiction|]. unfold concat.
  destruct (forallb (fun g => is_unique (columns g)) (f :: rest)) eqn:E1.
  - split; [intros _; eexists; reflexivity|].
    intros Hn. exfalso. apply Hn. left. intros g Hg. apply is_unique_iff.
    apply (proj1 (forallb_forall _ _) E1). exact Hg.
  - destruct (forallb (fun g => labels_eqb (columns g) (columns f)) (f :: rest)) eqn:E2.
    + split; [intros _; eexists; reflexivity|].
      intros Hn. exfalso. apply Hn. right. intros g h Hg Hh.
      rewrite (proj1 (labels_eqb_iff _ _) (proj1 (forallb_forall _ _) E2 g Hg)).
      rewrite (proj1 (labels_eqb_iff _ _) (proj1 (forallb_forall _ _) E2 h Hh)).
      reflexivity.
    + split; [|reflexivity]. intros [Hu|Hs]; exfalso.
      * apply not_true_iff_false in E1. apply E1. apply forallb_forall.
        intros g Hg. apply is_unique_iff, Hu. exact Hg.
      * apply not_true_iff_false in E2. apply E2. apply forallb_forall.
        intros g Hg. apply labels_eqb_iff. apply Hs; [exact Hg|left; reflexivity].
Qed.

(** What [concat] returns: all rows, each with one cell per column. *)
Lemma concat_result (frames : list DataFrame) (out : DataFrame) :
  concat frames = inr out ->
  columns out = union_columns frames /\
  length (rows out) = total_rows frames /\
  (forall r, In r (rows out) -> length r = length (columns out)).
Proof.
  intros H. destruct (concat_inv frames out H) as [Hne [Hu|(cols & Hdup & Hs)]].
  - rewrite (concat_unique frames Hne Hu) in H. injection H as <-.
    cbn [columns rows]. split; [reflexivity|]. split.
    + rewrite flat_map_rows_length. unfold total_rows. f_equal.
      apply map_ext. intros x. apply length_map.
    + intros r Hr. apply in_flat_map in Hr. destruct Hr as (x & _ & Hr).
      apply in_map_iff in Hr. destruct Hr as (row & <- & _). apply length_map.
  - rewrite (concat_same frames cols Hne Hs Hdup) in H. injection H as <-.
    cbn [columns rows]. split; [symmetry; apply union_columns_same; assumption|]. split.
    + rewrite flat_map_rows_length. unfold total_rows. f_equal.
      apply map_ext. intros x. apply length_map.
    + intros r Hr. apply in_flat_map in Hr. destruct Hr as (x & _ & Hr).
      apply in_map_iff in Hr. destruct Hr as (row & <- & _). apply fit_length.
Qed.

(** The table made from the rows of a concatenation, put among the frames
    it was made from in the place of any of them, takes its own rows again. *)
Lemma concat_with_output (F1 FM F2 : list DataFrame) (raw out : DataFrame) :
  concat (F1 ++ FM ++ F2) = inr raw ->
  columns out = columns raw ->
  (forall r, In r (rows out) -> In r (rows raw)) ->
  exists R1 RM R2,
    rows raw = R1 ++ RM ++ R2 /\
    concat (F1 ++ out :: F2)
    = inr {| columns := columns raw; rows := R1 ++ rows out ++ R2 |}.
Proof.
  intros H Hcols Hrows.
  assert (Hne' : F1 ++ out :: F2 <> [])
    by (intros E; apply app_eq_nil in E; destruct E; discriminate).
  destruct (concat_inv _ raw H) as [Hne [Hu|(cols & Hdup & Hs)]].
  - rewrite (concat_unique _ Hne Hu) in H. injection H as <-.
    cbn [columns rows] in *.
    set (U := union_columns (F1 ++ FM ++ F2)) in *.
    set (lay := fun f : DataFrame => map (fun row => map (get_cell (columns f) row) U)
                                         (rows f)).
    exists (flat_map lay F1), (flat_map lay FM), (flat_map lay F2).
    split; [rewrite !flat_map_app; reflexivity|].
    assert (Hu' : forall g, In g (F1 ++ out :: F2) -> NoDup (columns g)).
    { intros g Hg. apply in_app_or in Hg. destruct Hg as [Hg|[<-|Hg]].
      - apply Hu, in_or_app. left. exact Hg.
      - rewrite Hcols. apply union_columns_NoDup. exact Hu.
      - apply Hu, in_or_app. right. apply in_or_app. right. exact Hg. }
    rewrite (concat_unique _ Hne' Hu').
    rewrite (union_columns_with_output F1 FM F2 out Hcols), Hcols.
    f_equal. f_equal. rewrite flat_map_app. cbn [flat_map]. fold lay.
    f_equal. f_equal.
    rewrite <- (map_id (rows out)) at 2. apply map_ext_in. intros r Hr.
    apply Hrows, in_flat_map in Hr. destruct Hr as (f & _ & Hr).
    apply in_map_iff in Hr. destruct Hr as (row & <- & _).
    rewrite Hcols. apply relayout_fixed.
  - rewrite (concat_same _ cols Hne Hs Hdup) in H. injection H as <-.
    cbn [columns rows] in *.
    set (lay := fun g : DataFrame => map (fit (length cols)) (rows g)).
    exists (flat_map lay F1), (flat_map lay FM), (flat_map lay F2).
    split; [rewrite !flat_map_app; reflexivity|].
    assert (Hs' : forall g, In g (F1 ++ out :: F2) -> columns g = cols).
    { intros g Hg. apply in_app_or in Hg. destruct Hg as [Hg|[<-|Hg]].
      - apply Hs, in_or_app. left. exact Hg.
      - exact Hcols.
      - apply Hs, in_or_app. right. apply in_or_app. right. exact Hg. }
    rewrite (concat_same _ cols Hne' Hs' Hdup).
    f_equal. f_equal. rewrite flat_map_app. cbn [flat_map]. fold lay.
    f_equal. f_equal.
    rewrite <- (map_id (rows out)) at 2. apply map_ext_in. intros r Hr.
    apply Hrows, in_flat_map in Hr. destruct Hr as (f & _ & Hr).
    apply in_map_iff in Hr. destruct Hr as (row & <- & _).
    apply fit_fit.
Qed.

(* ===================================================================== *)
(** * load_data                                                          *)
(* ===================================================================== *)

Lemma load_files_kept (files : list (string * file)) (acc : list DataFrame) :
  DataProcessing.load_files files acc = acc ++ kept files.
Proof.
  revert acc. induction files as [|[name f] files IH]; intros acc; simpl.
  - rewrite app_nil_r. reflexivity.
  - destruct f as [|df]; simpl; [apply IH|].
    unfold usable.
    destruct (issubset DataProcessing.required_columns (columns df)); simpl;
      [|apply IH].
    destruct (empty df); simpl; [apply IH|].
    rewrite IH, <- app_assoc. reflexivity.
Qed.

Lemma processing_load_data_kept (data_dir : directory) :
  DataProcessing.load_data data_dir
  = match kept (listdir_csv data_dir) with
    | [] => inl ValueError
    | fs => concat fs
    end.
Proof.
  unfold DataProcessing.load_data. rewrite load_files_kept. simpl app.
  destruct (kept (listdir_csv data_dir)); reflexivity.
Qed.

Lemma listdir_csv_app (d1 d2 : directory) :
  listdir_csv (d1 ++ d2) = listdir_csv d1 ++ listdir_csv d2.
Proof. unfold listdir_csv. apply filter_app. Qed.

Lemma listdir_csv_cons (name : string) (f : file) (d : directory) :
  endswith name ".csv" = true ->
  listdir_csv ((name, f) :: d) = (name, f) :: listdir_csv d.
Proof. intros H. unfold listdir_csv. simpl. rewrite H. reflexivity. Qed.

Lemma listdir_csv_In (d : directory) (n : string) (f : file) :
  In (n, f) (listdir_csv d) <-> In (n, f) d /\ endswith n ".csv" = true.
Proof. unfold listdir_csv. rewrite filter_In. reflexivity. Qed.

Lemma kept_app (l1 l2 : list (string * file)) : kept (l1 ++ l2) = kept l1 ++ kept l2.
Proof. unfold kept. apply flat_map_app. Qed.

Lemma kept_skip (d1 d2 : directory) (name : string) (f : file) :
  usable f = false ->
  kept (listdir_csv (d1 ++ (name, f) :: d2)) = kept (listdir_csv (d1 ++ d2)).
Proof.
  intros Hu. rewrite !listdir_csv_app, !kept_app. f_equal.
  unfold listdir_csv at 1. simpl.
  destruct (endswith name ".csv"); [|reflexivity].
  destruct f as [|df]; [reflexivity|].
  simpl in Hu |- *. rewrite Hu. reflexivity.
Qed.

Lemma kept_nil_iff (files : list (string * file)) :
  kept files = [] <-> forall n f, In (n, f) files -> usable f = false.
Proof.
  induction files as [|[n0 f0] files IH]; simpl.
  - split; [intros _ n f []|reflexivity].
  - split.
    + intros H n f [Heq|Hin].
      * injection Heq as -> ->. destruct f as [|df]; [reflexivity|].
        destruct (usable (Csv df)); [discriminate H|reflexivity].
      * apply app_eq_nil in H. exact (proj1 IH (proj2 H) n f Hin).
    + intros H. rewrite (proj2 IH) by (intros n f Hin; apply (H n f); right; exact Hin).
      rewrite app_nil_r.
      specialize (H n0 f0 (or_introl eq_refl)).
      destruct f0 as [|df]; [reflexivity|]. rewrite H. reflexivity.
Qed.

Lemma remove_char_critical (c : string) :
  In c DataCleaning.critical_columns ->
  DataCleaning.remove_char ">" (DataCleaning.remove_char "<" c) = c.
Proof.
  unfold DataCleaning.critical_columns. simpl.
  intros H. repeat (destruct H as [<-|H]; [reflexivity|]). contradiction.
Qed.

Lemma absent_as_read_iff (df : DataFrame) :
  absent_as_read df <-> issubset DataProcessing.required_columns (columns df) = false.
Proof. symmetry. apply issubset_false_iff. Qed.

Lemma column_absent_iff (df : DataFrame) :
  column_absent df <->
  issubset DataCleaning.critical_columns
           (columns (DataCleaning.clean_column_names df)) = false.
Proof. symmetry. apply issubset_false_iff. Qed.

(** A column that is absent under the cleaned labels is absent under the
    labels as read; a column absent as read can be there under the cleaned
    labels. *)
Lemma column_absent_as_read (df : DataFrame) :
  column_absent df -> absent_as_read df.
Proof.
  intros (c & Hc & Hn). exists c. split; [exact Hc|]. intros Hin. apply Hn.
  simpl. rewrite <- (remove_char_critical c Hc).
  apply (in_map (fun c => DataCleaning.remove_char ">" (DataCleaning.remove_char "<" c))).
  exact Hin.
Qed.

Lemma missing_columns_nonempty (cs cols : list string) :
  issubset cs cols = false ->
  filter (fun col => negb (mem col cols)) cs <> [].
Proof.
  unfold issubset.
  induction cs as [|c cs IH]; simpl; [discriminate|].
  destruct (mem c cols); simpl; [exact IH|discriminate].
Qed.

Lemma missing_columns_empty (cs cols : list string) :
  issubset cs cols = true ->
  filter (fun col => negb (mem col cols)) cs = [].
Proof.
  unfold issubset.
  induction cs as [|c cs IH]; simpl; [reflexivity|].
  destruct (mem c cols); simpl; [exact IH|discriminate].
Qed.

Lemma cleaning_load_files_csv (n : string) (df : DataFrame)
      (rest : list (string * file)) (acc : list DataFrame) :
  DataCleaning.load_files ((n, Csv df) :: rest) acc
  = match filter (fun col => negb (mem col (columns (DataCleaning.clean_column_names df))))
                 DataCleaning.critical_columns with
    | [] => DataCleaning.load_files rest (acc ++ [DataCleaning.clean_column_names df])
    | _ => inl ValueError
    end.
Proof. reflexivity. Qed.

(** The loop of [data_cleaning.load_data] raises nothing but [ValueError]
    and the error of [read_csv]. *)
Lemma cleaning_load_files_exn (files : list (string * file)) (acc : list DataFrame)
      (e : exn) :
  DataCleaning.load_files files acc = inl e -> e = ValueError \/ e = ReadError.
Proof.
  revert acc. induction files as [|[n f] files IH]; intros acc H; [discriminate H|].
  destruct f as [|df]; [injection H as <-; right; reflexivity|].
  rewrite cleaning_load_files_csv in H.
  destruct (filter _ DataCleaning.critical_columns).
  - apply (IH _ H).
  - injection H as <-. left. reflexivity.
Qed.

Lemma cleaning_load_files_abort (l1 l2 : list (string * file)) (name : string)
      (df : DataFrame) (acc : list DataFrame) :
  column_absent df ->
  exists e, DataCleaning.load_files (l1 ++ (name, Csv df) :: l2) acc = inl e.
Proof.
  intros Habs. apply column_absent_iff in Habs. revert acc.
  induction l1 as [|[n f] l1 IH]; intros acc.
  - pose proof (missing_columns_nonempty _ _ Habs) as Hm.
    rewrite app_nil_l, cleaning_load_files_csv.
    destruct (filter _ DataCleaning.critical_columns); [contradiction|].
    exists ValueError. reflexivity.
  - rewrite <- app_comm_cons.
    destruct f as [|df0]; [exists ReadError; reflexivity|].
    rewrite cleaning_load_files_csv.
    destruct (filter _ DataCleaning.critical_columns);
      [apply IH|exists ValueError; reflexivity].
Qed.

(** C9, as the code has it.  [data_processing.load_data] leaves out a
    file in which a required column is absent from the labels as read, or
    which is empty: the result is that of the directory without the file, and
    ValueError is raised exactly when no usable CSV file remains.
    [data_cleaning.load_data] raises, with ValueError or the read error of an
    earlier file, on a CSV file in which a critical column is absent once "<"
    and ">" are taken out of the labels, whatever the other files are; it has
    no test for emptiness: a file with the critical columns is loaded with or
    without rows. *)
Theorem load_data_skips_or_aborts (d1 d2 : directory) (name : string) (df : DataFrame) :
  endswith name ".csv" = true ->
  (absent_as_read df \/ empty df = true ->
   DataProcessing.load_data (d1 ++ (name, Csv df) :: d2)
   = DataProcessing.load_data (d1 ++ d2)) /\
  (DataProcessing.load_data (d1 ++ d2) = inl ValueError <->
   forall n f, In (n, f) (d1 ++ d2) -> endswith n ".csv" = true -> usable f = false) /\
  (forall out, DataProcessing.load_data (d1 ++ d2) = inr out ->
               concat (kept (listdir_csv (d1 ++ d2))) = inr out) /\
  (column_absent df ->
   DataCleaning.load_data (d1 ++ (name, Csv df) :: d2) = inl ValueError \/
   DataCleaning.load_data (d1 ++ (name, Csv df) :: d2) = inl ReadError) /\
  (~ column_absent df ->
   forall rest acc,
     DataCleaning.load_files ((name, Csv df) :: rest) acc
     = DataCleaning.load_files rest (acc ++ [DataCleaning.clean_column_names df])).
Proof.
  intros Hcsv.
  split; [|split; [|split; [|split]]].
  - intros Hbad.
    assert (Hu : usable (Csv df) = false).
    { unfold usable. destruct Hbad as [Habs|Hemp].
      - rewrite (proj1 (absent_as_read_iff df) Habs). reflexivity.
      - rewrite Hemp. apply andb_false_r. }
    rewrite !processing_load_data_kept, (kept_skip d1 d2 name (Csv df) Hu).
    reflexivity.
  - rewrite processing_load_data_kept. split.
    + intros H n f Hin Hn.
      assert (Hk : kept (listdir_csv (d1 ++ d2)) = []).
      { destruct (kept (listdir_csv (d1 ++ d2))) as [|f0 fs]; [reflexivity|].
        exfalso. unfold concat in H.
        destruct (forallb (fun g => is_unique (columns g)) (f0 :: fs));
          [discriminate H|].
        destruct (forallb (fun g => labels_eqb (columns g) (columns f0)) (f0 :: fs));
          discriminate H. }
      apply (proj1 (kept_nil_iff _) Hk n f).
      apply listdir_csv_In. split; [exact Hin|exact Hn].
    + intros H.
      rewrite (proj2 (kept_nil_iff (listdir_csv (d1 ++ d2)))); [reflexivity|].
      intros n f Hin. apply listdir_csv_In in Hin.
      apply (H n f); tauto.
  - intros out. rewrite processing_load_data_kept.
    destruct (kept (listdir_csv (d1 ++ d2))); [discriminate|]. exact (fun H => H).
  - intros Habs. unfold DataCleaning.load_data.
    rewrite listdir_csv_app, (listdir_csv_cons name (Csv df) d2 Hcsv).
    destruct (cleaning_load_files_abort (listdir_csv d1) (listdir_csv d2) name df [] Habs)
      as [e He].
    destruct (listdir_csv d1 ++ (name, Csv df) :: listdir_csv d2) eqn:E.
    + left. reflexivity.
    + rewrite He. cbn [bind Monad_result Monad_either].
      destruct (cleaning_load_files_exn _ _ _ He) as [-> | ->]; [left|right]; reflexivity.
  - intros Hpresent rest acc. rewrite cleaning_load_files_csv.
    rewrite missing_columns_empty; [reflexivity|].
    destruct (issubset DataCleaning.critical_columns
                       (columns (DataCleaning.clean_column_names df))) eqn:E;
      [reflexivity|].
    contradiction Hpresent. apply column_absent_iff. exact E.
Qed.

Lemma load_data_skips_or_aborts_witness :
  DataProcessing.load_data
    [("x.csv", Csv MoreSamples.bracketed); ("b.csv", Csv Samples.complete)]
  = DataProcessing.load_data [("b.csv", Csv Samples.complete)] /\
  exists out,
    DataProcessing.load_data Samples.mixed_dir = inr out /\
    rows out = rows Samples.complete /\
    DataCleaning.load_data Samples.mixed_dir = inl ValueError.
Proof.
  split.
  - apply (proj1 (load_data_skips_or_aborts [] [("b.csv", Csv Samples.complete)] "x.csv"
                    MoreSamples.bracketed eq_refl)).
    left. exists "Ticker". split; [left; reflexivity|].
    simpl. intros H. repeat (destruct H as [H|H]; [discriminate H|]). exact H.
  - assert (Habs : column_absent Samples.no_volume).
    { exists "Volume". split; [simpl; tauto|].
      simpl. intros H. repeat (destruct H as [H|H]; [discriminate H|]). exact H. }
    destruct (load_data_skips_or_aborts [] [("b.csv", Csv Samples.complete)] "a.csv"
                Samples.no_volume eq_refl) as (Hskip & _ & _ & Hab & _).
    eexists. split; [|split].
    + unfold Samples.mixed_dir. simpl app in Hskip.
      rewrite (Hskip (or_introl (column_absent_as_read _ Habs))).
      vm_compute. reflexivity.
    + reflexivity.
    + destruct (Hab Habs) as [He|He]; [exact He|].
      vm_compute in He. discriminate He.
Defined.

(** C9 as stated would have the computation abort whenever a required
    column is absent; [data_processing.load_data] returns the rows of the other
    file. *)
Lemma load_data_continues_after_bad_file :
  In ("a.csv", Csv Samples.no_volume) Samples.mixed_dir /\
  issubset DataProcessing.required_columns (columns Samples.no_volume) = false /\
  exists out, DataProcessing.load_data Samples.mixed_dir = inr out /\
              rows out = [Samples.ohlcv_row "BBB" 20240102 20 21 19 20 500].
Proof.
  split; [left; reflexivity|]. split; [reflexivity|].
  eexists. split; [vm_compute; reflexivity|reflexivity].
Qed.

(* ===================================================================== *)
(** * clean_data                                                         *)
(* ===================================================================== *)

(** The rows that [dropna] keeps. *)
Lemma dropna_complete (df : DataFrame) (r : list cell) :
  In r (rows (dropna DataCleaning.critical_columns df)) <->
  In r (rows df) /\ complete_row (columns df) r.
Proof.
  unfold dropna. cbn [rows columns]. rewrite filter_In. cbv beta.
  rewrite forallb_forall. unfold complete_row.
  split; intros [Hin H]; (split; [exact Hin|]).
  - intros c k Hc Hk Hnull. specialize (H c Hc). rewrite forallb_forall in H.
    specialize (H (nth k r Null)). rewrite Hnull in H.
    discriminate H. apply cells_under_In. exists k. split; [exact Hk|].
    symmetry. exact Hnull.
  - intros c Hc. apply forallb_forall. intros x Hx.
    apply cells_under_In in Hx. destruct Hx as (k & Hk & ->).
    specialize (H c k Hc Hk). destruct (nth k r Null); [contradiction H| |]; reflexivity.
Qed.

Lemma dropna_no_null (subset : list string) (df : DataFrame) (c : string) :
  In c subset -> In c (columns df) ->
  count_null (column c (dropna subset df)) = 0.
Proof.
  intros Hc Hin. unfold count_null, column, dropna. cbn [rows columns].
  induction (rows df) as [|r rs IH]; [reflexivity|].
  cbn [filter]. destruct (forallb _ subset) eqn:E; [|exact IH].
  cbn [map filter]. rewrite forallb_forall in E. specialize (E c Hc).
  rewrite forallb_forall in E.
  rewrite (proj1 (negb_true_iff _) (E _ (get_cell_cells_under (columns df) r c Hin))).
  exact IH.
Qed.

(** After the rows with a missing critical value are gone, the mean-fill
    loop finds nothing to fill; at the first label that two columns carry it
    raises. *)
Lemma fill_columns_after_dropna (subset cols : list string) (df : DataFrame) :
  incl cols subset -> incl cols (columns df) ->
  DataCleaning.fill_columns cols (dropna subset df)
  = if existsb (fun c => 1 <? occurrences c (columns df)) cols
    then inl ValueError else inr (dropna subset df).
Proof.
  induction cols as [|c cols IH]; intros Hs Hc; [reflexivity|].
  cbn [DataCleaning.fill_columns existsb]. unfold DataCleaning.fill_column.
  cbn [columns dropna].
  rewrite (proj2 (mem_true_iff c (columns df)) (Hc c (or_introl eq_refl))).
  destruct (1 <? occurrences c (columns df)); [reflexivity|].
  change {| columns := columns df;
            rows := filter (fun row : list cell =>
                              forallb (fun c0 : string =>
                                         forallb (fun x : cell => negb (isnull x))
                                                 (cells_under (columns df) row c0))
                                      subset) (rows df) |}
    with (dropna subset df).
  rewrite (dropna_no_null subset df c (Hs c (or_introl eq_refl)) (Hc c (or_introl eq_refl))).
  cbn [Nat.ltb Nat.leb orb bind Monad_result Monad_either ret].
  apply IH; intros x Hx; [apply Hs|apply Hc]; right; exact Hx.
Qed.

Lemma numerical_cols_critical :
  incl DataCleaning.numerical_cols DataCleaning.critical_columns.
Proof.
  intros c. unfold DataCleaning.numerical_cols, DataCleaning.critical_columns.
  simpl. tauto.
Qed.

Lemma drop_duplicates_from_In (seen rest : list (list cell)) (r : list cell) :
  In r (drop_duplicates_from seen rest) -> In r rest.
Proof.
  revert seen. induction rest as [|x rest IH]; intros seen H; simpl in *; [exact H|].
  destruct (existsb (row_eqb x) seen).
  - right. apply (IH seen H).
  - destruct H as [H|H]; [left; exact H|right; apply (IH _ H)].
Qed.

Lemma clean_data_KeyError (df : DataFrame) :
  issubset DataCleaning.critical_columns (columns df) = false ->
  DataCleaning.clean_data df = inl KeyError.
Proof.
  intros H. unfold DataCleaning.clean_data, DataCleaning.select. rewrite H.
  reflexivity.
Qed.

(** The three ways [clean_data] ends. *)
Lemma clean_data_cases (df : DataFrame) :
  DataCleaning.clean_data df
  = if issubset DataCleaning.critical_columns (columns df) then
      if existsb (fun c => 1 <? occurrences c (columns df)) DataCleaning.numerical_cols
      then inl ValueError
      else inr (drop_duplicates (dropna DataCleaning.critical_columns df))
    else inl KeyError.
Proof.
  destruct (issubset DataCleaning.critical_columns (columns df)) eqn:E;
    [|apply clean_data_KeyError; exact E].
  unfold DataCleaning.clean_data, DataCleaning.select. rewrite E.
  cbn [bind Monad_result Monad_either ret].
  rewrite (fill_columns_after_dropna _ _ df numerical_cols_critical).
  - destruct (existsb _ DataCleaning.numerical_cols); reflexivity.
  - intros c Hc. apply (proj1 (issubset_true_iff _ _) E).
    apply numerical_cols_critical. exact Hc.
Qed.

Lemma repeated_numerical_iff (cols : list string) :
  existsb (fun c => 1 <? occurrences c cols) DataCleaning.numerical_cols = true <->
  exists c, In c DataCleaning.numerical_cols /\ repeated c cols.
Proof.
  rewrite existsb_exists. split; intros (c & Hc & H); exists c; (split; [exact Hc|]);
    apply repeated_dec; exact H.
Qed.

Lemma clean_data_result (df out : DataFrame) :
  DataCleaning.clean_data df = inr out ->
  issubset DataCleaning.critical_columns (columns df) = true /\
  (forall c, In c DataCleaning.numerical_cols -> ~ repeated c (columns df)) /\
  out = drop_duplicates (dropna DataCleaning.critical_columns df).
Proof.
  rewrite clean_data_cases. intros H.
  destruct (issubset DataCleaning.critical_columns (columns df)); [|discriminate H].
  destruct (existsb _ DataCleaning.numerical_cols) eqn:E; [discriminate H|].
  injection H as <-. split; [reflexivity|]. split; [|reflexivity].
  intros c Hc Hrep. apply not_true_iff_false in E. apply E.
  apply repeated_numerical_iff. exists c. split; assumption.
Qed.

Lemma clean_data_returns (df : DataFrame) :
  issubset DataCleaning.critical_columns (columns df) = true ->
  (forall c, In c DataCleaning.numerical_cols -> ~ repeated c (columns df)) ->
  DataCleaning.clean_data df
  = inr (drop_duplicates (dropna DataCleaning.critical_columns df)).
Proof.
  intros Hcols Hrep. rewrite clean_data_cases, Hcols.
  destruct (existsb _ DataCleaning.numerical_cols) eqn:E; [|reflexivity].
  apply repeated_numerical_iff in E. destruct E as (c & Hc & H).
  contradiction (Hrep c Hc H).
Qed.

(** C10. On a frame that has the critical columns, none of the numerical
    ones under a label that two columns carry, [clean_data] returns a frame
    with the same columns in which every row is a row of the input, cell for
    cell: the rows with a missing critical value are dropped, the mean-fill
    loop then changes nothing, and of equal rows the first stays.  Where two
    columns carry the label of a numerical column the mean-fill loop raises
    ValueError.  Whenever a frame is returned, it has the columns of the input
    and its rows are rows of the input. *)
Theorem clean_data_only_removes_rows (df : DataFrame) :
  issubset DataCleaning.critical_columns (columns df) = true ->
  ((forall c, In c DataCleaning.numerical_cols -> ~ repeated c (columns df)) ->
   exists out,
     DataCleaning.clean_data df = inr out /\
     columns out = columns df /\
     (forall r, In r (rows out) -> In r (rows df)) /\
     DataCleaning.fill_columns DataCleaning.numerical_cols
                               (dropna DataCleaning.critical_columns df)
     = inr (dropna DataCleaning.critical_columns df) /\
     out = drop_duplicates (dropna DataCleaning.critical_columns df)) /\
  ((exists c, In c DataCleaning.numerical_cols /\ repeated c (columns df)) ->
   DataCleaning.clean_data df = inl ValueError) /\
  (forall out, DataCleaning.clean_data df = inr out ->
               columns out = columns df /\
               forall r, In r (rows out) -> In r (rows df)).
Proof.
  intros Hcols.
  assert (Hrows : forall r,
             In r (rows (drop_duplicates (dropna DataCleaning.critical_columns df))) ->
             In r (rows df)).
  { intros r Hr. unfold drop_duplicates in Hr. cbn [rows] in Hr.
    apply drop_duplicates_from_In in Hr.
    apply (proj1 (dropna_complete df r)) in Hr. exact (proj1 Hr). }
  assert (Hnum : incl DataCleaning.numerical_cols (columns df)).
  { intros c Hc. apply (proj1 (issubset_true_iff _ _) Hcols).
    apply numerical_cols_critical. exact Hc. }
  split; [|split].
  - intros Hrep.
    exists (drop_duplicates (dropna DataCleaning.critical_columns df)).
    split; [apply clean_data_returns; assumption|]. split; [reflexivity|].
    split; [exact Hrows|]. split; [|reflexivity].
    rewrite (fill_columns_after_dropna _ _ df numerical_cols_critical Hnum).
    destruct (existsb _ DataCleaning.numerical_cols) eqn:E; [|reflexivity].
    apply repeated_numerical_iff in E. destruct E as (c & Hc & H).
    contradiction (Hrep c Hc H).
  - intros Hrep. rewrite clean_data_cases, Hcols.
    rewrite (proj2 (repeated_numerical_iff (columns df)) Hrep). reflexivity.
  - intros out H. destruct (clean_data_result df out H) as (_ & _ & ->).
    split; [reflexivity|exact Hrows].
Qed.

Lemma clean_data_only_removes_rows_witness :
  (exists out,
     DataCleaning.clean_data Samples.dirty = inr out /\
     rows out = [Samples.ohlcv_row "BBB" 20240102 20 21 19 20 500]) /\
  DataCleaning.clean_data (DataCleaning.clean_column_names MoreSamples.close_twice)
  = inl ValueError.
Proof.
  split.
  - destruct (clean_data_only_removes_rows Samples.dirty eq_refl) as (H & _).
    destruct H as (out & Hout & _ & _ & _ & Heq).
    + intros c Hc. apply NoDup_not_repeated. apply is_unique_iff. reflexivity.
    + exists out. split; [exact Hout|]. rewrite Heq. vm_compute. reflexivity.
  - apply (proj1 (proj2 (clean_data_only_removes_rows
                           (DataCleaning.clean_column_names MoreSamples.close_twice)
                           eq_refl))).
    exists "Close". split; [simpl; tauto|].
    exists 5, 7. split; [lia|]. split; reflexivity.
Defined.

(** The mean-fill step does fill when it meets a missing value. *)
Example fill_column_fills :
  exists out,
    DataCleaning.fill_column "Close" Samples.dirty = inr out /\
    map (fun r => get_cell (columns out) r "Close") (rows out)
    = [Num 20; Num (40 # 2); Num 20].
Proof.
  eexists. split; [vm_compute; reflexivity|].
  vm_compute. reflexivity.
Qed.

(* ===================================================================== *)
(** * Further properties: the columns of preprocess_data                 *)
(* ===================================================================== *)

Lemma get_group_in_group (t : string) (df : list Row) (x : Row) :
  In x (get_group t df) -> in_group t x = true.
Proof. unfold get_group. intros H. apply filter_In in H. exact (proj2 H). Qed.

Lemma get_group_idem (t : string) (df : list Row) :
  get_group t (get_group t df) = get_group t df.
Proof. apply filter_all. apply get_group_in_group. Qed.

Lemma In_firstn {A} (n : nat) (l : list A) (x : A) : In x (firstn n l) -> In x l.
Proof.
  intros H. rewrite <- (firstn_skipn n l). apply in_or_app. left. exact H.
Qed.

Lemma group_index_in_group (df : list Row) (j : nat) (r : Row) :
  nth_error df j = Some r ->
  group_index (group_index j df) (get_group (Ticker r) df) = group_index j df.
Proof.
  intros Hj. pose proof (group_index_row df j r Hj) as Hr.
  set (i := group_index j df) in *. set (g := get_group (Ticker r) df) in *.
  unfold group_index at 1. rewrite Hr. unfold get_group at 1.
  rewrite filter_all.
  - rewrite length_firstn. apply Nat.min_l.
    apply Nat.lt_le_incl. apply nth_error_Some. congruence.
  - intros x Hx. apply (get_group_in_group (Ticker r) df). apply (In_firstn i). exact Hx.
Qed.

Lemma transform_within_group (f : list Q -> Series) (df : list Row) (j : nat) (r : Row) :
  (forall xs, length (f xs) = length xs) ->
  nth_error df j = Some r ->
  nth j (transform f df) NaN
  = nth (group_index j df) (transform f (get_group (Ticker r) df)) NaN.
Proof.
  intros Hlen Hj.
  rewrite (transform_nth f df j r Hlen Hj).
  rewrite (transform_nth f _ _ r Hlen (group_index_row df j r Hj)).
  rewrite (group_index_in_group df j r Hj).
  unfold group_close. rewrite get_group_idem. reflexivity.
Qed.

Lemma pct_change_length (xs : list Q) : length (pct_change xs) = length xs.
Proof.
  destruct xs as [|x xs]; simpl; [reflexivity|].
  unfold map2. rewrite length_map, length_combine. cbn [length]. lia.
Qed.

(** X1. The SMA_10, EMA_10, Daily_Return and RSI_14 values of a row are
    those that the same computation gives on the rows of its ticker alone:
    the rows of the other tickers, wherever they stand in the frame, have no
    part in them. *)
Theorem columns_computed_within_group (dt : dtype) (df : list Row) (j : nat) (r : Row) :
  nth_error df j = Some r ->
  let g := get_group (Ticker r) df in
  let i := group_index j df in
  nth_error g i = Some r /\
  nth j (col_SMA_10 df) NaN = nth i (col_SMA_10 g) NaN /\
  nth j (col_EMA_10 df) NaN = nth i (col_EMA_10 g) NaN /\
  nth j (col_Daily_Return df) NaN = nth i (col_Daily_Return g) NaN /\
  nth j (col_RSI_14 dt df) NaN = nth i (col_RSI_14 dt g) NaN.
Proof.
  intros Hj g i. split; [apply group_index_row; exact Hj|].
  unfold col_SMA_10, col_EMA_10, col_Daily_Return, col_RSI_14.
  repeat split.
  - apply (transform_within_group _ df j r (rolling_mean_length 10) Hj).
  - apply (transform_within_group _ df j r ema_10_values_length Hj).
  - apply (transform_within_group _ df j r pct_change_length Hj).
  - apply (transform_within_group _ df j r (calculate_rsi_length dt) Hj).
Qed.

Lemma columns_computed_within_group_witness :
  nth_error Samples.panel 10 = Some (Samples.bar "AAA" 10 16 16 16) /\
  nth 10 (col_SMA_10 Samples.panel) NaN
  = nth 9 (col_SMA_10 (Samples.days "AAA" 1 Samples.aaa_closes)) NaN.
Proof.
  split; [reflexivity|].
  exact (proj1 (proj2 (columns_computed_within_group float64 Samples.panel 10
                         (Samples.bar "AAA" 10 16 16 16) eq_refl))).
Defined.

Lemma pct_change_nth (xs : list Q) (k : nat) :
  S k < length xs ->
  nth (S k) (pct_change xs) NaN
  = fsub (fdiv (Fin (nth (S k) xs 0%Q)) (Fin (nth k xs 0%Q))) (Fin 1).
Proof.
  intros Hk. destruct xs as [|x xs]; simpl in Hk; [lia|].
  unfold pct_change.
  change (nth (S k) (NaN :: ?l) NaN) with (nth k l NaN).
  rewrite (map2_nth _ (x :: xs) xs k 0%Q 0%Q NaN) by (simpl; lia).
  reflexivity.
Qed.

(** X2. Daily_Return is undefined at the first row of a group.  At a later
    row it is Close / (previous Close of the group) - 1 when the previous
    Close is not 0; after a Close of 0 it is the result of the division by
    zero: plus or minus infinity by the sign of Close, undefined when Close is
    0 as well. *)
Theorem Daily_Return_values (df : list Row) (j : nat) (r : Row) :
  nth_error df j = Some r ->
  let closes := group_close (Ticker r) df in
  let v := nth j (col_Daily_Return df) NaN in
  (group_index j df = 0 -> v = NaN) /\
  (forall k, group_index j df = S k ->
     let prev := nth k closes 0%Q in
     (~ (prev == 0)%Q ->
      exists q, v = Fin q /\ (q == Close r / prev - 1)%Q) /\
     ((prev == 0)%Q ->
      ((0 < Close r)%Q -> v = PInf) /\
      ((Close r < 0)%Q -> v = NInf) /\
      ((Close r == 0)%Q -> v = NaN))).
Proof.
  intros Hj closes v.
  pose proof (group_index_lt df j r Hj) as Hlt.
  pose proof (group_index_close df j r Hj) as Hc.
  fold closes in Hlt, Hc.
  assert (Hv : v = nth (group_index j df) (pct_change closes) NaN).
  { unfold v, col_Daily_Return.
    apply (transform_nth _ df j r pct_change_length Hj). }
  split.
  - intros H0. rewrite Hv, H0. destruct closes; reflexivity.
  - intros k Hk prev. rewrite Hk in *.
    rewrite Hv, pct_change_nth by exact Hlt. rewrite Hc. fold prev.
    unfold fdiv. split.
    + intros Hne.
      assert (E : Qeq_bool prev 0 = false).
      { destruct (Qeq_bool prev 0) eqn:E; [|reflexivity].
        apply Qeq_bool_iff in E. contradiction. }
      rewrite E. eexists. split; reflexivity.
    + intros Hz. rewrite (proj2 (Qeq_bool_iff prev 0) Hz). simpl sign.
      split; [|split]; intros H.
      * rewrite (proj1 (Qgt_alt _ 0) H). reflexivity.
      * rewrite (proj1 (Qlt_alt _ 0) H). reflexivity.
      * rewrite (proj1 (Qeq_alt _ 0) H). reflexivity.
Qed.

Lemma Daily_Return_values_witness :
  nth_error MoreSamples.with_zero 3 = Some (Samples.bar "HHH" 4 6 6 6) /\
  exists q, nth 3 (col_Daily_Return MoreSamples.with_zero) NaN = Fin q /\
            (q == 1 # 5)%Q.
Proof.
  split; [reflexivity|].
  destruct (Daily_Return_values MoreSamples.with_zero 3 (Samples.bar "HHH" 4 6 6 6) eq_refl)
    as (_ & H).
  destruct (H 2 eq_refl) as (Hfin & _).
  destruct Hfin as (q & Hq & Hv); [intros E; vm_compute in E; discriminate E|].
  exists q. split; [exact Hq|]. rewrite Hv. vm_compute. reflexivity.
Defined.

Lemma alpha_range (span : nat) : 1 <= span -> (0 <= alpha span)%Q /\ (alpha span <= 1)%Q.
Proof.
  intros Hs. unfold alpha.
  assert (Hp : (1 <= of_nat span)%Q).
  { unfold of_nat. change 1%Q with (inject_Z 1). rewrite <- Zle_Qle. lia. }
  split.
  - apply Qle_shift_div_l; lra.
  - apply Qle_shift_div_r; lra.
Qed.

Lemma convex_between (a lo hi p x : Q) :
  (0 <= a)%Q -> (a <= 1)%Q ->
  (lo <= p)%Q -> (p <= hi)%Q -> (lo <= x)%Q -> (x <= hi)%Q ->
  (lo <= (1 - a) * p + a * x)%Q /\ ((1 - a) * p + a * x <= hi)%Q.
Proof.
  intros Ha0 Ha1 Hp1 Hp2 Hx1 Hx2.
  assert (H1 : (0 <= (1 - a) * (p - lo))%Q) by (apply Qmult_le_0_compat; lra).
  assert (H2 : (0 <= a * (x - lo))%Q) by (apply Qmult_le_0_compat; lra).
  assert (H3 : (0 <= (1 - a) * (hi - p))%Q) by (apply Qmult_le_0_compat; lra).
  assert (H4 : (0 <= a * (hi - x))%Q) by (apply Qmult_le_0_compat; lra).
  split.
  - setoid_replace ((1 - a) * p + a * x)%Q
      with (lo + ((1 - a) * (p - lo) + a * (x - lo)))%Q by ring.
    lra.
  - setoid_replace ((1 - a) * p + a * x)%Q
      with (hi - ((1 - a) * (hi - p) + a * (hi - x)))%Q by ring.
    lra.
Qed.

Lemma ewm_from_between (a lo hi : Q) (xs : list Q) :
  (0 <= a)%Q -> (a <= 1)%Q ->
  Forall (fun x => lo <= x /\ x <= hi)%Q xs ->
  forall prev, (lo <= prev)%Q -> (prev <= hi)%Q ->
               Forall (fun y => lo <= y /\ y <= hi)%Q (ewm_from a prev xs).
Proof.
  intros Ha0 Ha1 Hxs. induction Hxs as [|x xs [Hx1 Hx2] _ IH]; intros prev Hp1 Hp2; simpl.
  - constructor.
  - destruct (convex_between a lo hi prev x Ha0 Ha1 Hp1 Hp2 Hx1 Hx2) as [H1 H2].
    constructor; [split; assumption|]. apply IH; assumption.
Qed.

Lemma ewm_mean_between (span : nat) (lo hi : Q) (xs : list Q) :
  1 <= span ->
  Forall (fun x => lo <= x /\ x <= hi)%Q xs ->
  Forall (fun y => lo <= y /\ y <= hi)%Q (ewm_mean span xs).
Proof.
  intros Hs Hxs. destruct (alpha_range span Hs) as [Ha0 Ha1].
  destruct xs as [|x xs]; simpl; [constructor|].
  inversion Hxs as [|? ? Hx Htl]; subst.
  constructor; [exact Hx|].
  apply ewm_from_between; tauto.
Qed.

Lemma between_lowest_highest (xs : list Q) :
  Forall (fun x => lowest xs <= x /\ x <= highest xs)%Q xs.
Proof.
  apply Forall_forall. intros x Hx.
  split; [apply lowest_le|apply highest_ge]; exact Hx.
Qed.

(** X3. EMA_10 never leaves the range of the closes of its group: at every
    row it lies between the least and the greatest Close of the group. *)
Theorem EMA_10_within_range (df : list Row) (j : nat) (r : Row) :
  nth_error df j = Some r ->
  let closes := group_close (Ticker r) df in
  exists e, nth j (col_EMA_10 df) NaN = Fin e /\
            (lowest closes <= e)%Q /\ (e <= highest closes)%Q.
Proof.
  intros Hj closes.
  eexists. split; [apply col_EMA_10_nth; exact Hj|].
  pose proof (ewm_mean_between 10 _ _ closes ltac:(lia) (between_lowest_highest closes))
    as Hb.
  rewrite Forall_forall in Hb. apply Hb. apply nth_In.
  rewrite ewm_mean_length. apply group_index_lt. exact Hj.
Qed.

Lemma EMA_10_within_range_witness :
  nth_error Samples.panel 5 = Some (Samples.bar "AAA" 5 13 13 13) /\
  exists e, nth 5 (col_EMA_10 Samples.panel) NaN = Fin e /\
            (9 <= e)%Q /\ (e <= 17)%Q.
Proof.
  split; [reflexivity|].
  destruct (EMA_10_within_range Samples.panel 5 (Samples.bar "AAA" 5 13 13 13) eq_refl)
    as (e & He & Hlo & Hhi).
  exists e. split; [exact He|]. split.
  - eapply Qle_trans; [|exact Hlo]. vm_compute. discriminate.
  - eapply Qle_trans; [exact Hhi|]. vm_compute. discriminate.
Defined.

(* ===================================================================== *)
(** * Further properties: MACD                                           *)
(* ===================================================================== *)

Lemma ewm_from_flat (a v : Q) (xs : list Q) :
  Forall (fun x => x == v)%Q xs ->
  forall prev, (prev == v)%Q -> Forall (fun y => y == v)%Q (ewm_from a prev xs).
Proof.
  induction 1 as [|x xs Hx _ IH]; intros prev Hp; simpl; [constructor|].
  assert (Hy : ((1 - a) * prev + a * x == v)%Q) by (rewrite Hp, Hx; ring).
  constructor; [exact Hy|]. apply IH. exact Hy.
Qed.

Lemma ewm_mean_flat (span : nat) (v : Q) (xs : list Q) :
  Forall (fun x => x == v)%Q xs -> Forall (fun y => y == v)%Q (ewm_mean span xs).
Proof.
  intros H. destruct xs as [|x xs]; simpl; [constructor|].
  inversion H as [|? ? Hx Htl]; subst.
  constructor; [exact Hx|]. apply ewm_from_flat; assumption.
Qed.

Lemma map2_Qminus_flat (v : Q) (xs ys : list Q) :
  Forall (fun x => x == v)%Q xs -> Forall (fun y => y == v)%Q ys ->
  Forall (fun m => m == 0)%Q (map2 Qminus xs ys).
Proof.
  intros Hx. revert ys. induction Hx as [|x xs Hx _ IH]; intros ys Hy; [constructor|].
  destruct Hy as [|y ys Hy Hys]; [constructor|].
  unfold map2 in *. simpl. constructor; [rewrite Hx, Hy; ring|].
  apply IH. exact Hys.
Qed.

Lemma Forall_nth_Q (P : Q -> Prop) (xs : list Q) (i : nat) :
  Forall P xs -> i < length xs -> P (nth i xs 0%Q).
Proof.
  intros H Hi. rewrite Forall_forall in H. apply H. apply nth_In. exact Hi.
Qed.

Lemma macd_series_length (closes : list Q) :
  length (map2 Qminus (ewm_mean 12 closes) (ewm_mean 26 closes)) = length closes.
Proof. rewrite map2_length; rewrite !ewm_mean_length; reflexivity. Qed.

(** X4. On a Close series that does not move, MACD and the signal line are
    0 at every index. *)
Theorem MACD_of_flat_series (closes : list Q) (c : Q) (i : nat) :
  Forall (fun x => x == c)%Q closes ->
  i < length closes ->
  exists m s,
    nth i (fst (calculate_macd closes 12 26 9)) NaN = Fin m /\
    nth i (snd (calculate_macd closes 12 26 9)) NaN = Fin s /\
    (m == 0)%Q /\ (s == 0)%Q.
Proof.
  intros Hflat Hi. unfold calculate_macd. simpl fst. simpl snd.
  set (macd := map2 Qminus (ewm_mean 12 closes) (ewm_mean 26 closes)).
  assert (Hlen : length macd = length closes) by apply macd_series_length.
  assert (Hm : Forall (fun m => m == 0)%Q macd).
  { apply (map2_Qminus_flat c); apply ewm_mean_flat; exact Hflat. }
  exists (nth i macd 0%Q), (nth i (ewm_mean 9 macd) 0%Q).
  split; [apply of_values_nth; lia|].
  split; [apply of_values_nth; rewrite ewm_mean_length; lia|].
  split.
  - apply (Forall_nth_Q _ macd i Hm). lia.
  - apply (Forall_nth_Q _ _ i (ewm_mean_flat 9 0 macd Hm)).
    rewrite ewm_mean_length. lia.
Qed.

Lemma MACD_of_flat_series_witness :
  exists m s,
    nth 3 (fst (calculate_macd [7; 7; 7; 7; 7]%Q 12 26 9)) NaN = Fin m /\
    nth 3 (snd (calculate_macd [7; 7; 7; 7; 7]%Q 12 26 9)) NaN = Fin s /\
    (m == 0)%Q /\ (s == 0)%Q.
Proof.
  apply (MACD_of_flat_series [7; 7; 7; 7; 7]%Q 7 3).
  - repeat constructor.
  - simpl. lia.
Defined.

(* ===================================================================== *)
(** * Further properties: Bollinger bands                                *)
(* ===================================================================== *)





(* ===================================================================== *)
(** * Further properties: %D and RSI                                     *)
(* ===================================================================== *)

Lemma window3 (s : Series) (i : nat) :
  2 <= i -> i < length s ->
  window 3 i s = [nth (i - 2) s NaN; nth (i - 1) s NaN; nth i s NaN].
Proof.
  intros H2 Hi.
  pose proof (window_length 3 i s ltac:(lia) Hi) as Hlen.
  pose proof (fun k Hk => window_nth 3 i k s NaN ltac:(lia) Hk) as Hn.
  destruct (window 3 i s) as [|x [|y [|z [|? ?]]]]; try discriminate Hlen.
  assert (Hx : x = nth (i - 2) s NaN).
  { change x with (nth 0 [x; y; z] NaN). rewrite Hn by lia. f_equal. lia. }
  assert (Hy : y = nth (i - 1) s NaN).
  { change y with (nth 1 [x; y; z] NaN). rewrite Hn by lia. f_equal. lia. }
  assert (Hz : z = nth i s NaN).
  { change z with (nth 2 [x; y; z] NaN). rewrite Hn by lia. f_equal. lia. }
  rewrite <- Hx, <- Hy, <- Hz. reflexivity.
Qed.

Lemma stochastic_K_length (g : list Row) :
  length (fst (calculate_stochastic_oscillator g 14 3)) = length g.
Proof.
  unfold calculate_stochastic_oscillator. simpl fst.
  rewrite map2_length; rewrite ?length_map, ?map2_length; series_length.
Qed.

Lemma stochastic_K_prefix (g : list Row) (i : nat) :
  i < 13 -> nth i (fst (calculate_stochastic_oscillator g 14 3)) NaN = NaN.
Proof.
  intros Hi. destruct (nth_error g i) as [r|] eqn:E.
  - rewrite (stochastic_K_nth g i r E). unfold rolling_min, rolling_max.
    rewrite !rolling_prefix by lia. reflexivity.
  - apply nth_overflow. rewrite stochastic_K_length. apply nth_error_None. exact E.
Qed.

(** X6. %D is undefined at the rows 0..14 of a group.  From row 15 on it
    is the mean of the last three %K values when all three are finite, and
    undefined as soon as one of them is undefined or infinite. *)
Theorem stochastic_D_values (g : list Row) (i : nat) :
  i < length g ->
  let K := fst (calculate_stochastic_oscillator g 14 3) in
  let D := nth i (snd (calculate_stochastic_oscillator g 14 3)) NaN in
  (i < 15 -> D = NaN) /\
  (15 <= i ->
   (forall a b c,
       nth (i - 2) K NaN = Fin a -> nth (i - 1) K NaN = Fin b -> nth i K NaN = Fin c ->
       exists m, D = Fin m /\ (m == (a + b + c) / 3)%Q) /\
   (no_obs (nth (i - 2) K NaN) || no_obs (nth (i - 1) K NaN) || no_obs (nth i K NaN) = true ->
    D = NaN)).
Proof.
  intros Hi K D.
  assert (HK : length K = length g) by apply stochastic_K_length.
  assert (HD : D = nth i (rolling_mean 3 K) NaN) by reflexivity.
  split.
  - intros H15. rewrite HD. unfold rolling_mean.
    destruct (Nat.lt_ge_cases i 2) as [H2|H2]; [apply rolling_prefix; lia|].
    rewrite rolling_nth by lia.
    destruct (Nat.ltb_spec (S i) 3); [reflexivity|].
    rewrite window3 by lia.
    unfold K at 1. rewrite stochastic_K_prefix by lia. reflexivity.
  - intros H15. rewrite HD. unfold rolling_mean.
    rewrite rolling_nth by lia.
    destruct (Nat.ltb_spec (S i) 3); [lia|].
    rewrite window3 by lia. split.
    + intros a b c -> -> ->.
      change [Fin a; Fin b; Fin c] with (of_values [a; b; c]).
      rewrite of_values_all_obs.
      destruct (agg_mean_of_values [a; b; c] ltac:(simpl; lia)) as [m [Hm Hq]].
      exists m. split; [exact Hm|].
      rewrite Hq. unfold arith_mean, Qsum, of_nat. simpl fold_right. simpl length.
      change (inject_Z (Z.of_nat 3)) with 3%Q. field.
    + intros Hno. simpl existsb. rewrite orb_false_r, orb_assoc, Hno. reflexivity.
Qed.

Lemma stochastic_D_values_witness :
  exists m, nth 15 (snd (calculate_stochastic_oscillator MoreSamples.sixteen 14 3)) NaN = Fin m /\
            (m == 25)%Q.
Proof.
  destruct (stochastic_D_values MoreSamples.sixteen 15 ltac:(apply Nat.ltb_lt; reflexivity))
    as (_ & H).
  destruct H as (H & _); [apply Nat.leb_le; reflexivity|].
  destruct (H (100 # 4) (100 # 4) (100 # 4))%Q as (m & Hm & Hq);
    try (vm_compute; reflexivity).
  exists m. split; [exact Hm|]. rewrite Hq. vm_compute. reflexivity.
Defined.

(** X7. From row 13 of a group on, RSI_14 is 0 when, over the fourteen
    changes of Close at the positions i-13 .. i of the group, the mean gain is
    0 and the mean loss is positive. *)
Theorem RSI_14_zero_without_gain (dt : dtype) (df : list Row) (j : nat) (r : Row) :
  nth_error df j = Some r ->
  13 <= group_index j df ->
  (avg_gain dt (group_close (Ticker r) df) (group_index j df) == 0)%Q ->
  (0 < avg_loss dt (group_close (Ticker r) df) (group_index j df))%Q ->
  exists q, nth j (col_RSI_14 dt df) NaN = Fin q /\ (q == 0)%Q.
Proof.
  intros Hj H13 HG HL.
  pose proof (group_index_lt df j r Hj) as Hi.
  unfold col_RSI_14.
  rewrite (transform_nth _ df j r (calculate_rsi_length dt) Hj).
  destruct (calculate_rsi_values dt _ _ Hi) as (_ & Hval & _).
  destruct (Hval H13) as (_ & _ & Hmid).
  destruct (Hmid HL) as (q & Hq & Hqe & _).
  exists q. split; [exact Hq|].
  rewrite Hqe, HG. unfold Qdiv. rewrite Qmult_0_l.
  field.
Qed.

Lemma RSI_14_zero_without_gain_witness :
  nth_error MoreSamples.rise_then_fall 19 = Some (Samples.bar "JJJ" 17 6 6 6) /\
  group_index 19 MoreSamples.rise_then_fall = 16 /\
  exists q, nth 19 (col_RSI_14 float64 MoreSamples.rise_then_fall) NaN = Fin q /\ (q == 0)%Q.
Proof.
  split; [reflexivity|]. split; [reflexivity|].
  apply (RSI_14_zero_without_gain float64 MoreSamples.rise_then_fall 19
                                  (Samples.bar "JJJ" 17 6 6 6) eq_refl).
  - apply Nat.leb_le. reflexivity.
  - vm_compute. reflexivity.
  - vm_compute. reflexivity.
Defined.

(* ===================================================================== *)
(** * Further properties: preprocess_data and the order of the rows      *)
(* ===================================================================== *)

Lemma string_compare_refl (s : string) : String.compare s s = Eq.
Proof.
  pose proof (String.compare_antisym s s) as H.
  destruct (String.compare s s); [reflexivity|discriminate H|discriminate H].
Qed.

Lemma string_compare_lt_trans (a b c : string) :
  String.compare a b = Lt -> String.compare b c = Lt -> String.compare a c = Lt.
Proof.
  intros H1 H2.
  apply OrderedTypeEx.String_as_OT.cmp_lt.
  apply (OrderedTypeEx.String_as_OT.lt_trans a b c);
    apply OrderedTypeEx.String_as_OT.cmp_lt; assumption.
Qed.

Lemma row_le_trans (a b c : Row) : row_le a b -> row_le b c -> row_le a c.
Proof.
  unfold row_le, row_leb. intros H1 H2.
  destruct (String.compare (Ticker a) (Ticker b)) eqn:Eab; [| |discriminate H1];
    destruct (String.compare (Ticker b) (Ticker c)) eqn:Ebc; try discriminate H2.
  - apply String.compare_eq_iff in Eab, Ebc. rewrite Eab, Ebc, string_compare_refl.
    apply Z.leb_le. apply Z.leb_le in H1, H2. lia.
  - apply String.compare_eq_iff in Eab. rewrite Eab, Ebc. reflexivity.
  - apply String.compare_eq_iff in Ebc. rewrite <- Ebc, Eab. reflexivity.
  - rewrite (string_compare_lt_trans _ _ _ Eab Ebc). reflexivity.
Qed.

Lemma row_le_antisym (a b : Row) : row_le a b -> row_le b a -> key a = key b.
Proof.
  unfold row_le, row_leb, key. intros H1 H2.
  rewrite (String.compare_antisym (Ticker b) (Ticker a)) in H2.
  destruct (String.compare (Ticker a) (Ticker b)) eqn:E; simpl in H2;
    try discriminate.
  apply String.compare_eq_iff in E. apply Z.leb_le in H1, H2.
  f_equal; [exact E|lia].
Qed.

Lemma NoDup_map_injective {A B} (f : A -> B) (l : list A) (x y : A) :
  NoDup (map f l) -> In x l -> In y l -> f x = f y -> x = y.
Proof.
  induction l as [|a l IH]; intros Hnd Hx Hy Hf; [contradiction|].
  simpl in Hnd. inversion Hnd as [|? ? Hnotin Hnd']; subst.
  destruct Hx as [<-|Hx], Hy as [<-|Hy].
  - reflexivity.
  - exfalso. apply Hnotin. rewrite Hf. apply in_map. exact Hy.
  - exfalso. apply Hnotin. rewrite <- Hf. apply in_map. exact Hx.
  - apply IH; assumption.
Qed.

Lemma sorted_rows_unique (l l' : list Row) :
  StronglySorted row_le l -> StronglySorted row_le l' ->
  Permutation l l' -> NoDup (map key l) -> l = l'.
Proof.
  revert l'. induction l as [|x t IH]; intros l' Hs Hs' Hp Hnd.
  - symmetry. apply Permutation_nil. exact Hp.
  - destruct l' as [|y t'].
    + apply Permutation_sym, Permutation_nil in Hp. discriminate Hp.
    + apply StronglySorted_inv in Hs, Hs'.
      destruct Hs as [Hst Hx], Hs' as [Hst' Hy].
      rewrite Forall_forall in Hx, Hy.
      assert (Hxy : x = y).
      { assert (Hin1 : In x (y :: t'))
          by (apply (Permutation_in _ Hp); left; reflexivity).
        assert (Hin2 : In y (x :: t))
          by (apply (Permutation_in _ (Permutation_sym Hp)); left; reflexivity).
        destruct Hin1 as [->|Hin1]; [reflexivity|].
        destruct Hin2 as [->|Hin2]; [reflexivity|].
        apply (NoDup_map_injective key (x :: t)); try assumption.
        - left. reflexivity.
        - right. exact Hin2.
        - apply row_le_antisym; [apply Hx; exact Hin2|apply Hy; exact Hin1]. }
      subst y. f_equal. apply IH; try assumption.
      * apply (Permutation_cons_inv Hp).
      * simpl in Hnd. inversion Hnd; assumption.
Qed.

Lemma sort_values_strongly_sorted (df : list Row) :
  StronglySorted row_le (sort_values df).
Proof.
  apply Sorted_StronglySorted; [|apply sort_values_sorted].
  intros a b c. apply row_le_trans.
Qed.

(** X8. The sorted frame does not depend on the order in which the rows
    come in, as long as no two rows share (Ticker, Date). *)
Theorem sort_values_canonical (df df' : list Row) :
  Permutation df df' ->
  NoDup (map key df) ->
  sort_values df = sort_values df'.
Proof.
  intros Hp Hnd.
  apply sorted_rows_unique; try apply sort_values_strongly_sorted.
  - eapply perm_trans; [apply Permutation_sym, sort_values_perm|].
    eapply perm_trans; [exact Hp|apply sort_values_perm].
  - apply (Permutation_NoDup (Permutation_map key (sort_values_perm df))). exact Hnd.
Qed.

Lemma sort_values_canonical_witness :
  sort_values (rev Samples.panel) = sort_values Samples.panel.
Proof.
  apply (sort_values_canonical (rev Samples.panel) Samples.panel).
  - apply Permutation_sym, Permutation_rev.
  - vm_compute.
    repeat (constructor;
            [simpl; intros H; repeat (destruct H as [H|H]; [discriminate H|]);
             contradiction|]).
    constructor.
Defined.

Lemma nodup_length_le (l : list string) : length (nodup string_dec l) <= length l.
Proof.
  induction l as [|x l IH]; simpl; [lia|].
  destruct (in_dec string_dec x l); simpl; lia.
Qed.

Lemma nodup_length_iff (l : list string) :
  length (nodup string_dec l) = length l <-> NoDup l.
Proof.
  split.
  - induction l as [|x l IH]; intros H; [constructor|].
    simpl in H. destruct (in_dec string_dec x l) as [Hin|Hnot].
    + pose proof (nodup_length_le l). lia.
    + simpl in H. constructor; [exact Hnot|]. apply IH. lia.
  - intros H. rewrite nodup_fixed_point by exact H. reflexivity.
Qed.

Lemma group_keys_length_iff (df : list Row) :
  length (group_keys (sort_values df)) = length df <-> NoDup (map Ticker df).
Proof.
  unfold group_keys. rewrite sort_length.
  assert (Hp : Permutation (map Ticker df) (map Ticker (sort_values df)))
    by (apply Permutation_map, sort_values_perm).
  rewrite <- (length_map Ticker df), (Permutation_length Hp).
  rewrite nodup_length_iff. split; apply Permutation_NoDup;
    [apply Permutation_sym|]; exact Hp.
Qed.

Section Dates.
Variable to_datetime : Z -> option Z.

(** The row that [convert_date] builds when the date parses. *)
Let to_row (r : RawRow) : Row :=
  mkRow (raw_Ticker r)
        (match to_datetime (DTYYYYMMDD r) with Some d => d | None => 0%Z end)
        (raw_Open r) (raw_High r) (raw_Low r) (raw_Close r) (raw_Volume r).

Lemma convert_dates_cases (raw : list RawRow) :
  (convert_dates to_datetime raw = inr (map to_row raw) /\
   forall r, In r raw -> to_datetime (DTYYYYMMDD r) <> None) \/
  (convert_dates to_datetime raw = inl ValueError /\
   exists r, In r raw /\ to_datetime (DTYYYYMMDD r) = None).
Proof.
  induction raw as [|r raw IH]; simpl.
  - left. split; [reflexivity|]. intros r [].
  - unfold convert_date, to_row at 1.
    destruct (to_datetime (DTYYYYMMDD r)) as [d|] eqn:E; simpl.
    + destruct IH as [[-> Hall]|[-> (r' & Hin & Hr')]]; simpl.
      * left. split; [reflexivity|].
        intros r' [<-|Hin]; [congruence|apply Hall; exact Hin].
      * right. split; [reflexivity|]. exists r'. split; [right; exact Hin|exact Hr'].
    + right. split; [reflexivity|]. exists r. split; [left; reflexivity|exact E].
Qed.

Lemma to_row_tickers (raw : list RawRow) : map Ticker (map to_row raw) = map raw_Ticker raw.
Proof. rewrite map_map. reflexivity. Qed.

Variable sqrt : Q -> Q.
Variable dt : dtype.

Lemma preprocess_data_after_sort (raw raw' : list RawRow) (df df' : list Row) :
  convert_dates to_datetime raw = inr df ->
  convert_dates to_datetime raw' = inr df' ->
  sort_values df = sort_values df' ->
  preprocess_data sqrt to_datetime dt raw = preprocess_data sqrt to_datetime dt raw'.
Proof.
  intros H1 H2 Hs. unfold preprocess_data. rewrite H1, H2. simpl. rewrite Hs.
  reflexivity.
Qed.

Lemma preprocess_data_bad_date (raw : list RawRow) :
  convert_dates to_datetime raw = inl ValueError ->
  preprocess_data sqrt to_datetime dt raw = inl ValueError.
Proof. intros H. unfold preprocess_data. rewrite H. reflexivity. Qed.

(** X9. [preprocess_data] returns a table exactly when the panel is not
    empty, every date parses and no ticker occurs in two rows; in every other
    case the exception that leaves it is ValueError. *)
Theorem preprocess_data_returns_iff (raw : list RawRow) :
  ((exists out, preprocess_data sqrt to_datetime dt raw = inr out) <->
   raw <> [] /\
   (forall r, In r raw -> to_datetime (DTYYYYMMDD r) <> None) /\
   NoDup (map raw_Ticker raw)) /\
  (forall e, preprocess_data sqrt to_datetime dt raw = inl e -> e = ValueError).
Proof.
  destruct (convert_dates_cases raw) as [[Hc Hall]|[Hc (r & Hin & Hr)]].
  - destruct (Nat.eq_dec (length (group_keys (sort_values (map to_row raw))))
                         (length (map to_row raw))) as [Heq|Hne].
    + pose proof (proj1 (group_keys_length_iff _) Heq) as Hnd.
      rewrite to_row_tickers in Hnd.
      destruct raw as [|r0 raw].
      * split; [split|].
        -- intros [out Hout]. discriminate Hout.
        -- intros [Hne _]. contradiction.
        -- intros e He. injection He as <-. reflexivity.
      * destruct (preprocess_data_returns sqrt to_datetime dt _ _ Hc
                    ltac:(discriminate) Heq) as [out Hout].
        split; [split|].
        -- intros _. split; [discriminate|]. split; assumption.
        -- intros _. exists out. exact Hout.
        -- intros e He. rewrite Hout in He. discriminate He.
    + pose proof (preprocess_data_raises sqrt to_datetime dt _ _ Hc Hne) as Hr.
      split; [split|].
      * intros [out Hout]. rewrite Hr in Hout. discriminate Hout.
      * intros (_ & _ & Hnd). exfalso. apply Hne.
        apply group_keys_length_iff. rewrite to_row_tickers. exact Hnd.
      * intros e He. rewrite Hr in He. injection He as <-. reflexivity.
  - pose proof (preprocess_data_bad_date raw Hc) as Hbad.
    split; [split|].
    + intros [out Hout]. rewrite Hbad in Hout. discriminate Hout.
    + intros (_ & Hall & _). exfalso. apply (Hall r Hin). exact Hr.
    + intros e He. rewrite Hbad in He. injection He as <-. reflexivity.
Qed.

(** X10. The result of [preprocess_data], table or exception, does not
    depend on the order of the rows of the panel. *)
Theorem preprocess_data_order_independent (raw raw' : list RawRow) :
  Permutation raw raw' ->
  preprocess_data sqrt to_datetime dt raw = preprocess_data sqrt to_datetime dt raw'.
Proof.
  intros Hp.
  destruct (convert_dates_cases raw) as [[Hc Hall]|[Hc (r & Hin & Hr)]];
    destruct (convert_dates_cases raw') as [[Hc' Hall']|[Hc' (r' & Hin' & Hr')]].
  - assert (Hpm : Permutation (map to_row raw) (map to_row raw'))
      by (apply Permutation_map; exact Hp).
    destruct (ListDec.NoDup_dec string_dec (map raw_Ticker raw)) as [Hnd|Hdup].
    + apply (preprocess_data_after_sort raw raw' _ _ Hc Hc').
      rewrite <- to_row_tickers in Hnd.
      assert (Hk : map Ticker (map to_row raw) = map fst (map key (map to_row raw)))
        by (rewrite (map_map key fst); reflexivity).
      rewrite Hk in Hnd. apply NoDup_map_inv in Hnd.
      apply sorted_rows_unique; try apply sort_values_strongly_sorted.
      * eapply perm_trans; [apply Permutation_sym, sort_values_perm|].
        eapply perm_trans; [exact Hpm|apply sort_values_perm].
      * apply (Permutation_NoDup (Permutation_map key (sort_values_perm _))). exact Hnd.
    + rewrite (preprocess_data_raises sqrt to_datetime dt raw _ Hc),
              (preprocess_data_raises sqrt to_datetime dt raw' _ Hc'); [reflexivity| |].
      * intros Heq. apply Hdup. apply group_keys_length_iff in Heq.
        rewrite to_row_tickers in Heq.
        apply (Permutation_NoDup (Permutation_sym (Permutation_map raw_Ticker Hp))).
        exact Heq.
      * intros Heq. apply Hdup. apply group_keys_length_iff in Heq.
        rewrite to_row_tickers in Heq. exact Heq.
  - exfalso. apply (Hall r'); [|exact Hr'].
    apply (Permutation_in _ (Permutation_sym Hp)). exact Hin'.
  - exfalso. apply (Hall' r); [|exact Hr].
    apply (Permutation_in _ Hp). exact Hin.
  - rewrite (preprocess_data_bad_date raw Hc), (preprocess_data_bad_date raw' Hc').
    reflexivity.
Qed.
End Dates.

Lemma preprocess_data_order_independent_witness :
  preprocess_data Samples.sqrt_q Samples.parse_yyyymmdd float64 Samples.one_day_each
  = preprocess_data Samples.sqrt_q Samples.parse_yyyymmdd float64 (rev Samples.one_day_each).
Proof.
  apply (preprocess_data_order_independent Samples.parse_yyyymmdd Samples.sqrt_q float64).
  apply Permutation_rev.
Defined.

(* ===================================================================== *)
(** * Further properties: clean_column_names and clean_data              *)
(* ===================================================================== *)

Lemma remove_char_gone (ch : ascii) (s : string) :
  ~ In ch (chars (DataCleaning.remove_char ch s)).
Proof.
  induction s as [|a s IH]; simpl; [tauto|].
  destruct (Ascii.eqb_spec a ch) as [->|Hne]; [exact IH|].
  simpl. intros [H|H]; [congruence|contradiction].
Qed.

Lemma remove_char_subset (ch c : ascii) (s : string) :
  In c (chars (DataCleaning.remove_char ch s)) -> In c (chars s).
Proof.
  induction s as [|a s IH]; simpl; [tauto|].
  destruct (Ascii.eqb a ch); simpl; tauto.
Qed.

Lemma remove_char_absent (ch : ascii) (s : string) :
  ~ In ch (chars s) -> DataCleaning.remove_char ch s = s.
Proof.
  induction s as [|a s IH]; simpl; [reflexivity|]. intros H.
  destruct (Ascii.eqb_spec a ch) as [->|Hne]; [tauto|].
  rewrite IH by tauto. reflexivity.
Qed.

Lemma clean_label_plain (c : string) :
  let c' := DataCleaning.remove_char ">" (DataCleaning.remove_char "<" c) in
  ~ In "<"%char (chars c') /\ ~ In ">"%char (chars c').
Proof.
  simpl. split.
  - intros H. apply remove_char_subset in H. apply (remove_char_gone "<" c H).
  - apply remove_char_gone.
Qed.

Lemma clean_label_idem (c : string) :
  ~ In "<"%char (chars c) -> ~ In ">"%char (chars c) ->
  DataCleaning.remove_char ">" (DataCleaning.remove_char "<" c) = c.
Proof.
  intros H1 H2. rewrite (remove_char_absent "<" c H1). apply remove_char_absent. exact H2.
Qed.

(** X11. After [clean_column_names] no column label holds "<" or ">"; the
    rows are untouched; a label without these characters stays as it is, so
    cleaning a second time changes nothing. *)
Theorem clean_column_names_plain (df : DataFrame) :
  rows (DataCleaning.clean_column_names df) = rows df /\
  length (columns (DataCleaning.clean_column_names df)) = length (columns df) /\
  (forall c, In c (columns (DataCleaning.clean_column_names df)) ->
             ~ In "<"%char (chars c) /\ ~ In ">"%char (chars c)) /\
  ((forall c, In c (columns df) -> ~ In "<"%char (chars c) /\ ~ In ">"%char (chars c)) ->
   DataCleaning.clean_column_names df = df) /\
  DataCleaning.clean_column_names (DataCleaning.clean_column_names df)
  = DataCleaning.clean_column_names df.
Proof.
  assert (Hplain : forall c, In c (columns (DataCleaning.clean_column_names df)) ->
                             ~ In "<"%char (chars c) /\ ~ In ">"%char (chars c)).
  { intros c Hc. simpl in Hc. apply in_map_iff in Hc. destruct Hc as (c0 & <- & _).
    apply clean_label_plain. }
  assert (Hid : forall d : DataFrame,
             (forall c, In c (columns d) ->
                        ~ In "<"%char (chars c) /\ ~ In ">"%char (chars c)) ->
             DataCleaning.clean_column_names d = d).
  { intros [cols rs] H. unfold DataCleaning.clean_column_names. simpl in *. f_equal.
    rewrite <- (map_id cols) at 2. apply map_ext_in.
    intros c Hc. apply clean_label_idem; apply (H c Hc). }
  split; [reflexivity|]. split; [apply length_map|]. split; [exact Hplain|].
  split; [apply Hid|]. apply Hid. exact Hplain.
Qed.

Lemma cell_eqb_refl (c : cell) : cell_eqb c c = true.
Proof.
  destruct c as [|q|s]; simpl; [reflexivity| |apply String.eqb_refl].
  apply Qeq_bool_iff. reflexivity.
Qed.

Lemma row_eqb_refl (r : list cell) : row_eqb r r = true.
Proof.
  induction r as [|c r IH]; simpl; [reflexivity|].
  rewrite cell_eqb_refl, IH. reflexivity.
Qed.

Lemma drop_duplicates_from_idem (rest seen : list (list cell)) :
  drop_duplicates_from seen (drop_duplicates_from seen rest)
  = drop_duplicates_from seen rest.
Proof.
  revert seen. induction rest as [|r rest IH]; intros seen; simpl; [reflexivity|].
  destruct (existsb (row_eqb r) seen) eqn:E; [apply IH|].
  simpl. rewrite E, IH. reflexivity.
Qed.

Lemma drop_duplicates_from_fresh (rest seen : list (list cell)) :
  Forall (fun r => existsb (row_eqb r) seen = false) (drop_duplicates_from seen rest) /\
  duplicate_free (drop_duplicates_from seen rest).
Proof.
  revert seen. induction rest as [|r rest IH]; intros seen; simpl.
  - split; constructor.
  - destruct (existsb (row_eqb r) seen) eqn:E; [apply IH|].
    destruct (IH (r :: seen)) as [Hf Hd]. split.
    + constructor; [exact E|].
      eapply Forall_impl; [|exact Hf]. intros x Hx. simpl in Hx.
      apply orb_false_iff in Hx. exact (proj2 Hx).
    + constructor; [|exact Hd].
      eapply Forall_impl; [|exact Hf]. intros x Hx. simpl in Hx.
      apply orb_false_iff in Hx. exact (proj1 Hx).
Qed.

Lemma drop_duplicates_from_covers (rest seen : list (list cell)) (r : list cell) :
  In r rest ->
  existsb (row_eqb r) seen = true \/
  exists r', In r' (drop_duplicates_from seen rest) /\ row_eqb r r' = true.
Proof.
  revert seen. induction rest as [|x rest IH]; intros seen Hin; [contradiction|].
  simpl. destruct (existsb (row_eqb x) seen) eqn:E.
  - destruct Hin as [<-|Hin]; [left; exact E|apply IH; exact Hin].
  - destruct Hin as [<-|Hin].
    + right. exists x. split; [left; reflexivity|apply row_eqb_refl].
    + destruct (IH (x :: seen) Hin) as [H|(r' & Hr' & He)].
      * simpl in H. apply orb_true_iff in H. destruct H as [H|H]; [|left; exact H].
        right. exists x. split; [left; reflexivity|exact H].
      * right. exists r'. split; [right; exact Hr'|exact He].
Qed.

(** X12. In the table that [clean_data] returns no cell in a column with
    a critical label is missing and no row equals a row before it; and nothing
    else is lost: every input row without such a missing cell has an equal row
    in the output. *)
Theorem clean_data_output (df out : DataFrame) :
  DataCleaning.clean_data df = inr out ->
  (forall r, In r (rows out) -> complete_row (columns out) r) /\
  duplicate_free (rows out) /\
  (forall r, In r (rows df) -> complete_row (columns df) r ->
             exists r', In r' (rows out) /\ row_eqb r r' = true).
Proof.
  intros H. destruct (clean_data_result df out H) as (_ & _ & ->).
  unfold drop_duplicates. cbn [rows columns]. split; [|split].
  - intros r Hr. apply drop_duplicates_from_In in Hr.
    apply (proj1 (dropna_complete df r)). exact Hr.
  - apply drop_duplicates_from_fresh.
  - intros r Hin Hc.
    destruct (drop_duplicates_from_covers
                (rows (dropna DataCleaning.critical_columns df)) [] r) as [Habs|Hex].
    + apply dropna_complete. split; assumption.
    + discriminate Habs.
    + exact Hex.
Qed.

Lemma clean_data_output_witness :
  exists out,
    DataCleaning.clean_data (DataCleaning.clean_column_names MoreSamples.ticker_twice)
    = inr out /\
    rows out = [[Str "AAA"; Num 20240102; Num 10; Num 11; Num 9; Num 10; Num 900; Str "AAA"]] /\
    duplicate_free (rows out) /\
    forall r, In r (rows out) -> complete_row (columns out) r.
Proof.
  eexists. split; [vm_compute; reflexivity|]. split; [reflexivity|].
  destruct (clean_data_output (DataCleaning.clean_column_names MoreSamples.ticker_twice)
                              _ ltac:(vm_compute; reflexivity))
    as (Hc & Hd & _).
  split; [exact Hd|exact Hc].
Defined.

Lemma dropna_fixed (d : DataFrame) :
  (forall r, In r (rows d) -> complete_row (columns d) r) ->
  dropna DataCleaning.critical_columns d = d.
Proof.
  intros H. destruct d as [cols rs]. unfold dropna. cbn [rows columns] in *.
  f_equal. apply filter_all. intros r Hr.
  pose proof (proj2 (dropna_complete (mkDataFrame cols rs) r) (conj Hr (H r Hr))) as Hin.
  unfold dropna in Hin. cbn [rows columns] in Hin.
  apply filter_In in Hin. exact (proj2 Hin).
Qed.

(** X13. Cleaning a cleaned table changes nothing: [clean_data] returns its
    own result unchanged. *)
Theorem clean_data_idempotent (df out : DataFrame) :
  DataCleaning.clean_data df = inr out ->
  DataCleaning.clean_data out = inr out.
Proof.
  intros H. destruct (clean_data_result df out H) as (Hcols & Hrep & Hout).
  set (D := dropna DataCleaning.critical_columns df) in *.
  assert (Hc : columns out = columns df) by (rewrite Hout; reflexivity).
  assert (Hrs : rows out = drop_duplicates_from [] (rows D))
    by (rewrite Hout; reflexivity).
  assert (Hdrop : dropna DataCleaning.critical_columns out = out).
  { apply dropna_fixed. intros r Hr. rewrite Hrs in Hr.
    apply drop_duplicates_from_In in Hr.
    rewrite Hc. apply (proj1 (dropna_complete df r)). exact Hr. }
  assert (Hdd : drop_duplicates out = out).
  { unfold drop_duplicates. rewrite Hrs, drop_duplicates_from_idem, <- Hrs.
    destruct out; reflexivity. }
  rewrite clean_data_returns by (rewrite Hc; assumption).
  rewrite Hdrop, Hdd. reflexivity.
Qed.

Lemma clean_data_idempotent_witness :
  exists out,
    DataCleaning.clean_data Samples.dirty = inr out /\
    DataCleaning.clean_data out = inr out.
Proof.
  eexists. split; [vm_compute; reflexivity|].
  apply (clean_data_idempotent Samples.dirty). vm_compute. reflexivity.
Defined.

(* ===================================================================== *)
(** * Further properties: load_data                                      *)
(* ===================================================================== *)

Lemma listdir_csv_skip (d1 d2 : directory) (name : string) (f : file) :
  endswith name ".csv" = false ->
  listdir_csv (d1 ++ (name, f) :: d2) = listdir_csv (d1 ++ d2).
Proof.
  intros H. rewrite !listdir_csv_app. f_equal.
  unfold listdir_csv. simpl. rewrite H. reflexivity.
Qed.

Lemma listdir_csv_nil (d : directory) :
  (forall n f, In (n, f) d -> endswith n ".csv" = false) -> listdir_csv d = [].
Proof.
  intros H. induction d as [|[n f] d IH]; [reflexivity|].
  unfold listdir_csv in *. simpl. rewrite (H n f (or_introl eq_refl)).
  apply IH. intros n' f' Hin. apply (H n' f'). right. exact Hin.
Qed.

(** X14. Both [load_data] functions look only at the names that end in
    ".csv": a file with another name changes no result, and a directory
    in which no name ends in ".csv" makes both raise ValueError. *)
Theorem load_data_ignores_other_names (d1 d2 : directory) (name : string) (f : file) :
  endswith name ".csv" = false ->
  DataProcessing.load_data (d1 ++ (name, f) :: d2) = DataProcessing.load_data (d1 ++ d2) /\
  DataCleaning.load_data (d1 ++ (name, f) :: d2) = DataCleaning.load_data (d1 ++ d2) /\
  ((forall n g, In (n, g) (d1 ++ d2) -> endswith n ".csv" = false) ->
   DataProcessing.load_data (d1 ++ (name, f) :: d2) = inl ValueError /\
   DataCleaning.load_data (d1 ++ (name, f) :: d2) = inl ValueError).
Proof.
  intros H.
  unfold DataProcessing.load_data, DataCleaning.load_data.
  rewrite (listdir_csv_skip d1 d2 name f H).
  split; [reflexivity|]. split; [reflexivity|].
  intros Hnone. rewrite (listdir_csv_nil _ Hnone). split; reflexivity.
Qed.

Lemma load_data_ignores_other_names_witness :
  DataProcessing.load_data MoreSamples.raw_dir
  = DataProcessing.load_data [("x.csv", Csv MoreSamples.bracketed)] /\
  DataCleaning.load_data MoreSamples.raw_dir
  = DataCleaning.load_data [("x.csv", Csv MoreSamples.bracketed)].
Proof.
  destruct (load_data_ignores_other_names [] [("x.csv", Csv MoreSamples.bracketed)]
              "notes.txt" Unreadable eq_refl) as (H1 & H2 & _).
  split; [exact H1|exact H2].
Defined.

Lemma kept_usable (files : list (string * file)) (f : DataFrame) :
  In f (kept files) ->
  issubset DataProcessing.required_columns (columns f) = true /\ 0 < length (rows f).
Proof.
  unfold kept. intros H. apply in_flat_map in H.
  destruct H as ([n g] & _ & H). simpl in H.
  destruct g as [|df]; [contradiction|].
  destruct (usable (Csv df)) eqn:E; [|contradiction].
  destruct H as [<-|[]]. unfold usable in E.
  apply andb_true_iff in E. destruct E as [E1 E2]. split; [exact E1|].
  unfold empty in E2. apply negb_true_iff, orb_false_iff in E2.
  destruct E2 as [E2 _]. apply Nat.eqb_neq in E2. lia.
Qed.

(** X15. A table returned by [data_processing.load_data] has every
    required column, one cell per column in every row, as many rows as the
    kept files hold together, and at least one row. *)
Theorem processing_load_data_table (data_dir : directory) (out : DataFrame) :
  DataProcessing.load_data data_dir = inr out ->
  (forall c, In c DataProcessing.required_columns -> In c (columns out)) /\
  (forall r, In r (rows out) -> length r = length (columns out)) /\
  length (rows out) = total_rows (kept (listdir_csv data_dir)) /\
  0 < length (rows out).
Proof.
  intros H. rewrite processing_load_data_kept in H.
  destruct (kept (listdir_csv data_dir)) as [|f fs] eqn:E; [discriminate H|].
  destruct (concat_result _ _ H) as (Hcols & Hlen & Hrows).
  destruct (kept_usable (listdir_csv data_dir) f) as [Hreq Hpos];
    [rewrite E; left; reflexivity|].
  split; [|split; [exact Hrows|split; [exact Hlen|]]].
  - intros c Hc. rewrite Hcols. apply (union_columns_In _ f); [left; reflexivity|].
    apply (proj1 (issubset_true_iff _ _) Hreq). exact Hc.
  - rewrite Hlen. unfold total_rows. simpl. lia.
Qed.

Lemma processing_load_data_table_witness :
  exists out,
    DataProcessing.load_data Samples.mixed_dir = inr out /\
    length (rows out) = 1 /\ In "Volume" (columns out).
Proof.
  eexists. split; [vm_compute; reflexivity|].
  destruct (processing_load_data_table Samples.mixed_dir _ ltac:(vm_compute; reflexivity))
    as (Hc & _ & Hl & _).
  split; [exact Hl|]. apply Hc. vm_compute. tauto.
Defined.

Lemma accepted_csv (f : file) :
  accepted f ->
  exists df, f = Csv df /\
             issubset DataCleaning.critical_columns
                      (columns (DataCleaning.clean_column_names df)) = true.
Proof. destruct f as [|df]; [contradiction|]. intros H. exists df. split; [reflexivity|exact H]. Qed.

Lemma cleaning_load_files_app (l1 rest : list (string * file)) (acc : list DataFrame) :
  (forall p, In p l1 -> accepted (snd p)) ->
  DataCleaning.load_files (l1 ++ rest) acc
  = DataCleaning.load_files rest
      (acc ++ map DataCleaning.clean_column_names (frames_of l1)).
Proof.
  revert acc. induction l1 as [|[n f] l1 IH]; intros acc H.
  - simpl. rewrite app_nil_r. reflexivity.
  - destruct (accepted_csv f (H (n, f) (or_introl eq_refl))) as (df & -> & Hsub).
    rewrite <- app_comm_cons, cleaning_load_files_csv.
    rewrite (missing_columns_empty _ _ Hsub).
    rewrite IH by (intros p Hp; apply H; right; exact Hp).
    simpl. rewrite <- app_assoc. reflexivity.
Qed.

Lemma cleaning_load_files_accepted (files : list (string * file)) :
  (forall p, In p files -> accepted (snd p)) ->
  DataCleaning.load_files files []
  = inr (map DataCleaning.clean_column_names (frames_of files)).
Proof.
  intros H. rewrite <- (app_nil_r files) at 1.
  rewrite (cleaning_load_files_app files [] [] H). reflexivity.
Qed.

Lemma cleaning_load_files_inr (files : list (string * file)) (acc fs : list DataFrame) :
  DataCleaning.load_files files acc = inr fs ->
  forall p, In p files -> accepted (snd p).
Proof.
  revert acc. induction files as [|[n f] files IH]; intros acc H p Hp; [contradiction|].
  destruct f as [|df]; [discriminate H|].
  rewrite cleaning_load_files_csv in H.
  destruct (issubset DataCleaning.critical_columns
                     (columns (DataCleaning.clean_column_names df))) eqn:E.
  - rewrite (missing_columns_empty _ _ E) in H.
    destruct Hp as [<-|Hp]; [exact E|]. apply (IH _ H p Hp).
  - pose proof (missing_columns_nonempty _ _ E) as Hne.
    destruct (filter _ DataCleaning.critical_columns); [contradiction|discriminate H].
Qed.

Lemma cleaning_load_data_steps (data_dir : directory) :
  listdir_csv data_dir <> [] ->
  DataCleaning.load_data data_dir
  = match DataCleaning.load_files (listdir_csv data_dir) [] with
    | inl e => inl e
    | inr data_frames => concat data_frames
    end.
Proof.
  intros H. unfold DataCleaning.load_data.
  destruct (listdir_csv data_dir); [contradiction|reflexivity].
Qed.

Lemma total_rows_cleaned (frames : list DataFrame) :
  total_rows (map DataCleaning.clean_column_names frames) = total_rows frames.
Proof. unfold total_rows. rewrite map_map. reflexivity. Qed.

(** With every CSV file accepted, [load_data] is [concat] on the cleaned
    frames. *)
Lemma cleaning_load_data_concat (data_dir : directory) :
  listdir_csv data_dir <> [] ->
  (forall p, In p (listdir_csv data_dir) -> accepted (snd p)) ->
  DataCleaning.load_data data_dir = concat (cleaned_frames data_dir) /\
  cleaned_frames data_dir <> [].
Proof.
  intros Hne Hacc.
  rewrite (cleaning_load_data_steps data_dir Hne), (cleaning_load_files_accepted _ Hacc).
  split; [reflexivity|]. unfold cleaned_frames.
  destruct (listdir_csv data_dir) as [|[n f] l]; [contradiction|].
  destruct (accepted_csv f (Hacc (n, f) (or_introl eq_refl))) as (df & -> & _).
  discriminate.
Qed.

Lemma cleaning_load_data_inr (data_dir : directory) (out : DataFrame) :
  DataCleaning.load_data data_dir = inr out ->
  listdir_csv data_dir <> [] /\
  (forall p, In p (listdir_csv data_dir) -> accepted (snd p)) /\
  concat (cleaned_frames data_dir) = inr out.
Proof.
  intros H.
  assert (Hne : listdir_csv data_dir <> []).
  { intros E. unfold DataCleaning.load_data in H. rewrite E in H. discriminate H. }
  pose proof H as H'. rewrite (cleaning_load_data_steps data_dir Hne) in H'.
  destruct (DataCleaning.load_files (listdir_csv data_dir) []) as [e|fs] eqn:E;
    [discriminate H'|].
  pose proof (cleaning_load_files_inr _ _ _ E) as Hacc.
  split; [exact Hne|]. split; [exact Hacc|].
  rewrite <- (proj1 (cleaning_load_data_concat data_dir Hne Hacc)). exact H.
Qed.

Lemma cleaning_load_data_columns (data_dir : directory) (out : DataFrame) :
  DataCleaning.load_data data_dir = inr out ->
  forall c, In c DataCleaning.critical_columns -> In c (columns out).
Proof.
  intros H. destruct (cleaning_load_data_inr data_dir out H) as (Hne & Hacc & Hcat).
  destruct (concat_result _ _ Hcat) as (Hcols & _).
  unfold cleaned_frames in Hcols.
  destruct (listdir_csv data_dir) as [|[n f] l] eqn:E; [contradiction|].
  destruct (accepted_csv f (Hacc (n, f) (or_introl eq_refl))) as (df & -> & Hsub).
  intros c Hc. rewrite Hcols.
  apply (union_columns_In _ (DataCleaning.clean_column_names df));
    [left; reflexivity|].
  apply (proj1 (issubset_true_iff _ _) Hsub). exact Hc.
Qed.

Lemma cleaning_load_data_exn (data_dir : directory) (e : exn) :
  DataCleaning.load_data data_dir = inl e ->
  e = ValueError \/ e = ReadError \/ e = InvalidIndexError.
Proof.
  intros H. destruct (listdir_csv data_dir) as [|p l] eqn:El.
  - unfold DataCleaning.load_data in H. rewrite El in H. injection H as <-. auto.
  - rewrite cleaning_load_data_steps in H by (rewrite El; discriminate).
    destruct (DataCleaning.load_files (listdir_csv data_dir) []) as [e0|fs] eqn:Ef.
    + injection H as <-. destruct (cleaning_load_files_exn _ _ _ Ef); auto.
    + destruct fs as [|f fs]; [injection H as <-; auto|].
      unfold concat in H.
      destruct (forallb (fun g => is_unique (columns g)) (f :: fs)); [discriminate H|].
      destruct (forallb (fun g => labels_eqb (columns g) (columns f)) (f :: fs));
        [discriminate H|].
      injection H as <-. auto.
Qed.

(** X16. [data_cleaning.load_data] returns a table exactly when the
    directory has a CSV file, every CSV file can be read and has the critical
    columns once its labels are cleaned, and the cleaned frames can be
    stacked: none has a repeated label, or all carry the same labels.  With
    the files accepted and the frames not stackable it raises
    InvalidIndexError.  A returned table has the critical columns and as many
    rows as the CSV files hold together. *)
Theorem cleaning_load_data_returns_iff (data_dir : directory) :
  ((exists out, DataCleaning.load_data data_dir = inr out) <->
   listdir_csv data_dir <> [] /\
   (forall n f, In (n, f) data_dir -> endswith n ".csv" = true -> accepted f) /\
   stackable (cleaned_frames data_dir)) /\
  (listdir_csv data_dir <> [] ->
   (forall n f, In (n, f) data_dir -> endswith n ".csv" = true -> accepted f) ->
   ~ stackable (cleaned_frames data_dir) ->
   DataCleaning.load_data data_dir = inl InvalidIndexError) /\
  (forall out, DataCleaning.load_data data_dir = inr out ->
     (forall c, In c DataCleaning.critical_columns -> In c (columns out)) /\
     length (rows out) = total_rows (frames_of (listdir_csv data_dir))).
Proof.
  assert (Hlist : (forall n f, In (n, f) data_dir -> endswith n ".csv" = true -> accepted f)
                  -> forall p, In p (listdir_csv data_dir) -> accepted (snd p)).
  { intros Hacc [n f] Hp. apply listdir_csv_In in Hp. apply (Hacc n f); tauto. }
  split; [split|split].
  - intros [out H]. destruct (cleaning_load_data_inr _ out H) as (Hne & Hacc & Hcat).
    split; [exact Hne|]. split.
    + intros n f Hin Hcsv. apply (Hacc (n, f)). apply listdir_csv_In. split; assumption.
    + destruct (concat_inv _ _ Hcat) as [_ [Hu|(cols & _ & Hs)]]; [left; exact Hu|].
      right. intros f g Hf Hg. rewrite (Hs f Hf), (Hs g Hg). reflexivity.
  - intros (Hne & Hacc & Hst).
    destruct (cleaning_load_data_concat data_dir Hne (Hlist Hacc)) as [-> Hfs].
    apply (proj1 (concat_stackable _ Hfs) Hst).
  - intros Hne Hacc Hst.
    destruct (cleaning_load_data_concat data_dir Hne (Hlist Hacc)) as [-> Hfs].
    apply (proj2 (concat_stackable _ Hfs) Hst).
  - intros out H. split; [exact (cleaning_load_data_columns _ out H)|].
    destruct (cleaning_load_data_inr _ out H) as (Hne & Hacc & Hcat).
    destruct (concat_result _ _ Hcat) as (_ & Hlen & _).
    rewrite Hlen. apply total_rows_cleaned.
Qed.

(** A file in which "<Close>" and "Close" are two columns is loaded when it
    is alone, and stops the load when another file stands beside it. *)
Example cleaning_load_data_repeated_label :
  (exists out, DataCleaning.load_data [("a.csv", Csv MoreSamples.close_twice)] = inr out /\
               repeated "Close" (columns out)) /\
  DataCleaning.load_data [("a.csv", Csv MoreSamples.close_twice);
                          ("b.csv", Csv Samples.complete)]
  = inl InvalidIndexError.
Proof.
  split; [|vm_compute; reflexivity].
  eexists. split; [vm_compute; reflexivity|].
  exists 5, 7. split; [lia|]. split; reflexivity.
Qed.

(** X17. A CSV file that cannot be read is left out by
    [data_processing.load_data] and makes [data_cleaning.load_data] raise; the
    exception is the read error when the files listed before it are all
    accepted. *)
Theorem load_data_unreadable_file (d1 d2 : directory) (name : string) :
  endswith name ".csv" = true ->
  DataProcessing.load_data (d1 ++ (name, Unreadable) :: d2)
  = DataProcessing.load_data (d1 ++ d2) /\
  (exists e, DataCleaning.load_data (d1 ++ (name, Unreadable) :: d2) = inl e) /\
  ((forall n f, In (n, f) d1 -> endswith n ".csv" = true -> accepted f) ->
   DataCleaning.load_data (d1 ++ (name, Unreadable) :: d2) = inl ReadError).
Proof.
  intros Hcsv.
  assert (Hl : listdir_csv (d1 ++ (name, Unreadable) :: d2)
               = listdir_csv d1 ++ (name, Unreadable) :: listdir_csv d2)
    by (rewrite listdir_csv_app, (listdir_csv_cons name Unreadable d2 Hcsv); reflexivity).
  assert (Hne : listdir_csv (d1 ++ (name, Unreadable) :: d2) <> [])
    by (rewrite Hl; intros E; apply app_eq_nil in E; destruct E; discriminate).
  split; [|split].
  - rewrite !processing_load_data_kept, (kept_skip d1 d2 name Unreadable eq_refl).
    reflexivity.
  - rewrite (cleaning_load_data_steps _ Hne), Hl.
    destruct (DataCleaning.load_files _ []) as [e|fs] eqn:E.
    + exists e. reflexivity.
    + exfalso.
      apply (cleaning_load_files_inr _ _ _ E (name, Unreadable)).
      apply in_or_app. right. left. reflexivity.
  - intros Hacc. rewrite (cleaning_load_data_steps _ Hne), Hl.
    rewrite cleaning_load_files_app; [reflexivity|].
    intros [n f] Hp. apply listdir_csv_In in Hp. apply (Hacc n f); tauto.
Qed.

Lemma load_data_unreadable_file_witness :
  DataProcessing.load_data [("b.csv", Csv Samples.complete); ("c.csv", Unreadable)]
  = DataProcessing.load_data [("b.csv", Csv Samples.complete)] /\
  DataCleaning.load_data [("b.csv", Csv Samples.complete); ("c.csv", Unreadable)]
  = inl ReadError.
Proof.
  destruct (load_data_unreadable_file [("b.csv", Csv Samples.complete)] [] "c.csv" eq_refl)
    as (H1 & _ & H3).
  split; [exact H1|]. apply H3.
  intros n f [H|[]] _. injection H as <- <-. reflexivity.
Defined.

(* ===================================================================== *)
(** * Further properties: the cleaning script                            *)
(* ===================================================================== *)

(** On a table that [load_data] returned, [clean_data] finds the critical
    columns: it raises under a repeated numerical label and otherwise drops
    rows. *)
Lemma clean_data_after_load (data_dir : directory) (raw_data : DataFrame) :
  DataCleaning.load_data data_dir = inr raw_data ->
  DataCleaning.clean_data raw_data
  = if existsb (fun c => 1 <? occurrences c (columns raw_data)) DataCleaning.numerical_cols
    then inl ValueError
    else inr (drop_duplicates (dropna DataCleaning.critical_columns raw_data)).
Proof.
  intros H.
  pose proof (cleaning_load_data_columns data_dir raw_data H) as Hc.
  rewrite clean_data_cases, (proj2 (issubset_true_iff _ _) Hc). reflexivity.
Qed.

(** X18. The script fails with the exception of [load_data] when
    [load_data] raises, and with ValueError when the loaded table has two
    columns under the label of a numerical column, where the mean-fill loop
    of [clean_data] raises; in both cases nothing is written.  In every other
    case [clean_data] fills nothing and the script writes the loaded table
    less its incomplete and repeated rows.  No other exception ends the
    script than ValueError, the read error and InvalidIndexError. *)
Theorem main_outcome (data_dir : directory) :
  (forall e, DataCleaning.load_data data_dir = inl e ->
             CleaningScript.main data_dir = (data_dir, CleaningScript.Failed e)) /\
  (forall raw_data, DataCleaning.load_data data_dir = inr raw_data ->
     ((exists c, In c DataCleaning.numerical_cols /\ repeated c (columns raw_data)) ->
      CleaningScript.main data_dir = (data_dir, CleaningScript.Failed ValueError)) /\
     ((forall c, In c DataCleaning.numerical_cols -> ~ repeated c (columns raw_data)) ->
      CleaningScript.main data_dir
      = (CleaningScript.to_csv
           (drop_duplicates (dropna DataCleaning.critical_columns raw_data))
           data_dir "cleaned_stock_data.csv",
         CleaningScript.Completed))) /\
  (forall e, snd (CleaningScript.main data_dir) = CleaningScript.Failed e ->
             fst (CleaningScript.main data_dir) = data_dir /\
             (e = ValueError \/ e = ReadError \/ e = InvalidIndexError)).
Proof.
  assert (Hfail : forall e, DataCleaning.load_data data_dir = inl e ->
                            CleaningScript.main data_dir = (data_dir, CleaningScript.Failed e)).
  { intros e H. unfold CleaningScript.main. rewrite H. reflexivity. }
  assert (Hmain : forall raw_data, DataCleaning.load_data data_dir = inr raw_data ->
     CleaningScript.main data_dir
     = if existsb (fun c => 1 <? occurrences c (columns raw_data))
                  DataCleaning.numerical_cols
       then (data_dir, CleaningScript.Failed ValueError)
       else (CleaningScript.to_csv
               (drop_duplicates (dropna DataCleaning.critical_columns raw_data))
               data_dir "cleaned_stock_data.csv",
             CleaningScript.Completed)).
  { intros raw_data H. unfold CleaningScript.main. rewrite H.
    cbn [bind Monad_result Monad_either].
    rewrite (clean_data_after_load data_dir raw_data H).
    destruct (existsb _ DataCleaning.numerical_cols); reflexivity. }
  split; [exact Hfail|]. split.
  - intros raw_data H. rewrite (Hmain raw_data H). split.
    + intros Hrep. rewrite (proj2 (repeated_numerical_iff _) Hrep). reflexivity.
    + intros Hrep.
      destruct (existsb _ DataCleaning.numerical_cols) eqn:E; [|reflexivity].
      apply repeated_numerical_iff in E. destruct E as (c & Hc & Hr).
      contradiction (Hrep c Hc Hr).
  - intros e H. destruct (DataCleaning.load_data data_dir) as [e'|raw_data] eqn:E.
    + rewrite (Hfail e' eq_refl) in H |- *. injection H as ->.
      split; [reflexivity|]. apply (cleaning_load_data_exn data_dir e E).
    + rewrite (Hmain raw_data eq_refl) in H |- *.
      destruct (existsb _ DataCleaning.numerical_cols); [|discriminate H].
      injection H as <-. split; [reflexivity|]. left. reflexivity.
Qed.

(** One file in which "<Close>" and "Close" are two columns: the load
    succeeds, the mean-fill loop raises, nothing is written. *)
Example main_repeated_label :
  CleaningScript.main [("a.csv", Csv MoreSamples.close_twice)]
  = ([("a.csv", Csv MoreSamples.close_twice)], CleaningScript.Failed ValueError).
Proof. vm_compute. reflexivity. Qed.

(* ===================================================================== *)
(** * Further properties: running the cleaning script again              *)
(* ===================================================================== *)

Lemma drop_duplicates_from_app (l1 l2 seen : list (list cell)) :
  drop_duplicates_from seen (l1 ++ l2)
  = drop_duplicates_from seen l1
    ++ drop_duplicates_from (rev (drop_duplicates_from seen l1) ++ seen) l2.
Proof.
  revert seen. induction l1 as [|r l1 IH]; intros seen; [reflexivity|].
  rewrite <- app_comm_cons. cbn [drop_duplicates_from].
  destruct (existsb (row_eqb r) seen); [apply IH|].
  rewrite IH. cbn [rev]. rewrite <- app_assoc. reflexivity.
Qed.

Lemma drop_duplicates_from_seen (l seen : list (list cell)) :
  (forall r, In r l -> existsb (row_eqb r) seen = true) ->
  drop_duplicates_from seen l = [].
Proof.
  induction l as [|r l IH]; intros H; [reflexivity|].
  cbn [drop_duplicates_from]. rewrite (H r (or_introl eq_refl)).
  apply IH. intros x Hx. apply H. right. exact Hx.
Qed.

Lemma existsb_row_In (r : list cell) (seen : list (list cell)) :
  In r seen -> existsb (row_eqb r) seen = true.
Proof. intros H. apply existsb_exists. exists r. split; [exact H|apply row_eqb_refl]. Qed.

(** The rows that [drop_duplicates] keeps, put back among the rows they were
    taken from, are what it keeps again. *)
Lemma drop_duplicates_with_output (A M B out : list (list cell)) :
  out = drop_duplicates_from [] (A ++ M ++ B) ->
  drop_duplicates_from [] (A ++ out ++ B) = out.
Proof.
  intros ->.
  rewrite (drop_duplicates_from_app A (M ++ B)).
  set (DA := drop_duplicates_from [] A).
  set (s := rev DA ++ []).
  set (DMB := drop_duplicates_from s (M ++ B)).
  rewrite (drop_duplicates_from_app A). fold DA. fold s.
  rewrite (drop_duplicates_from_app (DA ++ DMB) B).
  rewrite (drop_duplicates_from_app DA DMB).
  assert (HDA : drop_duplicates_from s DA = []).
  { apply drop_duplicates_from_seen. intros r Hr. apply existsb_row_In.
    unfold s. apply in_or_app. left. apply -> in_rev. exact Hr. }
  rewrite HDA. cbn [rev app].
  unfold DMB at 1 2. rewrite drop_duplicates_from_idem. fold DMB.
  rewrite (drop_duplicates_from_seen B); [rewrite app_nil_r; reflexivity|].
  intros r Hr. rewrite existsb_app.
  destruct (drop_duplicates_from_covers (M ++ B) s r) as [H|(r' & Hin & He)].
  - apply in_or_app. right. exact Hr.
  - rewrite H. apply orb_true_r.
  - fold DMB in Hin. apply orb_true_iff. left.
    apply existsb_exists. exists r'. split; [apply -> in_rev; exact Hin|exact He].
Qed.

Lemma frames_of_app (l1 l2 : list (string * file)) :
  frames_of (l1 ++ l2) = frames_of l1 ++ frames_of l2.
Proof. unfold frames_of. apply flat_map_app. Qed.

Lemma clean_column_names_fixed (d : DataFrame) :
  (forall c, In c (columns d) -> ~ In "<"%char (chars c) /\ ~ In ">"%char (chars c)) ->
  DataCleaning.clean_column_names d = d.
Proof.
  destruct d as [cols rs]. intros H. unfold DataCleaning.clean_column_names.
  cbn [rows columns] in *. f_equal.
  rewrite <- (map_id cols) at 2. apply map_ext_in.
  intros c Hc. apply clean_label_idem; apply (H c Hc).
Qed.

Lemma cleaned_frames_plain (frames : list DataFrame) (c : string) :
  In c (union_columns (map DataCleaning.clean_column_names frames)) ->
  ~ In "<"%char (chars c) /\ ~ In ">"%char (chars c).
Proof.
  intros H. apply add_columns_inv in H. destruct H as [[]|(f & Hf & Hc)].
  apply in_map_iff in Hf. destruct Hf as (df & <- & _).
  cbn [columns DataCleaning.clean_column_names] in Hc.
  apply in_map_iff in Hc. destruct Hc as (c0 & <- & _). apply clean_label_plain.
Qed.

(** The table the script writes, listed among the files it was made from (in
    place of any of them, or of none), is accepted by [load_data], and
    [clean_data] gives the same table again. *)
Lemma clean_with_output (d1 mid d2 : directory) (name : string)
      (raw_data cleaned_data : DataFrame) :
  endswith name ".csv" = true ->
  DataCleaning.load_data (d1 ++ mid ++ d2) = inr raw_data ->
  DataCleaning.clean_data raw_data = inr cleaned_data ->
  exists again,
    DataCleaning.load_data (d1 ++ (name, Csv cleaned_data) :: d2) = inr again /\
    DataCleaning.clean_data again = inr cleaned_data.
Proof.
  intros Hname Hload Hclean.
  destruct (clean_data_result _ _ Hclean) as (Hsub & Hrep & Hout).
  destruct (cleaning_load_data_inr _ _ Hload) as (_ & Hacc & Hcat).
  unfold cleaned_frames in Hcat.
  rewrite !listdir_csv_app, !frames_of_app, !map_app in Hcat.
  rewrite !listdir_csv_app in Hacc.
  set (F1 := map DataCleaning.clean_column_names (frames_of (listdir_csv d1))) in *.
  set (FM := map DataCleaning.clean_column_names (frames_of (listdir_csv mid))) in *.
  set (F2 := map DataCleaning.clean_column_names (frames_of (listdir_csv d2))) in *.
  assert (Hcols : columns cleaned_data = columns raw_data) by (rewrite Hout; reflexivity).
  assert (Hrows : forall r, In r (rows cleaned_data) -> In r (rows raw_data)).
  { intros r Hr. rewrite Hout in Hr. cbn [rows drop_duplicates] in Hr.
    apply drop_duplicates_from_In in Hr.
    apply (proj1 (dropna_complete raw_data r)) in Hr. apply Hr. }
  destruct (concat_with_output F1 FM F2 raw_data cleaned_data Hcat Hcols Hrows)
    as (R1 & RM & R2 & Hraw & Hcat').
  assert (Hfixed : DataCleaning.clean_column_names cleaned_data = cleaned_data).
  { apply clean_column_names_fixed. intros c Hc.
    rewrite Hcols, (proj1 (concat_result _ _ Hcat)) in Hc.
    unfold F1, FM, F2 in Hc. rewrite <- !map_app in Hc.
    apply (cleaned_frames_plain _ c Hc). }
  assert (Hok : accepted (Csv cleaned_data)).
  { cbn [accepted]. rewrite Hfixed, Hcols. exact Hsub. }
  assert (Hl : listdir_csv (d1 ++ (name, Csv cleaned_data) :: d2)
               = listdir_csv d1 ++ (name, Csv cleaned_data) :: listdir_csv d2)
    by (rewrite listdir_csv_app, (listdir_csv_cons name _ d2 Hname); reflexivity).
  assert (Hload' : DataCleaning.load_data (d1 ++ (name, Csv cleaned_data) :: d2)
                   = concat (F1 ++ cleaned_data :: F2)).
  { rewrite (proj1 (cleaning_load_data_concat _
                      ltac:(rewrite Hl; intros E; apply app_eq_nil in E;
                            destruct E; discriminate)
                      ltac:(rewrite Hl; intros p Hp; apply in_app_or in Hp;
                            destruct Hp as [Hp|[<-|Hp]];
                            [apply Hacc, in_or_app; left; exact Hp
                            |exact Hok
                            |apply Hacc, in_or_app; right; apply in_or_app; right;
                             exact Hp]))).
    unfold cleaned_frames. rewrite Hl, frames_of_app, map_app.
    cbn [frames_of flat_map snd app map]. rewrite Hfixed. reflexivity. }
  rewrite Hcat' in Hload'.
  eexists. split; [exact Hload'|].
  rewrite clean_data_returns by (cbn [columns]; assumption).
  f_equal.
  set (complete := fun row : list cell =>
         forallb (fun c => forallb (fun x => negb (isnull x))
                                   (cells_under (columns raw_data) row c))
                 DataCleaning.critical_columns).
  assert (HrowsC : rows cleaned_data
                   = drop_duplicates_from []
                       (filter complete R1 ++ filter complete RM ++ filter complete R2)).
  { rewrite Hout. cbn [rows columns drop_duplicates dropna].
    rewrite Hraw, !filter_app. reflexivity. }
  assert (Hcomplete : filter complete (rows cleaned_data) = rows cleaned_data).
  { apply filter_all. intros r Hr.
    rewrite Hout in Hr. cbn [rows drop_duplicates] in Hr.
    apply drop_duplicates_from_In in Hr.
    unfold dropna in Hr. cbn [rows columns] in Hr. apply filter_In in Hr.
    apply Hr. }
  destruct cleaned_data as [cols rs]. unfold drop_duplicates, dropna.
  cbn [rows columns] in *. subst cols. f_equal.
  fold complete. rewrite !filter_app, Hcomplete.
  apply (drop_duplicates_with_output _ _ _ _ HrowsC).
Qed.

Lemma write_file_split (name : string) (f : file) (d : directory) :
  exists d1 mid d2,
    d = d1 ++ mid ++ d2 /\
    CleaningScript.write_file name f d = d1 ++ (name, f) :: d2 /\
    forall p, In p d1 -> String.eqb (fst p) name = false.
Proof.
  induction d as [|[n g] d IH].
  - exists [], [], []. split; [reflexivity|]. split; [reflexivity|intros p []].
  - cbn [CleaningScript.write_file]. destruct (String.eqb n name) eqn:E.
    + exists [], [(n, g)], d. split; [reflexivity|]. split; [reflexivity|intros p []].
    + destruct IH as (d1 & mid & d2 & Hd & Hw & Hfresh).
      exists ((n, g) :: d1), mid, d2.
      split; [rewrite Hd; reflexivity|]. split; [rewrite Hw; reflexivity|].
      intros p [<-|Hp]; [exact E|apply Hfresh; exact Hp].
Qed.

Lemma write_file_again (name : string) (f : file) (d1 d2 : directory) :
  (forall p, In p d1 -> String.eqb (fst p) name = false) ->
  CleaningScript.write_file name f (d1 ++ (name, f) :: d2) = d1 ++ (name, f) :: d2.
Proof.
  induction d1 as [|[n g] d1 IH]; intros H.
  - cbn [app CleaningScript.write_file]. rewrite String.eqb_refl. reflexivity.
  - rewrite <- app_comm_cons. cbn [CleaningScript.write_file].
    pose proof (H (n, g) (or_introl eq_refl)) as E. cbn [fst] in E.
    rewrite E, IH; [reflexivity|].
    intros p Hp. apply H. right. exact Hp.
Qed.

(** X19. The script writes its table into the directory it reads, so the
    next run reads that table as one more file.  When a run completes, the
    run after it completes too and leaves the directory, the written table
    included, as the first run left it (a written table being read back as
    it was written). *)
Theorem main_run_again (data_dir : directory) :
  snd (CleaningScript.main data_dir) = CleaningScript.Completed ->
  CleaningScript.main (fst (CleaningScript.main data_dir))
  = (fst (CleaningScript.main data_dir), CleaningScript.Completed).
Proof.
  intros Hdone.
  destruct (DataCleaning.load_data data_dir) as [e|raw_data] eqn:Hload.
  { unfold CleaningScript.main in Hdone. rewrite Hload in Hdone. discriminate Hdone. }
  destruct (DataCleaning.clean_data raw_data) as [e|cleaned_data] eqn:Hclean.
  { unfold CleaningScript.main in Hdone. rewrite Hload in Hdone.
    cbn [bind Monad_result Monad_either] in Hdone. rewrite Hclean in Hdone.
    discriminate Hdone. }
  assert (Hmain : CleaningScript.main data_dir
                  = (CleaningScript.write_file "cleaned_stock_data.csv"
                       (Csv cleaned_data) data_dir, CleaningScript.Completed)).
  { unfold CleaningScript.main. rewrite Hload. cbn [bind Monad_result Monad_either].
    rewrite Hclean. reflexivity. }
  rewrite Hmain. cbn [fst].
  destruct (write_file_split "cleaned_stock_data.csv" (Csv cleaned_data) data_dir)
    as (d1 & mid & d2 & Hd & Hw & Hfresh).
  rewrite Hw. rewrite Hd in Hload.
  destruct (clean_with_output d1 mid d2 "cleaned_stock_data.csv" raw_data cleaned_data
              eq_refl Hload Hclean) as (again & Hload' & Hclean').
  unfold CleaningScript.main. rewrite Hload'. cbn [bind Monad_result Monad_either].
  rewrite Hclean'. unfold CleaningScript.to_csv.
  rewrite (write_file_again _ _ d1 d2 Hfresh). reflexivity.
Qed.

Lemma main_run_again_witness :
  snd (CleaningScript.main MoreSamples.raw_dir) = CleaningScript.Completed /\
  CleaningScript.main (fst (CleaningScript.main MoreSamples.raw_dir))
  = (fst (CleaningScript.main MoreSamples.raw_dir), CleaningScript.Completed).
Proof.
  split; [vm_compute; reflexivity|].
  apply (main_run_again MoreSamples.raw_dir). vm_compute. reflexivity.
Defined.
